(** * Nexus real-time session server: a shallow embedding of
      [backend/server.js] and the properties of its protocol.

    The server keeps one process-wide registry [participants] (a JS [Map]
    from participant id to a participant object) and one closure per
    accepted WebSocket.  The closure owns the participant object [p]; the
    registry only holds a reference to it.  The embedding keeps that
    aliasing: the object lives in the connection record and the registry
    is the ordered list of keys. *)

From Stdlib Require Import ZArith NArith List Bool Lia QArith Qround String Ascii.
Import ListNotations.
Local Open Scope Z_scope.

(* ------------------------------------------------------------------ *)
(** ** JavaScript strings *)

(** A JS string is a sequence of UTF-16 code units. *)
Definition jsstring := list N.

(** ASCII literals, for readable examples. *)
Fixpoint lit (s : string) : jsstring :=
  match s with
  | EmptyString => []
  | String a r => N_of_ascii a :: lit r
  end.

Fixpoint jsstring_eqb (a b : jsstring) : bool :=
  match a, b with
  | [], [] => true
  | c :: a', d :: b' => N.eqb c d && jsstring_eqb a' b'
  | _, _ => false
  end.

(** [WhiteSpace] and [LineTerminator] of ECMAScript: what [trim] strips
    and what the regular expression class [\s] matches. *)
Definition isWhiteSpace (c : N) : bool :=
  ((9 <=? c) && (c <=? 13) || (c =? 32) || (c =? 160) || (c =? 5760)
   || ((8192 <=? c) && (c <=? 8202)) || (c =? 8232) || (c =? 8233)
   || (c =? 8239) || (c =? 8287) || (c =? 12288) || (c =? 65279))%N.

Fixpoint trimStart (s : jsstring) : jsstring :=
  match s with
  | [] => []
  | c :: r => if isWhiteSpace c then trimStart r else s
  end.

Definition trimEnd (s : jsstring) : jsstring := rev (trimStart (rev s)).

(** [String.prototype.trim] *)
Definition trim (s : jsstring) : jsstring := trimEnd (trimStart s).

(** [s.slice(0, n)] for a non-negative [n] *)
Definition slice0 (n : nat) (s : jsstring) : jsstring := firstn n s.

(** [s.replace(/[<>]/g, '')] *)
Definition removeAngles (s : jsstring) : jsstring :=
  filter (fun c => negb ((c =? 60) || (c =? 62))%N) s.

(** [s.replace(/\s+/g, ' ')]: every maximal run of white space becomes one
    space.  [inRun] tells that the previous code unit was white space. *)
Fixpoint collapseFrom (inRun : bool) (s : jsstring) : jsstring :=
  match s with
  | [] => []
  | c :: r =>
      if isWhiteSpace c
      then (if inRun then collapseFrom true r else 32%N :: collapseFrom true r)
      else c :: collapseFrom false r
  end.

Definition collapseWhiteSpace (s : jsstring) : jsstring := collapseFrom false s.

(** Truthiness of a string: [!s] is [true] exactly for the empty string. *)
Definition isEmpty (s : jsstring) : bool :=
  match s with [] => true | _ => false end.

(* ------------------------------------------------------------------ *)
(** ** JavaScript numbers *)

(** The result of [Number(v)].  A finite double is a rational; the
    embedding keeps its exact value. *)
Inductive JSNumber : Type :=
| NaN
| PosInfinity
| NegInfinity
| Finite (q : Q).

(** [Number.isFinite] *)
Definition Number_isFinite (n : JSNumber) : bool :=
  match n with Finite _ => true | _ => false end.

(** [Math.round] on a finite number: the nearest integer, ties towards
    plus infinity. *)
Definition Math_round (q : Q) : Z := Qfloor (q + (1 # 2))%Q.

(** [Math.floor] on a finite number. *)
Definition Math_floor (q : Q) : Z := Qfloor q.

(** Arithmetic on doubles rounds the exact result to the nearest double,
    ties to the even significand.  [roundHalfEven a b] is that rounding of
    the rational [a / b] to an integer. *)
Definition roundHalfEven (a : Z) (b : positive) : Z :=
  let f := a / Z.pos b in
  match 2 * (a mod Z.pos b) ?= Z.pos b with
  | Lt => f
  | Gt => f + 1
  | Eq => if Z.even f then f else f + 1
  end.

(** The integer [c] with [2 ^ c <= a / d < 2 ^ (c + 1)], for [a > 0]. *)
Definition floorLog2 (a : Z) (d : positive) : Z :=
  let c0 := Z.log2 a - Z.log2 (Z.pos d) in
  if (if 0 <=? c0 then Z.pos d * 2 ^ c0 <=? a else Z.pos d <=? a * 2 ^ (- c0))
  then c0 else c0 - 1.

(** The double nearest to the rational [q] (binary64: a significand of 53
    bits, the smallest exponent of the last place being -1074), for [q]
    below the overflow threshold. *)
Definition nearestDouble (q : Q) : Q :=
  let a := Z.abs (Qnum q) in
  if a =? 0 then 0%Q
  else
    let e := Z.max (floorLog2 a (Qden q) - 52) (-1074) in
    let up := Z.max e 0 in
    let down := Z.max (- e) 0 in
    let m := roundHalfEven (a * 2 ^ down) (Z.to_pos (Z.pos (Qden q) * 2 ^ up)) in
    Qmake (Z.sgn (Qnum q) * m * 2 ^ up) (Z.to_pos (2 ^ down)).

(** [a * b] on doubles. *)
Definition Number_times (a b : Q) : Q := nearestDouble (a * b)%Q.

(* ------------------------------------------------------------------ *)
(** ** Config *)

Definition ROOM_width : Z := 1600.
Definition ROOM_height : Z := 900.
Definition MOVE_RATE_LIMIT_MS : Z := 12.
Definition CHAT_RATE_LIMIT_MS : Z := 1000.
Definition MAX_MESSAGE_LENGTH : nat := 200.
Definition HEARTBEAT_INTERVAL_MS : Z := 15000.
Definition CONNECTION_TTL_MS : Z := 30000.
Definition PROXIMITY_RADIUS : Z := 200.
(** The literal [32] of [name.slice(0, 32)] in the [join] and [rename]
    cases. *)
Definition MAX_NAME_LENGTH : nat := 32.

(* ------------------------------------------------------------------ *)
(** ** State *)

(** The participant object.  Positions are integer-valued doubles within
    the room (they only come from [Math.floor] and from the clamp of
    [Math.round]), so they are kept as [Z] and the arithmetic of the
    proximity test is exact.  [pcolor] is the hue of the [hsl(...)]
    string. *)
Record Participant : Type := mkParticipant {
  pid : jsstring;
  pname : jsstring;
  px : Z;
  py : Z;
  pcolor : Z;
  plastSeen : Z
}.

(** [ws.readyState] of a server-side socket once it was accepted. *)
Inductive ReadyState : Type := OPEN | CLOSING | CLOSED.

Definition isOpen (r : ReadyState) : bool :=
  match r with OPEN => true | _ => false end.

(** One accepted WebSocket with the context of its closure: [id],
    [lastMoveAt], [lastChatAt] and the object [p]. *)
Record Conn : Type := mkConn {
  cid : jsstring;
  readyState : ReadyState;
  isAlive : bool;
  lastMoveAt : Z;
  lastChatAt : Z;
  p : Participant
}.

(** [conns] holds every socket accepted so far; [wss.clients] is the part
    of it that is not [CLOSED].  [participants] is the key sequence of the
    registry [Map], in insertion order; the value stored under key [k] is
    the object [p] of the connection [k]. *)
Record Server : Type := mkServer {
  conns : list Conn;
  participants : list jsstring
}.

Definition initial : Server := mkServer [] [].

(** What [toClientParticipant] builds. *)
Record ClientParticipant : Type := mkClientParticipant {
  cp_id : jsstring;
  cp_name : jsstring;
  cp_x : Z;
  cp_y : Z;
  cp_color : Z
}.

(** Server to client frames (the [type] and [payload] of a message). *)
Inductive Frame : Type :=
| FWelcome (selfId : jsstring) (width height : Z)
| FState (ps : list ClientParticipant)
| FJoined (cp : ClientParticipant)
| FMoved (i : jsstring) (x y : Z)
| FRenamed (i : jsstring) (nm : jsstring)
| FLeft (i : jsstring)
| FPong
| FProximity (selfId : jsstring) (nearby : list jsstring)
| FChat (senderId senderName message : jsstring) (timestamp : Z)
| FChatError (message : jsstring).

(** What leaves the server: a frame handed to the socket of [to] with its
    [ts] field, or a call of [ws.ping()] on the socket of [to]. *)
Inductive Out : Type :=
| Deliver (to : jsstring) (f : Frame) (ts : Z)
| Probe (to : jsstring).

(** Client to server frames after [JSON.parse] and the coercions of the
    handler: [Join] and [Rename] carry [String(payload?.name ?? "")],
    [Move] carries [Number(payload?.x)] and [Number(payload?.y)], [Chat]
    carries [payload?.message] when it is a string and [None] for any
    other value.  [Malformed] is a frame on which [JSON.parse] or the
    destructuring throws. *)
Inductive Inbound : Type :=
| Join (nm : jsstring)
| Move (x y : JSNumber)
| Rename (nm : jsstring)
| Ping
| Chat (message : option jsstring)
| Unknown
| Malformed.

(* ------------------------------------------------------------------ *)
(** ** Utils *)

Definition clamp (v min max : Z) : Z := Z.max min (Z.min max v).

(** [randomSpawn], from the two draws of [Math.random()]. *)
Definition randomSpawn (rx ry : Q) : Z * Z :=
  (Math_floor (Number_times rx (inject_Z ROOM_width)),
   Math_floor (Number_times ry (inject_Z ROOM_height))).

(** [randomColor]: the hue. *)
Definition randomColor (rc : Q) : Z := Math_floor (Number_times rc 360).

Definition toClientParticipant (q : Participant) : ClientParticipant :=
  mkClientParticipant (pid q) (pname q) (px q) (py q) (pcolor q).

Definition findConn (i : jsstring) (s : Server) : option Conn :=
  find (fun c => jsstring_eqb (cid c) i) (conns s).

(** The entries of the registry [Map], in iteration order.  Every key
    has its connection (see [Inv]), so no entry is skipped in a reachable
    state. *)
Definition entries (s : Server) : list (jsstring * Participant) :=
  flat_map (fun k => match findConn k s with
                     | Some c => [(k, p c)]
                     | None => []
                     end) (participants s).

(** [Array.from(participants.values())] *)
Definition values (s : Server) : list Participant := map snd (entries s).

Definition snapshot (s : Server) : list ClientParticipant :=
  map toClientParticipant (values s).

Definition within (a b : Participant) : bool :=
  let dx := px a - px b in
  let dy := py a - py b in
  dx * dx + dy * dy <=? PROXIMITY_RADIUS * PROXIMITY_RADIUS.

Definition calcNearby (s : Server) (a : Participant) : list jsstring :=
  flat_map (fun e : jsstring * Participant =>
              let (id2, q) := e in
              if jsstring_eqb (pid a) id2 then []
              else if within a q then [id2] else [])
           (entries s).

Definition send (ws : Conn) (f : Frame) (ts : Z) : list Out :=
  if isOpen (readyState ws) then [Deliver (cid ws) f ts] else [].

Definition sendProximity (s : Server) (ws : Conn) (a : Participant) (ts : Z) : list Out :=
  send ws (FProximity (pid a) (calcNearby s a)) ts.

Definition isExcept (exceptWs : option jsstring) (client : Conn) : bool :=
  match exceptWs with
  | Some i => jsstring_eqb (cid client) i
  | None => false
  end.

Definition broadcast (s : Server) (f : Frame) (ts : Z) (exceptWs : option jsstring) : list Out :=
  flat_map (fun client =>
              if isOpen (readyState client) && negb (isExcept exceptWs client)
              then [Deliver (cid client) f ts] else [])
           (conns s).

Definition sanitizeMessage (text : jsstring) : jsstring :=
  collapseWhiteSpace (removeAngles (slice0 MAX_MESSAGE_LENGTH (trim text))).

Definition getProximityParticipants (s : Server) (src : Participant) : list Participant :=
  flat_map (fun e : jsstring * Participant =>
              let (i, q) := e in
              if jsstring_eqb (pid src) i then []
              else if within src q then [q] else [])
           (entries s).

Definition sendToParticipants (s : Server) (f : Frame) (ts : Z)
    (targetParticipants : list Participant) (exceptWs : option jsstring) : list Out :=
  flat_map (fun client =>
              if isOpen (readyState client) && negb (isExcept exceptWs client)
              then match find (fun q => jsstring_eqb (cid client) (pid q)) (values s) with
                   | Some clientParticipant =>
                       if existsb (fun q => jsstring_eqb (pid q) (pid clientParticipant))
                                  targetParticipants
                       then [Deliver (cid client) f ts] else []
                   | None => []
                   end
              else [])
           (conns s).

(* ------------------------------------------------------------------ *)
(** ** Registry and object updates *)

(** [participants.set(id, p)]: a key that is present keeps its place, a
    new key goes last.  The value is always the object of the connection
    [id], so only the key sequence changes. *)
Definition registrySet (i : jsstring) (s : Server) : Server :=
  mkServer (conns s)
           (if existsb (jsstring_eqb i) (participants s)
            then participants s else participants s ++ [i]).

(** [participants.delete(id)] *)
Definition registryDelete (i : jsstring) (s : Server) : Server :=
  mkServer (conns s) (filter (fun k => negb (jsstring_eqb i k)) (participants s)).

(** [participants.get(id)] *)
Definition registryGet (i : jsstring) (s : Server) : option Participant :=
  if existsb (jsstring_eqb i) (participants s)
  then option_map p (findConn i s) else None.

(** Write the connection record back after a mutation of the socket, of
    the closure variables or of the object [p]. *)
Definition putConn (ws : Conn) (s : Server) : Server :=
  mkServer (map (fun c => if jsstring_eqb (cid c) (cid ws) then ws else c) (conns s))
           (participants s).

Definition setLastSeen (t : Z) (q : Participant) : Participant :=
  mkParticipant (pid q) (pname q) (px q) (py q) (pcolor q) t.

Definition setName (nm : jsstring) (q : Participant) : Participant :=
  mkParticipant (pid q) nm (px q) (py q) (pcolor q) (plastSeen q).

Definition setPos (x y : Z) (q : Participant) : Participant :=
  mkParticipant (pid q) (pname q) x y (pcolor q) (plastSeen q).

Definition withP (q : Participant) (ws : Conn) : Conn :=
  mkConn (cid ws) (readyState ws) (isAlive ws) (lastMoveAt ws) (lastChatAt ws) q.

Definition withReadyState (r : ReadyState) (ws : Conn) : Conn :=
  mkConn (cid ws) r (isAlive ws) (lastMoveAt ws) (lastChatAt ws) (p ws).

Definition withIsAlive (b : bool) (ws : Conn) : Conn :=
  mkConn (cid ws) (readyState ws) b (lastMoveAt ws) (lastChatAt ws) (p ws).

Definition withLastMoveAt (t : Z) (ws : Conn) : Conn :=
  mkConn (cid ws) (readyState ws) (isAlive ws) t (lastChatAt ws) (p ws).

Definition withLastChatAt (t : Z) (ws : Conn) : Conn :=
  mkConn (cid ws) (readyState ws) (isAlive ws) (lastMoveAt ws) t (p ws).

(** [p.lastSeen = now(); ws.isAlive = true;] *)
Definition touch (t : Z) (ws : Conn) : Conn :=
  withIsAlive true (withP (setLastSeen t (p ws)) ws).

(* ------------------------------------------------------------------ *)
(** ** WebSocket lifecycle *)

(** [wss.on("connection")].  [i] is the result of [makeId()], [rx], [ry]
    and [rc] are the draws of [Math.random()], [t] is [now()]. *)
Definition onConnection (s : Server) (i : jsstring) (rx ry rc : Q) (t : Z)
  : Server * list Out :=
  let spawn := randomSpawn rx ry in
  let q := mkParticipant i (lit "Guest-" ++ slice0 5 i) (fst spawn) (snd spawn)
                         (randomColor rc) t in
  let ws := mkConn i OPEN true 0 0 q in
  let s1 := registrySet i (mkServer (conns s ++ [ws]) (participants s)) in
  (s1,
   send ws (FWelcome i ROOM_width ROOM_height) t
   ++ send ws (FState (snapshot s1)) t
   ++ broadcast s1 (FJoined (toClientParticipant q)) t (Some i)).

(** The [switch (type)] of the message handler, entered after
    [p.lastSeen] and [ws.isAlive] were updated; [ws] is the socket of the
    closure and [s] already holds it. *)
Definition dispatch (s : Server) (ws : Conn) (data : Inbound) (t : Z)
  : Server * list Out :=
  let i := cid ws in
  match data with
  | Join raw =>
      let name := trim raw in
      if isEmpty name then (s, [])
      else
        let ws1 := withP (setName (slice0 MAX_NAME_LENGTH name) (p ws)) ws in
        let s1 := registrySet i (putConn ws1 s) in
        (s1,
         send ws1 (FState (snapshot s1)) t
         ++ broadcast s1 (FRenamed i (pname (p ws1))) t (Some i))
  | Move nx ny =>
      if t - lastMoveAt ws <? MOVE_RATE_LIMIT_MS then (s, [])
      else
        let ws1 := withLastMoveAt t ws in
        let s1 := putConn ws1 s in
        match nx, ny with
        | Finite qx, Finite qy =>
            let x := clamp (Math_round qx) 0 ROOM_width in
            let y := clamp (Math_round qy) 0 ROOM_height in
            if (x =? px (p ws1)) && (y =? py (p ws1)) then (s1, [])
            else
              let ws2 := withP (setPos x y (p ws1)) ws1 in
              let s2 := registrySet i (putConn ws2 s1) in
              (s2,
               broadcast s2 (FMoved i x y) t (Some i)
               ++ sendProximity s2 ws2 (p ws2) t)
        | _, _ => (s1, [])
        end
  | Rename raw =>
      let name := trim raw in
      if isEmpty name then (s, [])
      else
        let newName := slice0 MAX_NAME_LENGTH name in
        if negb (jsstring_eqb newName (pname (p ws))) then
          let ws1 := withP (setName newName (p ws)) ws in
          let s1 := registrySet i (putConn ws1 s) in
          (s1, broadcast s1 (FRenamed i (pname (p ws1))) t None)
        else (s, [])
  | Ping => (s, send ws FPong t)
  | Chat message =>
      if t - lastChatAt ws <? CHAT_RATE_LIMIT_MS then (s, [])
      else
        let ws1 := withLastChatAt t ws in
        let s1 := putConn ws1 s in
        match message with
        | None => (s1, [])
        | Some rawMessage =>
            if isEmpty rawMessage then (s1, [])
            else
              let sanitizedMessage := sanitizeMessage rawMessage in
              if isEmpty sanitizedMessage then (s1, [])
              else
                match registryGet i s1 with
                | None => (s1, [])
                | Some sender =>
                    let nearbyParticipants := getProximityParticipants s1 sender in
                    if Nat.eqb (List.length nearbyParticipants) 0
                    then (s1, send ws1 (FChatError (lit "No one nearby to chat with")) t)
                    else
                      (s1,
                       sendToParticipants s1
                         (FChat (pid sender) (pname sender) sanitizedMessage t) t
                         (sender :: nearbyParticipants) None)
                end
        end
  | Unknown => (s, [])
  | Malformed => (s, [])
  end.

(** [ws.on("message")] of the connection [i]. *)
Definition onMessage (s : Server) (i : jsstring) (data : Inbound) (t : Z)
  : Server * list Out :=
  match findConn i s with
  | None => (s, [])
  | Some ws0 =>
      match data with
      | Malformed => (s, [])
      | _ => let ws := touch t ws0 in dispatch (putConn ws s) ws data t
      end
  end.

(** [ws.on("pong")] *)
Definition onPong (s : Server) (i : jsstring) (t : Z) : Server * list Out :=
  match findConn i s with
  | None => (s, [])
  | Some ws0 => (putConn (touch t ws0) s, [])
  end.

(** [ws.on("close")].  The socket is [CLOSED] and out of [wss.clients]
    when the handler runs. *)
Definition onClose (s : Server) (i : jsstring) (t : Z) : Server * list Out :=
  match findConn i s with
  | None => (s, [])
  | Some ws0 =>
      let s1 := registryDelete i (putConn (withReadyState CLOSED ws0) s) in
      (s1, broadcast s1 (FLeft i) t None)
  end.

(** [ws.on("error")] *)
Definition onError (s : Server) (i : jsstring) : Server * list Out := (s, []).

(* ------------------------------------------------------------------ *)
(** ** Heartbeat *)

(** The body of [wss.clients.forEach]: a socket whose [isAlive] is
    [false] is terminated, which leaves it [CLOSING] until its close
    event; any other socket is marked not alive and [ws.ping()] is
    called on it, whatever its [readyState].  [ws.ping()] does not throw
    on an accepted socket, so the [catch] branch is not taken. *)
Definition heartbeatClient (ws : Conn) : Conn * list Out :=
  match readyState ws with
  | CLOSED => (ws, [])
  | _ =>
      if negb (isAlive ws) then (withReadyState CLOSING ws, [])
      else (withIsAlive false ws, [Probe (cid ws)])
  end.

Definition heartbeatClients (s : Server) : Server * list Out :=
  (mkServer (map (fun ws => fst (heartbeatClient ws)) (conns s)) (participants s),
   flat_map (fun ws => snd (heartbeatClient ws)) (conns s)).

(** The loop over [participants] that evicts the entries whose [lastSeen]
    is older than [cutoff]; [ks] are the keys still to visit. *)
Fixpoint sweep (cutoff t : Z) (ks : list jsstring) (s : Server) : Server * list Out :=
  match ks with
  | [] => (s, [])
  | k :: r =>
      match findConn k s with
      | Some c =>
          if plastSeen (p c) <? cutoff then
            let s1 := registryDelete k s in
            let (s2, o) := sweep cutoff t r s1 in
            (s2, broadcast s1 (FLeft k) t None ++ o)
          else sweep cutoff t r s
      | None => sweep cutoff t r s
      end
  end.

(** One run of the [setInterval] callback. *)
Definition heartbeat (s : Server) (t : Z) : Server * list Out :=
  let (s1, o1) := heartbeatClients s in
  let (s2, o2) := sweep (t - CONNECTION_TTL_MS) t (participants s1) s1 in
  (s2, o1 ++ o2).

(* ------------------------------------------------------------------ *)
(** ** The server as a transition system *)

(** The events of the process.  [t] is the value of [now()]; a handler
    is taken to read the same clock value throughout.  Sockets are told
    apart by the id of their closure. *)
Inductive Event : Type :=
| Connection (i : jsstring) (rx ry rc : Q) (t : Z)
| Message (i : jsstring) (data : Inbound) (t : Z)
| Pong (i : jsstring) (t : Z)
| Close (i : jsstring) (t : Z)
| Error (i : jsstring)
| Heartbeat (t : Z).

Definition step (s : Server) (e : Event) : Server * list Out :=
  match e with
  | Connection i rx ry rc t => onConnection s i rx ry rc t
  | Message i data t => onMessage s i data t
  | Pong i t => onPong s i t
  | Close i t => onClose s i t
  | Error i => onError s i
  | Heartbeat t => heartbeat s t
  end.

Fixpoint run (s : Server) (evs : list Event) : Server * list Out :=
  match evs with
  | [] => (s, [])
  | e :: r =>
      let (s1, o1) := step s e in
      let (s2, o2) := run s1 r in
      (s2, o1 ++ o2)
  end.

(** What the environment guarantees about an event: [makeId] returns an
    id no socket ever had, [Math.random] returns a number in [0, 1), and a
    socket emits events only between its acceptance and its close. *)
Definition live (i : jsstring) (s : Server) : Prop :=
  exists ws, findConn i s = Some ws /\ readyState ws <> CLOSED.

Definition admissible (s : Server) (e : Event) : Prop :=
  match e with
  | Connection i rx ry rc t =>
      findConn i s = None
      /\ (0 <= rx /\ rx < 1)%Q /\ (0 <= ry /\ ry < 1)%Q /\ (0 <= rc /\ rc < 1)%Q
  | Message i _ _ => live i s
  | Pong i _ => live i s
  | Close i _ => live i s
  | Error i => live i s
  | Heartbeat _ => True
  end.

Inductive reachable : Server -> Prop :=
| reachable_initial : reachable initial
| reachable_step s e :
    reachable s -> admissible s e -> reachable (fst (step s e)).

(** A sequence of events each admissible where it happens. *)
Fixpoint admissibleFrom (s : Server) (evs : list Event) : Prop :=
  match evs with
  | [] => True
  | e :: r => admissible s e /\ admissibleFrom (fst (step s e)) r
  end.

(** A boolean test of [admissible], to run on concrete traces. *)
Definition liveb (i : jsstring) (s : Server) : bool :=
  match findConn i s with
  | Some ws => match readyState ws with CLOSED => false | _ => true end
  | None => false
  end.

Definition unitb (r : Q) : bool := Qle_bool 0 r && negb (Qle_bool 1 r).

Definition admissibleb (s : Server) (e : Event) : bool :=
  match e with
  | Connection i rx ry rc t =>
      match findConn i s with
      | None => unitb rx && unitb ry && unitb rc
      | Some _ => false
      end
  | Message i _ _ => liveb i s
  | Pong i _ => liveb i s
  | Close i _ => liveb i s
  | Error i => liveb i s
  | Heartbeat _ => true
  end.

Fixpoint admissibleFromb (s : Server) (evs : list Event) : bool :=
  match evs with
  | [] => true
  | e :: r => admissibleb s e && admissibleFromb (fst (step s e)) r
  end.

(** The number of [left {i}] frames handed to the socket [k]. *)
Definition isLeftTo (i k : jsstring) (o : Out) : bool :=
  match o with
  | Deliver k' (FLeft j) _ => jsstring_eqb k' k && jsstring_eqb j i
  | _ => false
  end.

Definition countLeft (i k : jsstring) (o : list Out) : nat :=
  List.length (filter (isLeftTo i k) o).

(** The sockets that received a frame satisfying [sel]. *)
Definition recipients (sel : Frame -> bool) (o : list Out) : list jsstring :=
  flat_map (fun x => match x with
                     | Deliver k f _ => if sel f then [k] else []
                     | Probe _ => []
                     end) o.

Definition isRenamed (f : Frame) : bool :=
  match f with FRenamed _ _ => true | _ => false end.

Definition isState (f : Frame) : bool :=
  match f with FState _ => true | _ => false end.

Definition isOpenConn (k : jsstring) (s : Server) : Prop :=
  exists c, In c (conns s) /\ cid c = k /\ readyState c = OPEN.

(** The socket [k] is in [wss.clients] with [readyState] [OPEN]. *)
Definition openb (k : jsstring) (s : Server) : bool :=
  existsb (fun c => jsstring_eqb (cid c) k && isOpen (readyState c)) (conns s).

(** The socket [i] has emitted its close event. *)
Definition closed (i : jsstring) (s : Server) : Prop :=
  exists ws, findConn i s = Some ws /\ readyState ws = CLOSED.

(** The socket an output is handed to. *)
Definition target (o : Out) : jsstring :=
  match o with
  | Deliver k _ _ => k
  | Probe k => k
  end.

(** The participant of [k] is in the registry with a [lastSeen] older
    than [cutoff]. *)
Definition stale (cutoff : Z) (k : jsstring) (s : Server) : Prop :=
  exists c, findConn k s = Some c /\ plastSeen (p c) < cutoff.

(** What may happen on the way from a [move] of the connection [i] that
    passed the gate at [t1]: anything, as long as every further [move]
    frame of [i] arrives less than [MOVE_RATE_LIMIT_MS] after [t1]. *)
Definition moveWithin (i : jsstring) (t1 : Z) (e : Event) : Prop :=
  match e with
  | Message j (Move _ _) t => j = i -> t - t1 < MOVE_RATE_LIMIT_MS
  | _ => True
  end.

(** The same for [chat] and [CHAT_RATE_LIMIT_MS]. *)
Definition chatWithin (i : jsstring) (t1 : Z) (e : Event) : Prop :=
  match e with
  | Message j (Chat _) t => j = i -> t - t1 < CHAT_RATE_LIMIT_MS
  | _ => True
  end.

(** The invariant of the reachable states. *)
Definition connOk (c : Conn) : Prop :=
  pid (p c) = cid c
  /\ (List.length (pname (p c)) <= MAX_NAME_LENGTH)%nat
  /\ 0 <= px (p c) <= ROOM_width
  /\ 0 <= py (p c) <= ROOM_height.

Definition Inv (s : Server) : Prop :=
  NoDup (map cid (conns s))
  /\ Forall connOk (conns s)
  /\ NoDup (participants s)
  /\ incl (participants s) (map cid (conns s)).

(* ------------------------------------------------------------------ *)
(** ** Sample sessions *)

Definition idA : jsstring := lit "a3f1c2d4-5e6f-4a7b-8c9d-000000000001".
Definition idB : jsstring := lit "b7e2d3c5-1f2a-4b3c-9d4e-000000000002".
Definition idC : jsstring := lit "c9a8b7c6-2d3e-4f5a-8b6c-000000000003".

(** A spawns at (100, 100) and B at (250, 100), both at time 0. *)
Definition sessionAB : list Event :=
  [Connection idA (1 # 16) (1 # 9) (1 # 2) 0;
   Connection idB (5 # 32) (1 # 9) (1 # 4) 0].

(** C joins them at (1000, 100), out of the radius of both. *)
Definition sessionABC : list Event :=
  sessionAB ++ [Connection idC (5 # 8) (1 # 9) (3 # 4) 0].

Definition stateAB : Server := fst (run initial sessionAB).
Definition stateABC : Server := fst (run initial sessionABC).

(** The object [p] of the connection [i], with a default for an id
    without a connection. *)
Definition participantOf (i : jsstring) (s : Server) : Participant :=
  match findConn i s with
  | Some ws => p ws
  | None => mkParticipant i [] 0 0 0 0
  end.

(** The connection record of [i], with a default for an id without a
    connection. *)
Definition connOf (i : jsstring) (s : Server) : Conn :=
  match findConn i s with
  | Some ws => ws
  | None => mkConn i CLOSED false 0 0 (mkParticipant i [] 0 0 0 0)
  end.

(** B answers the pings, A does not: the second heartbeat, one
    millisecond late, terminates the socket of A and its sweep finds A
    stale; the close event of the terminated socket follows. *)
Definition sessionStaleThenClose : list Event :=
  sessionAB ++
  [Heartbeat 15000; Pong idB 15001; Heartbeat 30001; Close idA 30002].

(* ================================================================== *)
(** * Properties *)

(** ** Strings *)

Lemma jsstring_eqb_eq (a b : jsstring) : jsstring_eqb a b = true <-> a = b.
Proof.
  revert b; induction a as [|c a IH]; intros [|d b]; simpl; split; intro H;
    try reflexivity; try discriminate.
  - apply andb_true_iff in H as [H1 H2].
    apply N.eqb_eq in H1. apply IH in H2. now subst.
  - injection H as -> ->. rewrite N.eqb_refl. simpl. now apply IH.
Qed.

Lemma jsstring_eqb_refl (a : jsstring) : jsstring_eqb a a = true.
Proof. now apply jsstring_eqb_eq. Qed.

Lemma jsstring_eqb_neq (a b : jsstring) : jsstring_eqb a b = false <-> a <> b.
Proof.
  split.
  - intros H E. apply jsstring_eqb_eq in E. congruence.
  - intro H. destruct (jsstring_eqb a b) eqn:E; [|reflexivity].
    apply jsstring_eqb_eq in E. contradiction.
Qed.

Lemma jsstring_eqb_sym (a b : jsstring) : jsstring_eqb a b = jsstring_eqb b a.
Proof.
  destruct (jsstring_eqb a b) eqn:E.
  - apply jsstring_eqb_eq in E. subst. now rewrite jsstring_eqb_refl.
  - symmetry. apply jsstring_eqb_neq. apply jsstring_eqb_neq in E. congruence.
Qed.

Lemma isEmpty_true (s : jsstring) : isEmpty s = true <-> s = [].
Proof. destruct s; simpl; split; congruence. Qed.

Lemma isEmpty_false (s : jsstring) : isEmpty s = false <-> s <> [].
Proof. destruct s; simpl; split; congruence. Qed.

Lemma slice0_length (n : nat) (s : jsstring) :
  List.length (slice0 n s) = Nat.min n (List.length s).
Proof. apply length_firstn. Qed.

Lemma existsb_eqb_In (i : jsstring) (l : list jsstring) :
  existsb (jsstring_eqb i) l = true <-> In i l.
Proof.
  rewrite existsb_exists. split.
  - intros (k & Hk & E). apply jsstring_eqb_eq in E. now subst.
  - intro H. exists i. split; [assumption | apply jsstring_eqb_refl].
Qed.

Lemma sanitizeMessage_of_blank (raw : jsstring) :
  trim raw = [] -> sanitizeMessage raw = [].
Proof. intro H. unfold sanitizeMessage. now rewrite H. Qed.

(* ------------------------------------------------------------------ *)
(** ** Connections and registry *)

Lemma findConn_Some (i : jsstring) (s : Server) (c : Conn) :
  findConn i s = Some c -> In c (conns s) /\ cid c = i.
Proof.
  unfold findConn. intro H. apply find_some in H as [H1 H2].
  split; [assumption | now apply jsstring_eqb_eq].
Qed.

Lemma findConn_None (i : jsstring) (s : Server) :
  findConn i s = None <-> ~ In i (map cid (conns s)).
Proof.
  unfold findConn. split.
  - intros H Hin. apply in_map_iff in Hin as (c & E & Hc).
    pose proof (find_none _ _ H c Hc) as F. simpl in F.
    rewrite E, jsstring_eqb_refl in F. discriminate.
  - intro H. destruct (find _ _) eqn:E; [|reflexivity].
    apply find_some in E as [E1 E2]. apply jsstring_eqb_eq in E2.
    exfalso. apply H. apply in_map_iff. now exists c.
Qed.

Lemma find_unique (l : list Conn) (c : Conn) :
  NoDup (map cid l) -> In c l ->
  find (fun c' => jsstring_eqb (cid c') (cid c)) l = Some c.
Proof.
  induction l as [|d l IH]; simpl; intros ND Hin; [contradiction|].
  inversion ND as [|? ? Hnot ND']; subst.
  destruct Hin as [->|Hin].
  - now rewrite jsstring_eqb_refl.
  - destruct (jsstring_eqb (cid d) (cid c)) eqn:E.
    + apply jsstring_eqb_eq in E. exfalso. apply Hnot. rewrite E.
      now apply in_map.
    + now apply IH.
Qed.

Lemma findConn_unique (s : Server) (c : Conn) :
  NoDup (map cid (conns s)) -> In c (conns s) -> findConn (cid c) s = Some c.
Proof. apply find_unique. Qed.

Lemma putConn_cids (ws : Conn) (s : Server) :
  map cid (conns (putConn ws s)) = map cid (conns s).
Proof.
  unfold putConn; simpl. rewrite map_map. apply map_ext_in. intros c _.
  destruct (jsstring_eqb (cid c) (cid ws)) eqn:E; [|reflexivity].
  now apply jsstring_eqb_eq in E.
Qed.

Lemma putConn_participants (ws : Conn) (s : Server) :
  participants (putConn ws s) = participants s.
Proof. reflexivity. Qed.

Lemma find_map_put (ws : Conn) (i : jsstring) (l : list Conn) :
  find (fun c => jsstring_eqb (cid c) i)
       (map (fun c => if jsstring_eqb (cid c) (cid ws) then ws else c) l)
  = if jsstring_eqb i (cid ws)
    then option_map (fun _ => ws) (find (fun c => jsstring_eqb (cid c) i) l)
    else find (fun c => jsstring_eqb (cid c) i) l.
Proof.
  induction l as [|c l IH]; simpl.
  - now destruct (jsstring_eqb i (cid ws)).
  - destruct (jsstring_eqb (cid c) (cid ws)) eqn:E1.
    + apply jsstring_eqb_eq in E1. rewrite E1.
      rewrite (jsstring_eqb_sym (cid ws) i).
      destruct (jsstring_eqb i (cid ws)) eqn:E2; [reflexivity | exact IH].
    + destruct (jsstring_eqb (cid c) i) eqn:E2.
      * apply jsstring_eqb_eq in E2. subst i.
        now rewrite E1.
      * exact IH.
Qed.

Lemma findConn_putConn (ws : Conn) (i : jsstring) (s : Server) :
  findConn i (putConn ws s)
  = if jsstring_eqb i (cid ws)
    then option_map (fun _ => ws) (findConn i s)
    else findConn i s.
Proof. apply find_map_put. Qed.

Lemma findConn_putConn_same (ws ws0 : Conn) (s : Server) :
  findConn (cid ws) s = Some ws0 -> findConn (cid ws) (putConn ws s) = Some ws.
Proof.
  intro H. rewrite findConn_putConn, jsstring_eqb_refl, H. reflexivity.
Qed.

Lemma findConn_put (ws' ws : Conn) (i : jsstring) (s : Server) :
  findConn i s = Some ws -> cid ws' = i -> findConn i (putConn ws' s) = Some ws'.
Proof.
  intros F <-. now apply (findConn_putConn_same ws' ws).
Qed.

Lemma findConn_putConn_other (ws : Conn) (i : jsstring) (s : Server) :
  i <> cid ws -> findConn i (putConn ws s) = findConn i s.
Proof.
  intro H. rewrite findConn_putConn.
  apply jsstring_eqb_neq in H. now rewrite H.
Qed.

Lemma findConn_registrySet (i k : jsstring) (s : Server) :
  findConn i (registrySet k s) = findConn i s.
Proof. reflexivity. Qed.

Lemma findConn_registryDelete (i k : jsstring) (s : Server) :
  findConn i (registryDelete k s) = findConn i s.
Proof. reflexivity. Qed.

Lemma In_registrySet (i k : jsstring) (s : Server) :
  In k (participants (registrySet i s)) <-> k = i \/ In k (participants s).
Proof.
  unfold registrySet; simpl.
  destruct (existsb (jsstring_eqb i) (participants s)) eqn:E.
  - apply existsb_eqb_In in E. split; [tauto|]. intros [->|H]; assumption.
  - rewrite in_app_iff. simpl. split; intros [H|H]; auto.
    + destruct H as [H|[]]; auto.
Qed.

Lemma In_registryDelete (i k : jsstring) (s : Server) :
  In k (participants (registryDelete i s)) <-> k <> i /\ In k (participants s).
Proof.
  unfold registryDelete; simpl. rewrite filter_In, negb_true_iff, jsstring_eqb_neq.
  split; intros [H1 H2]; split; auto.
Qed.

(* ------------------------------------------------------------------ *)
(** ** The invariant *)

Lemma Inv_mapConns (f : Conn -> Conn) (s : Server) :
  (forall c, cid (f c) = cid c) ->
  (forall c, connOk c -> connOk (f c)) ->
  Inv s -> Inv (mkServer (map f (conns s)) (participants s)).
Proof.
  intros Hc Hk (H1 & H2 & H3 & H4).
  assert (E : map cid (map f (conns s)) = map cid (conns s)).
  { rewrite map_map. apply map_ext. exact Hc. }
  unfold Inv; simpl. rewrite E. repeat split; try assumption.
  apply Forall_map. eapply Forall_impl; [|exact H2]. exact Hk.
Qed.

Lemma Inv_putConn (ws : Conn) (s : Server) :
  connOk ws -> Inv s -> Inv (putConn ws s).
Proof.
  intros Hws (H1 & H2 & H3 & H4). unfold Inv.
  rewrite putConn_cids, putConn_participants. repeat split; try assumption.
  unfold putConn; simpl. apply Forall_map.
  eapply Forall_impl; [|exact H2]. intros c Hc. simpl.
  now destruct (jsstring_eqb (cid c) (cid ws)).
Qed.

Lemma Inv_registrySet (i : jsstring) (s : Server) :
  In i (map cid (conns s)) -> Inv s -> Inv (registrySet i s).
Proof.
  intros Hi (H1 & H2 & H3 & H4). unfold Inv, registrySet; simpl.
  repeat split; try assumption;
    destruct (existsb (jsstring_eqb i) (participants s)) eqn:E; try assumption.
  - assert (~ In i (participants s)) as Hn.
    { intro Hin. apply existsb_eqb_In in Hin. congruence. }
    apply NoDup_app; [assumption | repeat constructor; auto | ].
    intros a Ha [<-|[]]. exact (Hn Ha).
  - intros k Hk. apply in_app_iff in Hk as [Hk|[<-|[]]]; auto.
Qed.

Lemma Inv_registryDelete (i : jsstring) (s : Server) :
  Inv s -> Inv (registryDelete i s).
Proof.
  intros (H1 & H2 & H3 & H4). unfold Inv, registryDelete; simpl.
  repeat split; try assumption.
  - now apply NoDup_filter.
  - intros k Hk. apply filter_In in Hk as [Hk _]. now apply H4.
Qed.

Lemma Inv_connOk (s : Server) (c : Conn) : Inv s -> In c (conns s) -> connOk c.
Proof.
  intros (_ & H & _) Hin. rewrite Forall_forall in H. now apply H.
Qed.

Lemma findConn_connOk (s : Server) (i : jsstring) (c : Conn) :
  Inv s -> findConn i s = Some c -> connOk c.
Proof. intros HI H. apply findConn_Some in H as [H _]. eauto using Inv_connOk. Qed.

Lemma findConn_cid_In (s : Server) (i : jsstring) (c : Conn) :
  findConn i s = Some c -> In i (map cid (conns s)).
Proof.
  intro H. apply findConn_Some in H as [H <-]. now apply in_map.
Qed.

Lemma connOk_touch (t : Z) (c : Conn) : connOk c -> connOk (touch t c).
Proof. exact (fun H => H). Qed.

Lemma connOk_setName (nm : jsstring) (c : Conn) :
  connOk c -> connOk (withP (setName (slice0 MAX_NAME_LENGTH nm) (p c)) c).
Proof.
  intros (H1 & H2 & H3 & H4).
  split; [exact H1 | split; [| split; assumption]].
  change (List.length (slice0 MAX_NAME_LENGTH nm) <= MAX_NAME_LENGTH)%nat.
  rewrite slice0_length. apply Nat.le_min_l.
Qed.

Lemma clamp_bounds (v lo hi : Z) : lo <= hi -> lo <= clamp v lo hi <= hi.
Proof. unfold clamp. lia. Qed.

Lemma connOk_setPos (qx qy : Q) (c : Conn) :
  connOk c ->
  connOk (withP (setPos (clamp (Math_round qx) 0 ROOM_width)
                        (clamp (Math_round qy) 0 ROOM_height) (p c)) c).
Proof.
  intros (H1 & H2 & H3 & H4).
  split; [exact H1 | split; [exact H2 | split]];
    apply clamp_bounds; unfold ROOM_width, ROOM_height; lia.
Qed.

Lemma roundHalfEven_nonneg (a : Z) (b : positive) :
  0 <= a -> 0 <= roundHalfEven a b.
Proof.
  intro Ha. unfold roundHalfEven.
  assert (0 <= a / Z.pos b) by (apply Z.div_pos; lia).
  destruct (2 * (a mod Z.pos b) ?= Z.pos b); [destruct (Z.even _)| |]; lia.
Qed.

Lemma roundHalfEven_le (a : Z) (b : positive) (n : Z) :
  a <= n * Z.pos b -> roundHalfEven a b <= n.
Proof.
  intro Ha. unfold roundHalfEven.
  pose proof (Z.div_mod a (Z.pos b) ltac:(lia)) as E.
  pose proof (Z.mod_pos_bound a (Z.pos b) ltac:(lia)) as B.
  assert (a / Z.pos b <= n) as L by (apply Z.div_le_upper_bound; lia).
  destruct (Z.compare_spec (2 * (a mod Z.pos b)) (Z.pos b)) as [C|C|C].
  - destruct (Z.even _); [exact L | nia].
  - exact L.
  - nia.
Qed.

Lemma floorLog2_le (a : Z) (d : positive) (w : Z) :
  0 < a -> a <= w * Z.pos d -> Z.log2 w <= 50 -> floorLog2 a d <= 52.
Proof.
  intros Ha Hw Hl.
  assert (0 < w) as Hw0 by nia.
  assert (Z.log2 a <= Z.log2 w + Z.log2 (Z.pos d) + 1) as H.
  { eapply Z.le_trans; [apply Z.log2_le_mono; exact Hw|].
    apply Z.log2_mul_above; lia. }
  unfold floorLog2.
  destruct (if 0 <=? _ then _ else _); lia.
Qed.

(** The floor of a double product stays within the bounds of the exact
    product: rounding cannot step over an integer bound. *)
Lemma Math_floor_nearestDouble (q : Q) (w : Z) :
  Z.log2 w <= 50 -> (0 <= q)%Q -> (q <= inject_Z w)%Q ->
  0 <= Math_floor (nearestDouble q) <= w.
Proof.
  intros Hl H0 Hw. destruct q as [n d]. unfold Qle in H0, Hw. simpl in H0, Hw.
  assert (0 <= n) as Hn by lia.
  assert (0 <= w) as Hw0 by nia.
  unfold Math_floor, nearestDouble. cbn [Qnum Qden].
  destruct (Z.abs n =? 0) eqn:E0.
  - change (Qfloor 0) with 0. lia.
  - apply Z.eqb_neq in E0. rewrite (Z.abs_eq n Hn) in *.
    assert (0 < n) as Hn0 by lia.
    pose proof (floorLog2_le n d w Hn0 ltac:(lia) Hl) as He.
    set (e := Z.max (floorLog2 n d - 52) (-1074)).
    assert (e <= 0) as He0 by (unfold e; lia).
    replace (Z.max e 0) with 0 by lia.
    replace (Z.max (- e) 0) with (- e) by lia.
    rewrite Z.pow_0_r, !Z.mul_1_r, Z.sgn_pos, Z.mul_1_l by assumption.
    assert (0 < 2 ^ (- e)) as Hp by (apply Z.pow_pos_nonneg; lia).
    change (Z.to_pos (Z.pos d)) with d.
    set (m := roundHalfEven (n * 2 ^ (- e)) d).
    assert (0 <= m) as Hm0 by (apply roundHalfEven_nonneg; nia).
    assert (m <= w * 2 ^ (- e)) as Hm1 by (apply roundHalfEven_le; nia).
    unfold Qfloor. rewrite Z2Pos.id by assumption. split.
    + apply Z.div_pos; lia.
    + apply Z.div_le_upper_bound; [assumption | nia].
Qed.

Lemma Math_floor_times (r : Q) (w : Z) :
  0 <= w -> Z.log2 w <= 50 -> (0 <= r)%Q -> (r < 1)%Q ->
  0 <= Math_floor (Number_times r (inject_Z w)) <= w.
Proof.
  intros Hw Hl H0 H1. unfold Number_times. apply Math_floor_nearestDouble.
  - exact Hl.
  - apply Qmult_le_0_compat; [assumption|].
    change 0%Q with (inject_Z 0). now rewrite <- Zle_Qle.
  - rewrite <- (Qmult_1_l (inject_Z w)) at 2.
    apply Qmult_le_compat_r; [now apply Qlt_le_weak|].
    change 0%Q with (inject_Z 0). now rewrite <- Zle_Qle.
Qed.

Lemma connOk_spawn (i : jsstring) (rx ry rc : Q) (t : Z) :
  (0 <= rx)%Q -> (rx < 1)%Q -> (0 <= ry)%Q -> (ry < 1)%Q ->
  connOk (mkConn i OPEN true 0 0
            (mkParticipant i (lit "Guest-" ++ slice0 5 i)
               (fst (randomSpawn rx ry)) (snd (randomSpawn rx ry))
               (randomColor rc) t)).
Proof.
  intros Hx0 Hx1 Hy0 Hy1. unfold connOk, randomSpawn.
  cbn [p pid pname px py cid fst snd]. repeat split.
  - rewrite length_app, slice0_length. unfold MAX_NAME_LENGTH.
    change (List.length (lit "Guest-")) with 6%nat. lia.
  - apply Math_floor_times; unfold ROOM_width; auto; try lia.
    vm_compute. discriminate.
  - apply Math_floor_times; unfold ROOM_width; auto; try lia.
    vm_compute. discriminate.
  - apply Math_floor_times; unfold ROOM_height; auto; try lia.
    vm_compute. discriminate.
  - apply Math_floor_times; unfold ROOM_height; auto; try lia.
    vm_compute. discriminate.
Qed.

Lemma Inv_onConnection (s : Server) (i : jsstring) (rx ry rc : Q) (t : Z) :
  Inv s -> admissible s (Connection i rx ry rc t) ->
  Inv (fst (onConnection s i rx ry rc t)).
Proof.
  intros (H1 & H2 & H3 & H4) (Hf & (Hx0 & Hx1) & (Hy0 & Hy1) & _).
  unfold onConnection; simpl fst. apply Inv_registrySet.
  - simpl. rewrite map_app, in_app_iff. right. simpl. now left.
  - unfold Inv; simpl. rewrite map_app. simpl. repeat split; try assumption.
    + apply NoDup_app; [assumption | repeat constructor; auto |].
      intros a Ha [<-|[]]. apply findConn_None in Hf. exact (Hf Ha).
    + apply Forall_app. split; [assumption|]. constructor; [|constructor].
      now apply connOk_spawn.
    + intros k Hk. apply in_app_iff. left. now apply H4.
Qed.

Lemma Inv_dispatch (s : Server) (ws : Conn) (data : Inbound) (t : Z) :
  Inv s -> connOk ws -> In (cid ws) (map cid (conns s)) ->
  Inv (fst (dispatch s ws data t)).
Proof.
  intros HI Hws Hin. unfold dispatch.
  destruct data as [raw|nx ny|raw| |m| |]; simpl; try assumption.
  - destruct (isEmpty (trim raw)); simpl; [assumption|].
    apply Inv_registrySet; [now rewrite putConn_cids|].
    apply Inv_putConn; [|assumption]. now apply connOk_setName.
  - destruct (t - lastMoveAt ws <? MOVE_RATE_LIMIT_MS); simpl; [assumption|].
    assert (Inv (putConn (withLastMoveAt t ws) s)) as HI1
        by (apply Inv_putConn; assumption).
    destruct nx as [| | |qx]; simpl; try assumption.
    destruct ny as [| | |qy]; simpl; try assumption.
    match goal with |- context [if ?b then _ else _] => destruct b end;
      simpl; [assumption|].
    apply Inv_registrySet; [now rewrite !putConn_cids|].
    apply Inv_putConn; [|assumption].
    exact (connOk_setPos qx qy (withLastMoveAt t ws) Hws).
  - destruct (isEmpty (trim raw)); simpl; [assumption|].
    destruct (negb _); simpl; [|assumption].
    apply Inv_registrySet; [now rewrite putConn_cids|].
    apply Inv_putConn; [|assumption]. now apply connOk_setName.
  - destruct (t - lastChatAt ws <? CHAT_RATE_LIMIT_MS); simpl; [assumption|].
    assert (Inv (putConn (withLastChatAt t ws) s)) as HI1
        by (apply Inv_putConn; assumption).
    destruct m as [raw|]; simpl; [|assumption].
    destruct (isEmpty raw); simpl; [assumption|].
    destruct (isEmpty (sanitizeMessage raw)); simpl; [assumption|].
    destruct (registryGet _ _); simpl; [|assumption].
    destruct (Nat.eqb _ 0); simpl; assumption.
Qed.

Lemma Inv_onMessage (s : Server) (i : jsstring) (data : Inbound) (t : Z) :
  Inv s -> Inv (fst (onMessage s i data t)).
Proof.
  intro HI. unfold onMessage. destruct (findConn i s) as [ws0|] eqn:F; [|assumption].
  assert (Inv (fst (dispatch (putConn (touch t ws0) s) (touch t ws0) data t))) as H.
  { apply Inv_dispatch.
    - apply Inv_putConn; [|assumption]. apply connOk_touch.
      eauto using findConn_connOk.
    - apply connOk_touch. eauto using findConn_connOk.
    - rewrite putConn_cids. simpl.
      apply findConn_Some in F as [F <-]. now apply in_map. }
  destruct data; try exact H. assumption.
Qed.

Lemma Inv_onPong (s : Server) (i : jsstring) (t : Z) :
  Inv s -> Inv (fst (onPong s i t)).
Proof.
  intro HI. unfold onPong. destruct (findConn i s) as [ws0|] eqn:F; [|assumption].
  simpl. apply Inv_putConn; [|assumption]. apply connOk_touch.
  eauto using findConn_connOk.
Qed.

Lemma Inv_onClose (s : Server) (i : jsstring) (t : Z) :
  Inv s -> Inv (fst (onClose s i t)).
Proof.
  intro HI. unfold onClose. destruct (findConn i s) as [ws0|] eqn:F; [|assumption].
  simpl. apply Inv_registryDelete. apply Inv_putConn; [|assumption].
  exact (findConn_connOk _ _ _ HI F).
Qed.

Lemma heartbeatClient_cid (ws : Conn) : cid (fst (heartbeatClient ws)) = cid ws.
Proof.
  unfold heartbeatClient. destruct (readyState ws); try reflexivity;
    destruct (negb (isAlive ws)); reflexivity.
Qed.

Lemma heartbeatClient_p (ws : Conn) : p (fst (heartbeatClient ws)) = p ws.
Proof.
  unfold heartbeatClient. destruct (readyState ws); try reflexivity;
    destruct (negb (isAlive ws)); reflexivity.
Qed.

Lemma Inv_heartbeatClients (s : Server) : Inv s -> Inv (fst (heartbeatClients s)).
Proof.
  intro HI. unfold heartbeatClients; simpl. apply Inv_mapConns; [| |assumption].
  - apply heartbeatClient_cid.
  - intros c Hc. unfold connOk.
    now rewrite heartbeatClient_cid, heartbeatClient_p.
Qed.

Lemma Inv_sweep (cutoff t : Z) (ks : list jsstring) (s : Server) :
  Inv s -> Inv (fst (sweep cutoff t ks s)).
Proof.
  revert s. induction ks as [|k r IH]; intros s HI; simpl; [assumption|].
  destruct (findConn k s) as [c|]; [|now apply IH].
  destruct (plastSeen (p c) <? cutoff); [|now apply IH].
  specialize (IH (registryDelete k s) (Inv_registryDelete k s HI)).
  destruct (sweep cutoff t r (registryDelete k s)). exact IH.
Qed.

Lemma Inv_heartbeat (s : Server) (t : Z) : Inv s -> Inv (fst (heartbeat s t)).
Proof.
  intro HI. unfold heartbeat.
  pose proof (Inv_heartbeatClients s HI) as H1.
  destruct (heartbeatClients s) as [s1 o1]. simpl in H1.
  pose proof (Inv_sweep (t - CONNECTION_TTL_MS) t (participants s1) s1 H1) as H2.
  destruct (sweep _ _ _ _) as [s2 o2]. exact H2.
Qed.

Lemma Inv_step (s : Server) (e : Event) :
  Inv s -> admissible s e -> Inv (fst (step s e)).
Proof.
  intros HI Ha. destruct e; simpl.
  - now apply Inv_onConnection.
  - now apply Inv_onMessage.
  - now apply Inv_onPong.
  - now apply Inv_onClose.
  - assumption.
  - now apply Inv_heartbeat.
Qed.

Lemma Inv_initial : Inv initial.
Proof. repeat split; try constructor. intros k []. Qed.

Lemma reachable_Inv (s : Server) : reachable s -> Inv s.
Proof.
  induction 1 as [|s e _ IH Ha]; [apply Inv_initial | now apply Inv_step].
Qed.

Lemma run_Inv (evs : list Event) (s : Server) :
  Inv s -> admissibleFrom s evs -> Inv (fst (run s evs)).
Proof.
  revert s. induction evs as [|e r IH]; intros s HI Ha; simpl; [assumption|].
  destruct Ha as [Ha Hr]. pose proof (Inv_step s e HI Ha) as H1.
  specialize (IH (fst (step s e)) H1 Hr).
  destruct (step s e) as [s1 o1]. simpl in *.
  destruct (run s1 r) as [s2 o2]. exact IH.
Qed.

Lemma run_reachable (evs : list Event) (s : Server) :
  reachable s -> admissibleFrom s evs -> reachable (fst (run s evs)).
Proof.
  revert s. induction evs as [|e r IH]; intros s HR Ha; simpl; [assumption|].
  destruct Ha as [Ha Hr]. pose proof (reachable_step s e HR Ha) as H1.
  specialize (IH (fst (step s e)) H1 Hr).
  destruct (step s e) as [s1 o1]. simpl in *.
  destruct (run s1 r) as [s2 o2]. exact IH.
Qed.

Lemma liveb_sound (i : jsstring) (s : Server) : liveb i s = true -> live i s.
Proof.
  unfold liveb, live. destruct (findConn i s) as [ws|]; [|discriminate].
  intro H. exists ws. split; [reflexivity|].
  destruct (readyState ws); congruence.
Qed.

Lemma unitb_sound (r : Q) : unitb r = true -> (0 <= r /\ r < 1)%Q.
Proof.
  unfold unitb. intro H. apply andb_true_iff in H as [H1 H2].
  apply Qle_bool_iff in H1. split; [assumption|].
  apply Qnot_le_lt. intro H3. apply Qle_bool_iff in H3.
  rewrite H3 in H2. discriminate.
Qed.

Lemma admissibleb_sound (s : Server) (e : Event) :
  admissibleb s e = true -> admissible s e.
Proof.
  destruct e; simpl; try apply liveb_sound; [|trivial].
  destruct (findConn i s); [discriminate|]. intro H.
  apply andb_true_iff in H as [H H3]. apply andb_true_iff in H as [H1 H2].
  auto using unitb_sound.
Qed.

Lemma admissibleFromb_sound (evs : list Event) (s : Server) :
  admissibleFromb s evs = true -> admissibleFrom s evs.
Proof.
  revert s. induction evs as [|e r IH]; intros s H; simpl in *; [trivial|].
  apply andb_true_iff in H as [H1 H2]. split.
  - now apply admissibleb_sound.
  - now apply IH.
Qed.

(* ------------------------------------------------------------------ *)
(** ** Proximity *)

Lemma In_entries (s : Server) (k : jsstring) (q : Participant) :
  In (k, q) (entries s) <->
  In k (participants s) /\ exists c, findConn k s = Some c /\ q = p c.
Proof.
  unfold entries. rewrite in_flat_map. split.
  - intros (k' & Hk & Hin). destruct (findConn k' s) as [c|] eqn:F; [|destruct Hin].
    destruct Hin as [E|[]]. injection E as -> <-. eauto.
  - intros (Hk & c & F & ->). exists k. split; [assumption|].
    rewrite F. now left.
Qed.

Lemma entries_pid (s : Server) (k : jsstring) (q : Participant) :
  Inv s -> In (k, q) (entries s) -> pid q = k.
Proof.
  intros HI Hin. apply In_entries in Hin as (_ & c & F & ->).
  pose proof (findConn_connOk _ _ _ HI F) as (E & _).
  apply findConn_Some in F as [_ F]. congruence.
Qed.

Lemma within_spec (a b : Participant) :
  within a b = true <->
  (px a - px b) ^ 2 + (py a - py b) ^ 2 <= PROXIMITY_RADIUS ^ 2.
Proof.
  unfold within. rewrite Z.leb_le. cbv zeta.
  rewrite !Z.pow_2_r. reflexivity.
Qed.

Lemma In_calcNearby (s : Server) (a : Participant) (i : jsstring) :
  In i (calcNearby s a) <->
  i <> pid a /\ exists q, In (i, q) (entries s) /\ within a q = true.
Proof.
  unfold calcNearby. rewrite in_flat_map. split.
  - intros ([k q] & He & Hin).
    destruct (jsstring_eqb (pid a) k) eqn:E; [destruct Hin|].
    destruct (within a q) eqn:W; [|destruct Hin].
    destruct Hin as [<-|[]]. apply jsstring_eqb_neq in E.
    split; [congruence | eauto].
  - intros (Hne & q & He & W). exists (i, q). split; [assumption|].
    assert (jsstring_eqb (pid a) i = false) as ->
        by (apply jsstring_eqb_neq; congruence).
    rewrite W. now left.
Qed.

Lemma In_getProximityParticipants (s : Server) (a q : Participant) :
  In q (getProximityParticipants s a) <->
  exists i, i <> pid a /\ In (i, q) (entries s) /\ within a q = true.
Proof.
  unfold getProximityParticipants. rewrite in_flat_map. split.
  - intros ([k q'] & He & Hin).
    destruct (jsstring_eqb (pid a) k) eqn:E; [destruct Hin|].
    destruct (within a q') eqn:W; [|destruct Hin].
    destruct Hin as [<-|[]]. apply jsstring_eqb_neq in E.
    exists k. repeat split; congruence.
  - intros (i & Hne & He & W). exists (i, q). split; [assumption|].
    assert (jsstring_eqb (pid a) i = false) as ->
        by (apply jsstring_eqb_neq; congruence).
    rewrite W. now left.
Qed.

Lemma getProximityParticipants_ids (s : Server) (a : Participant) :
  Inv s -> map pid (getProximityParticipants s a) = calcNearby s a.
Proof.
  intro HI. unfold getProximityParticipants, calcNearby.
  assert (forall e, In e (entries s) -> pid (snd e) = fst e) as H.
  { intros [k q] He. now apply (entries_pid s). }
  induction (entries s) as [|[k q] l IH]; simpl; [reflexivity|].
  rewrite map_app, IH by (intros e He; apply H; now right).
  f_equal. destruct (jsstring_eqb (pid a) k); [reflexivity|].
  destruct (within a q); [|reflexivity]. simpl.
  f_equal. apply (H (k, q)). now left.
Qed.

(** C4.  In every reachable state and for every participant [a], the
    nearby computation ([calcNearby], and [getProximityParticipants] up to
    taking ids) returns exactly the ids of the registry participants [q]
    other than [a] whose squared distance to [a] is at most the square of
    the proximity radius; the id of [a] itself is never in the result. *)
Theorem nearby_is_exactly_the_others_within_radius
    (s : Server) (a : Participant) (i : jsstring) :
  reachable s ->
  (In i (calcNearby s a) <->
   exists q, In q (values s) /\ pid q = i /\ pid q <> pid a
             /\ (px a - px q) ^ 2 + (py a - py q) ^ 2 <= PROXIMITY_RADIUS ^ 2)
  /\ ~ In (pid a) (calcNearby s a)
  /\ map pid (getProximityParticipants s a) = calcNearby s a.
Proof.
  intro HR. pose proof (reachable_Inv s HR) as HI. repeat split.
  - intro H. apply In_calcNearby in H as (Hne & q & He & W).
    exists q. pose proof (entries_pid s i q HI He) as E.
    repeat split.
    + unfold values. apply in_map_iff. now exists (i, q).
    + exact E.
    + congruence.
    + now apply within_spec.
  - intros (q & Hv & E & Hne & D). apply In_calcNearby.
    unfold values in Hv. apply in_map_iff in Hv as ([k q'] & Eq & He).
    simpl in Eq. subst q'. pose proof (entries_pid s k q HI He) as Ek.
    split; [congruence|]. exists q. split; [congruence|].
    now apply within_spec.
  - intro H. apply In_calcNearby in H as [H _]. now apply H.
  - now apply getProximityParticipants_ids.
Qed.

Lemma sessionAB_admissible : admissibleFrom initial sessionAB.
Proof. apply admissibleFromb_sound. vm_compute. reflexivity. Qed.

Lemma sessionABC_admissible : admissibleFrom initial sessionABC.
Proof. apply admissibleFromb_sound. vm_compute. reflexivity. Qed.

Lemma stateAB_reachable : reachable stateAB.
Proof. apply run_reachable; [constructor | apply sessionAB_admissible]. Qed.

Lemma stateABC_reachable : reachable stateABC.
Proof. apply run_reachable; [constructor | apply sessionABC_admissible]. Qed.

Lemma nearby_is_exactly_the_others_within_radius_witness :
  reachable stateAB
  /\ ~ In idA (calcNearby stateAB (participantOf idA stateAB))
  /\ map pid (getProximityParticipants stateAB (participantOf idA stateAB))
     = calcNearby stateAB (participantOf idA stateAB).
Proof.
  split; [exact stateAB_reachable|].
  exact (proj2 (nearby_is_exactly_the_others_within_radius
                  stateAB (participantOf idA stateAB) idB stateAB_reachable)).
Defined.

(** The example of the specification: with A at (100, 100) and B at
    (250, 100), B is nearby A; C at (1000, 100) is not. *)
Example nearby_example :
  calcNearby stateABC (participantOf idA stateABC) = [idB].
Proof. vm_compute. reflexivity. Qed.

(* ------------------------------------------------------------------ *)
(** ** The message handler, case by case *)

Lemma putConn_putConn (ws1 ws : Conn) (s : Server) :
  cid ws1 = cid ws -> putConn ws1 (putConn ws s) = putConn ws1 s.
Proof.
  intro E. unfold putConn; simpl. f_equal. rewrite map_map.
  apply map_ext. intro c. rewrite E.
  destruct (jsstring_eqb (cid c) (cid ws)) eqn:F; [|now rewrite F].
  now rewrite jsstring_eqb_refl.
Qed.

Lemma onMessage_dispatch (s : Server) (i : jsstring) (ws0 : Conn)
    (data : Inbound) (t : Z) :
  findConn i s = Some ws0 -> data <> Malformed ->
  onMessage s i data t
  = dispatch (putConn (touch t ws0) s) (touch t ws0) data t.
Proof.
  intros F Hd. unfold onMessage. rewrite F. now destruct data.
Qed.

Lemma gate_closed (t last limit : Z) :
  t - last < limit -> (t - last <? limit) = true.
Proof. intro H. now apply Z.ltb_lt. Qed.

Lemma gate_open (t last limit : Z) :
  limit <= t - last -> (t - last <? limit) = false.
Proof. intro H. now apply Z.ltb_ge. Qed.

(** A [move] that is stopped by the gate only refreshes liveness. *)
Lemma move_rate_limited (s : Server) (i : jsstring) (ws : Conn)
    (nx ny : JSNumber) (t : Z) :
  findConn i s = Some ws -> t - lastMoveAt ws < MOVE_RATE_LIMIT_MS ->
  onMessage s i (Move nx ny) t = (putConn (touch t ws) s, []).
Proof.
  intros F G. rewrite (onMessage_dispatch s i ws) by (assumption || discriminate).
  unfold dispatch. cbn [lastMoveAt touch withIsAlive withP].
  now rewrite (gate_closed _ _ _ G).
Qed.

Lemma chat_rate_limited (s : Server) (i : jsstring) (ws : Conn)
    (m : option jsstring) (t : Z) :
  findConn i s = Some ws -> t - lastChatAt ws < CHAT_RATE_LIMIT_MS ->
  onMessage s i (Chat m) t = (putConn (touch t ws) s, []).
Proof.
  intros F G. rewrite (onMessage_dispatch s i ws) by (assumption || discriminate).
  unfold dispatch. cbn [lastChatAt touch withIsAlive withP].
  now rewrite (gate_closed _ _ _ G).
Qed.

(** A [move] that passes the gate with a coordinate that is not finite. *)
Lemma move_not_finite (s : Server) (i : jsstring) (ws : Conn)
    (nx ny : JSNumber) (t : Z) :
  findConn i s = Some ws -> MOVE_RATE_LIMIT_MS <= t - lastMoveAt ws ->
  Number_isFinite nx && Number_isFinite ny = false ->
  onMessage s i (Move nx ny) t = (putConn (withLastMoveAt t (touch t ws)) s, []).
Proof.
  intros F G Hn. rewrite (onMessage_dispatch s i ws) by (assumption || discriminate).
  unfold dispatch. cbn [lastMoveAt touch withIsAlive withP].
  rewrite (gate_open _ _ _ G), putConn_putConn by reflexivity.
  destruct nx, ny; try reflexivity; discriminate.
Qed.

(** A [move] that passes the gate with finite coordinates. *)
Lemma move_finite (s : Server) (i : jsstring) (ws : Conn) (qx qy : Q) (t : Z) :
  findConn i s = Some ws -> MOVE_RATE_LIMIT_MS <= t - lastMoveAt ws ->
  let x := clamp (Math_round qx) 0 ROOM_width in
  let y := clamp (Math_round qy) 0 ROOM_height in
  let ws1 := withLastMoveAt t (touch t ws) in
  let ws2 := withP (setPos x y (p ws1)) ws1 in
  let s2 := registrySet i (putConn ws2 s) in
  onMessage s i (Move (Finite qx) (Finite qy)) t
  = if (x =? px (p ws)) && (y =? py (p ws))
    then (putConn ws1 s, [])
    else (s2, broadcast s2 (FMoved i x y) t (Some i)
              ++ sendProximity s2 ws2 (p ws2) t).
Proof.
  intros F G. cbv zeta.
  rewrite (onMessage_dispatch s i ws) by (assumption || discriminate).
  pose proof (proj2 (findConn_Some _ _ _ F)) as Ei.
  unfold dispatch. cbn [lastMoveAt touch withIsAlive withP cid p px py setLastSeen
                        withLastMoveAt].
  rewrite (gate_open _ _ _ G), !putConn_putConn by reflexivity.
  cbn [px py setPos p cid]. rewrite Ei. reflexivity.
Qed.

(** A [chat] that passes the gate but carries no usable text. *)
Lemma chat_without_text (s : Server) (i : jsstring) (ws : Conn)
    (m : option jsstring) (t : Z) :
  findConn i s = Some ws -> CHAT_RATE_LIMIT_MS <= t - lastChatAt ws ->
  match m with Some raw => sanitizeMessage raw = [] | None => True end ->
  onMessage s i (Chat m) t = (putConn (withLastChatAt t (touch t ws)) s, []).
Proof.
  intros F G Hm. rewrite (onMessage_dispatch s i ws) by (assumption || discriminate).
  unfold dispatch. cbn [lastChatAt touch withIsAlive withP].
  rewrite (gate_open _ _ _ G), putConn_putConn by reflexivity.
  destruct m as [raw|]; [|reflexivity].
  destruct (isEmpty raw); [reflexivity|]. now rewrite Hm.
Qed.

(** A [join] or [rename] whose name is blank only refreshes liveness. *)
Lemma join_blank (s : Server) (i : jsstring) (ws : Conn) (raw : jsstring) (t : Z) :
  findConn i s = Some ws -> trim raw = [] ->
  onMessage s i (Join raw) t = (putConn (touch t ws) s, []).
Proof.
  intros F E. rewrite (onMessage_dispatch s i ws) by (assumption || discriminate).
  unfold dispatch. now rewrite E.
Qed.

Lemma rename_blank (s : Server) (i : jsstring) (ws : Conn) (raw : jsstring) (t : Z) :
  findConn i s = Some ws -> trim raw = [] ->
  onMessage s i (Rename raw) t = (putConn (touch t ws) s, []).
Proof.
  intros F E. rewrite (onMessage_dispatch s i ws) by (assumption || discriminate).
  unfold dispatch. now rewrite E.
Qed.

Lemma join_named (s : Server) (i : jsstring) (ws : Conn) (raw : jsstring) (t : Z) :
  findConn i s = Some ws -> trim raw <> [] ->
  let ws1 := withP (setName (slice0 MAX_NAME_LENGTH (trim raw)) (p (touch t ws)))
                   (touch t ws) in
  let s1 := registrySet i (putConn ws1 s) in
  onMessage s i (Join raw) t
  = (s1, send ws1 (FState (snapshot s1)) t
         ++ broadcast s1 (FRenamed i (slice0 MAX_NAME_LENGTH (trim raw))) t (Some i)).
Proof.
  intros F E. cbv zeta.
  rewrite (onMessage_dispatch s i ws) by (assumption || discriminate).
  pose proof (proj2 (findConn_Some _ _ _ F)) as Ei.
  unfold dispatch. apply isEmpty_false in E. rewrite E.
  rewrite putConn_putConn by reflexivity.
  cbn [cid touch withIsAlive withP p pname setName]. rewrite Ei. reflexivity.
Qed.

Lemma rename_named (s : Server) (i : jsstring) (ws : Conn) (raw : jsstring) (t : Z) :
  findConn i s = Some ws -> trim raw <> [] ->
  let newName := slice0 MAX_NAME_LENGTH (trim raw) in
  let ws1 := withP (setName newName (p (touch t ws))) (touch t ws) in
  let s1 := registrySet i (putConn ws1 s) in
  onMessage s i (Rename raw) t
  = if jsstring_eqb newName (pname (p ws))
    then (putConn (touch t ws) s, [])
    else (s1, broadcast s1 (FRenamed i newName) t None).
Proof.
  intros F E. cbv zeta.
  rewrite (onMessage_dispatch s i ws) by (assumption || discriminate).
  pose proof (proj2 (findConn_Some _ _ _ F)) as Ei.
  unfold dispatch. apply isEmpty_false in E. rewrite E.
  rewrite putConn_putConn by reflexivity.
  cbn [cid touch withIsAlive withP p pname setName setLastSeen]. rewrite Ei.
  now destruct (jsstring_eqb _ _).
Qed.

Lemma entries_putConn (ws' ws : Conn) (s : Server) :
  findConn (cid ws') s = Some ws ->
  map (fun e => (fst e, toClientParticipant (snd e))) (entries (putConn ws' s))
  = map (fun e => (fst e, toClientParticipant (snd e)))
        (map (fun e : jsstring * Participant =>
                if jsstring_eqb (fst e) (cid ws') then (fst e, p ws') else e)
             (entries s)).
Proof.
  intro F. unfold entries. rewrite putConn_participants.
  induction (participants s) as [|k r IH]; simpl; [reflexivity|].
  rewrite !map_app, IH. f_equal.
  rewrite findConn_putConn.
  destruct (jsstring_eqb k (cid ws')) eqn:E.
  - apply jsstring_eqb_eq in E. subst k. rewrite F. simpl.
    now rewrite jsstring_eqb_refl.
  - destruct (findConn k s); simpl; [|reflexivity]. now rewrite E.
Qed.

Lemma snapshot_putConn (ws' ws : Conn) (s : Server) :
  findConn (cid ws') s = Some ws ->
  toClientParticipant (p ws') = toClientParticipant (p ws) ->
  snapshot (putConn ws' s) = snapshot s.
Proof.
  intros F E. unfold snapshot, values, entries. rewrite putConn_participants.
  induction (participants s) as [|k r IH]; simpl; [reflexivity|].
  rewrite !map_app, IH. f_equal.
  rewrite findConn_putConn.
  destruct (jsstring_eqb k (cid ws')) eqn:Ek; [|reflexivity].
  apply jsstring_eqb_eq in Ek. subst k. rewrite F. simpl. now rewrite E.
Qed.

Lemma dispatch_findConn_other (s : Server) (ws : Conn) (data : Inbound)
    (t : Z) (i : jsstring) :
  i <> cid ws -> findConn i (fst (dispatch s ws data t)) = findConn i s.
Proof.
  intro Hne. unfold dispatch.
  destruct data as [raw|nx ny|raw| |m| |]; simpl; try reflexivity.
  - destruct (isEmpty (trim raw)); simpl; [reflexivity|].
    now rewrite findConn_registrySet, findConn_putConn_other.
  - destruct (t - lastMoveAt ws <? MOVE_RATE_LIMIT_MS); simpl; [reflexivity|].
    destruct nx as [| | |qx]; simpl; try now rewrite findConn_putConn_other.
    destruct ny as [| | |qy]; simpl; try now rewrite findConn_putConn_other.
    match goal with |- context [if ?b then _ else _] => destruct b end; simpl.
    + now rewrite findConn_putConn_other.
    + now rewrite findConn_registrySet, !findConn_putConn_other.
  - destruct (isEmpty (trim raw)); simpl; [reflexivity|].
    destruct (negb _); simpl; [|reflexivity].
    now rewrite findConn_registrySet, findConn_putConn_other.
  - destruct (t - lastChatAt ws <? CHAT_RATE_LIMIT_MS); simpl; [reflexivity|].
    destruct m as [raw|]; simpl; [|now rewrite findConn_putConn_other].
    destruct (isEmpty raw); simpl; [now rewrite findConn_putConn_other|].
    destruct (isEmpty (sanitizeMessage raw)); simpl;
      [now rewrite findConn_putConn_other|].
    destruct (registryGet _ _); simpl; [|now rewrite findConn_putConn_other].
    destruct (Nat.eqb _ 0); simpl; now rewrite findConn_putConn_other.
Qed.

Lemma onMessage_findConn_other (s : Server) (i j : jsstring) (data : Inbound) (t : Z) :
  i <> j -> findConn i (fst (onMessage s j data t)) = findConn i s.
Proof.
  intro Hne. unfold onMessage. destruct (findConn j s) as [ws0|] eqn:F; [|reflexivity].
  pose proof (proj2 (findConn_Some _ _ _ F)) as Ej.
  assert (findConn i (fst (dispatch (putConn (touch t ws0) s) (touch t ws0) data t))
          = findConn i s) as H.
  { rewrite dispatch_findConn_other by (simpl; congruence).
    apply findConn_putConn_other. simpl. congruence. }
  destruct data; try exact H. reflexivity.
Qed.

Lemma chat_state (s : Server) (i : jsstring) (ws : Conn) (m : option jsstring) (t : Z) :
  findConn i s = Some ws -> CHAT_RATE_LIMIT_MS <= t - lastChatAt ws ->
  fst (onMessage s i (Chat m) t) = putConn (withLastChatAt t (touch t ws)) s.
Proof.
  intros F G. rewrite (onMessage_dispatch s i ws) by (assumption || discriminate).
  unfold dispatch. cbn [lastChatAt touch withIsAlive withP].
  rewrite (gate_open _ _ _ G), putConn_putConn by reflexivity.
  destruct m as [raw|]; [|reflexivity].
  destruct (isEmpty raw); [reflexivity|].
  destruct (isEmpty (sanitizeMessage raw)); [reflexivity|].
  destruct (registryGet _ _); [|reflexivity].
  now destruct (Nat.eqb _ 0).
Qed.

Lemma move_state (s : Server) (i : jsstring) (ws : Conn) (nx ny : JSNumber) (t : Z) :
  findConn i s = Some ws -> MOVE_RATE_LIMIT_MS <= t - lastMoveAt ws ->
  exists ws1,
    findConn i (fst (onMessage s i (Move nx ny) t)) = Some ws1
    /\ lastMoveAt ws1 = t /\ lastChatAt ws1 = lastChatAt ws
    /\ forall qx qy, nx = Finite qx -> ny = Finite qy ->
         px (p ws1) = clamp (Math_round qx) 0 ROOM_width
         /\ py (p ws1) = clamp (Math_round qy) 0 ROOM_height.
Proof.
  intros F G. pose proof (proj2 (findConn_Some _ _ _ F)) as Ei.
  destruct (Number_isFinite nx && Number_isFinite ny) eqn:Hf.
  - destruct nx as [| | |qx]; try discriminate.
    destruct ny as [| | |qy]; try discriminate.
    rewrite (move_finite s i ws qx qy t F G).
    match goal with |- context [if ?b then _ else _] => destruct b eqn:Eb end;
      cbn [fst].
    + exists (withLastMoveAt t (touch t ws)). split.
      * now apply (findConn_put _ ws).
      * split; [reflexivity | split; [reflexivity|]].
        intros ? ? [= <-] [= <-].
        apply andb_true_iff in Eb as [E1 E2].
        apply Z.eqb_eq in E1, E2. simpl. split; congruence.
    + eexists. split.
      * rewrite findConn_registrySet. now apply (findConn_put _ ws).
      * split; [reflexivity | split; [reflexivity|]].
        intros ? ? [= <-] [= <-]. split; reflexivity.
  - rewrite (move_not_finite s i ws nx ny t F G Hf). cbn [fst].
    exists (withLastMoveAt t (touch t ws)). split.
    + now apply (findConn_put _ ws).
    + split; [reflexivity | split; [reflexivity|]].
      intros ? ? -> ->. discriminate.
Qed.

Lemma snapshot_refresh (s : Server) (i : jsstring) (ws ws' : Conn) :
  findConn i s = Some ws -> cid ws' = i -> p ws' = setLastSeen (plastSeen (p ws')) (p ws) ->
  snapshot (putConn ws' s) = snapshot s.
Proof.
  intros F E Hp. apply (snapshot_putConn ws' ws).
  - now rewrite E.
  - now rewrite Hp.
Qed.

Lemma stateAB_connA : findConn idA stateAB = Some (connOf idA stateAB).
Proof. vm_compute. reflexivity. Qed.

(* ------------------------------------------------------------------ *)
(** ** Invalid fields *)

(** C3, as stated, fails: a [move] with a coordinate that is not finite
    and a [chat] with a blank message both pass through the rate-limit
    assignment before they are validated, so the connection's
    [lastMoveAt] (or [lastChatAt]) changes although the frame is dropped. *)
Lemma invalid_frame_consumes_its_gate :
  lastMoveAt (connOf idA stateAB) = 0
  /\ lastMoveAt (connOf idA (fst (onMessage stateAB idA (Move NaN (Finite 3)) 100))) = 100
  /\ lastChatAt (connOf idA stateAB) = 0
  /\ lastChatAt (connOf idA (fst (onMessage stateAB idA (Chat (Some (lit "   "))) 5000)))
     = 5000.
Proof. vm_compute. repeat split. Qed.

(** C3, amended.  A [move] whose x or y is not a finite number and a
    [chat] whose message is empty after trimming send no frame to anyone
    and leave the registry as it was (same keys, same ids, names,
    positions and colours); the state changes only in the record of the
    sender: [lastSeen] and [isAlive] are refreshed and, when the frame
    passed its rate-limit gate, the timestamp of that gate is set to the
    arrival time. *)
Theorem invalid_frame_changes_only_liveness_and_its_gate
    (s : Server) (i : jsstring) (ws : Conn) (t : Z) :
  findConn i s = Some ws ->
  (forall nx ny,
      Number_isFinite nx = false \/ Number_isFinite ny = false ->
      snd (onMessage s i (Move nx ny) t) = []
      /\ snapshot (fst (onMessage s i (Move nx ny) t)) = snapshot s
      /\ fst (onMessage s i (Move nx ny) t)
         = putConn (if t - lastMoveAt ws <? MOVE_RATE_LIMIT_MS
                    then touch t ws else withLastMoveAt t (touch t ws)) s)
  /\ (forall raw,
      trim raw = [] ->
      snd (onMessage s i (Chat (Some raw)) t) = []
      /\ snapshot (fst (onMessage s i (Chat (Some raw)) t)) = snapshot s
      /\ fst (onMessage s i (Chat (Some raw)) t)
         = putConn (if t - lastChatAt ws <? CHAT_RATE_LIMIT_MS
                    then touch t ws else withLastChatAt t (touch t ws)) s).
Proof.
  intro F. pose proof (proj2 (findConn_Some _ _ _ F)) as Ei. split.
  - intros nx ny Hn.
    assert (Number_isFinite nx && Number_isFinite ny = false) as Hf.
    { apply andb_false_iff. exact Hn. }
    destruct (Z.ltb_spec (t - lastMoveAt ws) MOVE_RATE_LIMIT_MS) as [G|G].
    + rewrite (move_rate_limited s i ws nx ny t F G). cbn [fst snd].
      repeat split. now apply (snapshot_refresh s i ws).
    + rewrite (move_not_finite s i ws nx ny t F G Hf). cbn [fst snd].
      repeat split. now apply (snapshot_refresh s i ws).
  - intros raw Hb.
    destruct (Z.ltb_spec (t - lastChatAt ws) CHAT_RATE_LIMIT_MS) as [G|G].
    + rewrite (chat_rate_limited s i ws (Some raw) t F G). cbn [fst snd].
      repeat split. now apply (snapshot_refresh s i ws).
    + rewrite (chat_without_text s i ws (Some raw) t F G)
        by now apply sanitizeMessage_of_blank.
      cbn [fst snd]. repeat split. now apply (snapshot_refresh s i ws).
Qed.

Lemma invalid_frame_changes_only_liveness_and_its_gate_witness :
  findConn idA stateAB = Some (connOf idA stateAB)
  /\ snd (onMessage stateAB idA (Move NaN (Finite 3)) 100) = []
  /\ snapshot (fst (onMessage stateAB idA (Chat (Some (lit "   "))) 5000))
     = snapshot stateAB.
Proof.
  pose proof (invalid_frame_changes_only_liveness_and_its_gate
                stateAB idA (connOf idA stateAB) 100 stateAB_connA) as Hm.
  pose proof (invalid_frame_changes_only_liveness_and_its_gate
                stateAB idA (connOf idA stateAB) 5000 stateAB_connA) as Hc.
  split; [exact stateAB_connA | split].
  - exact (proj1 (proj1 Hm NaN (Finite 3) (or_introl eq_refl))).
  - exact (proj1 (proj2 (proj2 Hc (lit "   ") eq_refl))).
Defined.

(* ------------------------------------------------------------------ *)
(** ** Frames that change nothing *)

(** C10.  A [move] that passes the rate limit with finite coordinates
    whose clamped, rounded position is the stored one produces no frame
    (neither [moved] nor [proximity]) and leaves the registry entry as it
    was but for [lastSeen]; a [rename] whose clamped name is the current
    name produces no frame either. *)
Theorem unchanged_position_or_name_is_silent
    (s : Server) (i : jsstring) (ws : Conn) (t : Z) :
  findConn i s = Some ws ->
  (forall qx qy,
      MOVE_RATE_LIMIT_MS <= t - lastMoveAt ws ->
      clamp (Math_round qx) 0 ROOM_width = px (p ws) ->
      clamp (Math_round qy) 0 ROOM_height = py (p ws) ->
      snd (onMessage s i (Move (Finite qx) (Finite qy)) t) = []
      /\ snapshot (fst (onMessage s i (Move (Finite qx) (Finite qy)) t)) = snapshot s
      /\ fst (onMessage s i (Move (Finite qx) (Finite qy)) t)
         = putConn (withLastMoveAt t (touch t ws)) s)
  /\ (forall raw,
      slice0 MAX_NAME_LENGTH (trim raw) = pname (p ws) ->
      snd (onMessage s i (Rename raw) t) = []
      /\ snapshot (fst (onMessage s i (Rename raw) t)) = snapshot s
      /\ fst (onMessage s i (Rename raw) t) = putConn (touch t ws) s).
Proof.
  intro F. pose proof (proj2 (findConn_Some _ _ _ F)) as Ei. split.
  - intros qx qy G Ex Ey. rewrite (move_finite s i ws qx qy t F G).
    rewrite Ex, Ey, !Z.eqb_refl. cbn [andb fst snd].
    repeat split. now apply (snapshot_refresh s i ws).
  - intros raw E.
    assert (onMessage s i (Rename raw) t = (putConn (touch t ws) s, [])) as ->.
    { destruct (trim raw) as [|c r] eqn:Et.
      - now apply rename_blank.
      - rewrite (rename_named s i ws raw t F) by (rewrite Et; discriminate).
        rewrite Et, E, jsstring_eqb_refl. reflexivity. }
    cbn [fst snd]. repeat split. now apply (snapshot_refresh s i ws).
Qed.

Lemma unchanged_position_or_name_is_silent_witness :
  findConn idA stateAB = Some (connOf idA stateAB)
  /\ snd (onMessage stateAB idA (Move (Finite (1001 # 10)) (Finite (399 # 4))) 50) = []
  /\ snd (onMessage stateAB idA (Rename (lit "  Guest-a3f1c ")) 50) = [].
Proof.
  pose proof (unchanged_position_or_name_is_silent
                stateAB idA (connOf idA stateAB) 50 stateAB_connA) as [Hm Hr].
  split; [exact stateAB_connA | split].
  - refine (proj1 (Hm (1001 # 10) (399 # 4) _ _ _)); vm_compute;
      try reflexivity; discriminate.
  - refine (proj1 (Hr (lit "  Guest-a3f1c ") _)). vm_compute. reflexivity.
Defined.

(* ------------------------------------------------------------------ *)
(** ** Rate limiting *)

(** The second of two moves 11 ms apart leaves A where the first put it. *)
Example rate_limit_example :
  let s1 := fst (onMessage stateAB idA (Move (Finite 300) (Finite 40)) 100) in
  let s2 := fst (onMessage s1 idA (Move (Finite 700) (Finite 80)) 111) in
  (px (participantOf idA s2), py (participantOf idA s2)) = (300, 40).
Proof. vm_compute. reflexivity. Qed.

(* ------------------------------------------------------------------ *)
(** ** Frames and their audience *)

Lemma recipients_app (sel : Frame -> bool) (a b : list Out) :
  recipients sel (a ++ b) = recipients sel a ++ recipients sel b.
Proof. apply flat_map_app. Qed.

Lemma In_recipients (sel : Frame -> bool) (o : list Out) (k : jsstring) :
  In k (recipients sel o) <-> exists f ts, In (Deliver k f ts) o /\ sel f = true.
Proof.
  unfold recipients. rewrite in_flat_map. split.
  - intros ([k' f ts|k'] & Hin & Hk); [|destruct Hk].
    destruct (sel f) eqn:E; [|destruct Hk]. destruct Hk as [<-|[]]. eauto.
  - intros (f & ts & Hin & E). exists (Deliver k f ts).
    split; [assumption|]. rewrite E. now left.
Qed.

Lemma In_broadcast (s : Server) (f f' : Frame) (t ts : Z)
    (ex : option jsstring) (k : jsstring) :
  In (Deliver k f ts) (broadcast s f' t ex) <->
  f = f' /\ ts = t
  /\ exists c, In c (conns s) /\ cid c = k /\ readyState c = OPEN
               /\ isExcept ex c = false.
Proof.
  unfold broadcast. rewrite in_flat_map. split.
  - intros (c & Hc & Hin).
    destruct (isOpen (readyState c)) eqn:Eo; [|destruct Hin].
    destruct (isExcept ex c) eqn:Ee; [destruct Hin|].
    destruct Hin as [E|[]]. injection E as <- <- <-.
    repeat split. exists c. repeat split; try assumption.
    now destruct (readyState c).
  - intros (-> & -> & c & Hc & <- & Eo & Ee). exists c. split; [assumption|].
    rewrite Eo, Ee. now left.
Qed.

Lemma broadcast_no_probe (s : Server) (f : Frame) (t : Z)
    (ex : option jsstring) (k : jsstring) :
  ~ In (Probe k) (broadcast s f t ex).
Proof.
  unfold broadcast. rewrite in_flat_map. intros (c & _ & Hin).
  destruct (isOpen (readyState c) && negb (isExcept ex c));
    [destruct Hin as [E|[]]; discriminate | destruct Hin].
Qed.

Lemma recipients_broadcast_other (sel : Frame -> bool) (s : Server) (f : Frame)
    (t : Z) (ex : option jsstring) :
  sel f = false -> recipients sel (broadcast s f t ex) = [].
Proof.
  intro E. unfold broadcast, recipients.
  induction (conns s) as [|c l IH]; simpl; [reflexivity|].
  rewrite flat_map_app, IH, app_nil_r.
  destruct (isOpen (readyState c) && negb (isExcept ex c)); simpl;
    [now rewrite E | reflexivity].
Qed.

Lemma In_values (s : Server) (q : Participant) :
  In q (values s) -> exists c, In c (conns s) /\ q = p c /\ In (cid c) (participants s).
Proof.
  unfold values. intro H. apply in_map_iff in H as ([k q'] & E & He).
  simpl in E. subst q'. apply In_entries in He as (Hk & c & F & ->).
  apply findConn_Some in F as [Hc <-]. eauto.
Qed.

(* ------------------------------------------------------------------ *)
(** ** Join *)

(** C8, as stated, fails: a [join] without a name, or with a name that is
    blank after trimming, gets no [state] frame (and no frame at all). *)
Lemma join_without_a_name_sends_nothing :
  readyState (connOf idA stateAB) = OPEN
  /\ snd (onMessage stateAB idA (Join []) 50) = []
  /\ snd (onMessage stateAB idA (Join (lit "   ")) 50) = [].
Proof. vm_compute. repeat split. Qed.

(** C8, amended.  For every [join] whose name is not empty after
    trimming, the server sends the full [state] snapshot (taken after the
    name was stored) to the sender and to nobody else; for a [join] whose
    trimmed name is empty it sends nothing. *)
Theorem join_with_a_name_resends_the_state
    (s : Server) (i : jsstring) (ws : Conn) (raw : jsstring) (t : Z) :
  findConn i s = Some ws -> readyState ws = OPEN ->
  (trim raw <> [] ->
     In (Deliver i (FState (snapshot (fst (onMessage s i (Join raw) t)))) t)
        (snd (onMessage s i (Join raw) t))
     /\ recipients isState (snd (onMessage s i (Join raw) t)) = [i]
     /\ In i (participants (fst (onMessage s i (Join raw) t))))
  /\ (trim raw = [] -> snd (onMessage s i (Join raw) t) = []).
Proof.
  intros F Ho. pose proof (proj2 (findConn_Some _ _ _ F)) as Ei. split.
  - intro Hn. rewrite (join_named s i ws raw t F Hn). cbn [fst snd].
    unfold send. cbn [readyState withP touch withIsAlive cid].
    rewrite Ho, Ei. cbn [isOpen]. repeat split.
    + now left.
    + rewrite recipients_app, recipients_broadcast_other by reflexivity.
      reflexivity.
    + apply In_registrySet. now left.
  - intro Hb. now rewrite (join_blank s i ws raw t F Hb).
Qed.

Lemma join_with_a_name_resends_the_state_witness :
  findConn idA stateAB = Some (connOf idA stateAB)
  /\ readyState (connOf idA stateAB) = OPEN
  /\ recipients isState (snd (onMessage stateAB idA (Join (lit " Ada ")) 50)) = [idA]
  /\ snd (onMessage stateAB idA (Join (lit "   ")) 50) = [].
Proof.
  pose proof (join_with_a_name_resends_the_state
                stateAB idA (connOf idA stateAB) (lit " Ada ") 50
                stateAB_connA eq_refl) as [Hn _].
  pose proof (join_with_a_name_resends_the_state
                stateAB idA (connOf idA stateAB) (lit "   ") 50
                stateAB_connA eq_refl) as [_ Hb].
  split; [exact stateAB_connA | split; [reflexivity | split]].
  - refine (proj1 (proj2 (Hn _))). vm_compute. discriminate.
  - apply Hb. vm_compute. reflexivity.
Defined.

(* ------------------------------------------------------------------ *)
(** ** Names *)

Lemma long_name_not_blank (nm : jsstring) :
  (MAX_NAME_LENGTH < List.length nm)%nat -> nm <> [].
Proof. intros H ->. simpl in H. lia. Qed.

Lemma slice0_long (nm : jsstring) :
  (MAX_NAME_LENGTH < List.length nm)%nat ->
  List.length (slice0 MAX_NAME_LENGTH nm) = MAX_NAME_LENGTH.
Proof. intro H. rewrite slice0_length. lia. Qed.

(** C9.  A [join] or [rename] whose trimmed name is longer than the
    maximum stores exactly its first [MAX_NAME_LENGTH] code units, and in
    every reachable state no registry participant has a longer name. *)
Theorem names_are_clamped (s : Server) :
  reachable s ->
  (forall q, In q (values s) -> (List.length (pname q) <= MAX_NAME_LENGTH)%nat)
  /\ (forall i ws raw t,
        findConn i s = Some ws ->
        (MAX_NAME_LENGTH < List.length (trim raw))%nat ->
        (exists ws1,
            findConn i (fst (onMessage s i (Join raw) t)) = Some ws1
            /\ pname (p ws1) = slice0 MAX_NAME_LENGTH (trim raw)
            /\ List.length (pname (p ws1)) = MAX_NAME_LENGTH)
        /\ (exists ws1,
            findConn i (fst (onMessage s i (Rename raw) t)) = Some ws1
            /\ pname (p ws1) = slice0 MAX_NAME_LENGTH (trim raw)
            /\ List.length (pname (p ws1)) = MAX_NAME_LENGTH)).
Proof.
  intro HR. pose proof (reachable_Inv s HR) as HI. split.
  - intros q Hq. apply In_values in Hq as (c & Hc & -> & _).
    now destruct (Inv_connOk s c HI Hc) as (_ & H & _).
  - intros i ws raw t F Hl.
    pose proof (proj2 (findConn_Some _ _ _ F)) as Ei.
    pose proof (long_name_not_blank _ Hl) as Hn.
    pose proof (slice0_long _ Hl) as Hs. split.
    + rewrite (join_named s i ws raw t F Hn). cbn [fst].
      eexists. split; [|split].
      * rewrite findConn_registrySet. now apply (findConn_put _ ws).
      * reflexivity.
      * exact Hs.
    + rewrite (rename_named s i ws raw t F Hn).
      destruct (jsstring_eqb _ _) eqn:E; cbn [fst].
      * apply jsstring_eqb_eq in E. exists (touch t ws). split; [|split].
        -- now apply (findConn_put _ ws).
        -- now rewrite E.
        -- simpl. now rewrite <- E.
      * eexists. split; [|split].
        -- rewrite findConn_registrySet. now apply (findConn_put _ ws).
        -- reflexivity.
        -- exact Hs.
Qed.

Lemma names_are_clamped_witness :
  reachable stateAB
  /\ forall q, In q (values stateAB) -> (List.length (pname q) <= MAX_NAME_LENGTH)%nat.
Proof.
  split; [exact stateAB_reachable|].
  exact (proj1 (names_are_clamped stateAB stateAB_reachable)).
Defined.

(** A name of 40 code units is stored as its first 32. *)
Example name_clamp_example :
  pname (participantOf idA
           (fst (onMessage stateAB idA
                   (Rename (lit "  0123456789012345678901234567890123456789 ")) 50)))
  = lit "01234567890123456789012345678901".
Proof. vm_compute. reflexivity. Qed.

(* ------------------------------------------------------------------ *)
(** ** Positions *)

(** C6.  In every reachable state (the spawn included) every registry
    participant has [0 <= x <= ROOM_width] and [0 <= y <= ROOM_height];
    a [move] that passes the gate with finite coordinates stores the
    rounded coordinates clamped into these bounds.  Positions are
    integers by the construction of [Math_round] and [Math_floor]. *)
Theorem positions_stay_in_the_room (s : Server) :
  reachable s ->
  (forall q, In q (values s) ->
             0 <= px q <= ROOM_width /\ 0 <= py q <= ROOM_height)
  /\ (forall i ws qx qy t,
        findConn i s = Some ws ->
        MOVE_RATE_LIMIT_MS <= t - lastMoveAt ws ->
        exists ws1,
          findConn i (fst (onMessage s i (Move (Finite qx) (Finite qy)) t)) = Some ws1
          /\ px (p ws1) = clamp (Math_round qx) 0 ROOM_width
          /\ py (p ws1) = clamp (Math_round qy) 0 ROOM_height
          /\ 0 <= px (p ws1) <= ROOM_width /\ 0 <= py (p ws1) <= ROOM_height)
  /\ (forall i rx ry rc t,
        admissible s (Connection i rx ry rc t) ->
        exists ws1,
          findConn i (fst (onConnection s i rx ry rc t)) = Some ws1
          /\ 0 <= px (p ws1) <= ROOM_width /\ 0 <= py (p ws1) <= ROOM_height).
Proof.
  intro HR. pose proof (reachable_Inv s HR) as HI. repeat apply conj.
  - intros q Hq. apply In_values in Hq as (c & Hc & -> & _).
    now destruct (Inv_connOk s c HI Hc) as (_ & _ & H).
  - intros i ws qx qy t F G.
    destruct (move_state s i ws (Finite qx) (Finite qy) t F G)
      as (ws1 & F1 & _ & _ & P1).
    destruct (P1 qx qy eq_refl eq_refl) as [Ex Ey].
    exists ws1. rewrite Ex, Ey. repeat apply conj; try assumption; try reflexivity;
      apply clamp_bounds; unfold ROOM_width, ROOM_height; lia.
  - intros i rx ry rc t Ha.
    pose proof (Inv_onConnection s i rx ry rc t HI Ha) as HI1.
    destruct Ha as (Hf & _).
    assert (exists ws1, findConn i (fst (onConnection s i rx ry rc t)) = Some ws1)
      as [ws1 F1].
    { destruct (findConn i (fst (onConnection s i rx ry rc t))) eqn:E; [eauto|].
      exfalso. apply findConn_None in E. apply E.
      unfold onConnection. cbn [fst registrySet conns].
      rewrite map_app, in_app_iff. right. now left. }
    exists ws1. split; [assumption|].
    now destruct (findConn_connOk _ _ _ HI1 F1) as (_ & _ & H).
Qed.

Lemma positions_stay_in_the_room_witness :
  reachable stateAB
  /\ forall q, In q (values stateAB) ->
               0 <= px q <= ROOM_width /\ 0 <= py q <= ROOM_height.
Proof.
  split; [exact stateAB_reachable|].
  exact (proj1 (positions_stay_in_the_room stateAB stateAB_reachable)).
Defined.

(** A request far outside the room is stored on its border, a fractional
    one is rounded. *)
Example move_clamp_example :
  let s1 := fst (onMessage stateAB idA (Move (Finite (-7 # 2)) (Finite 5000)) 100) in
  let s2 := fst (onMessage s1 idA (Move (Finite (5 # 2)) (Finite (-1 # 2))) 200) in
  (px (participantOf idA s1), py (participantOf idA s1),
   px (participantOf idA s2), py (participantOf idA s2)) = (0, 900, 3, 0).
Proof. vm_compute. reflexivity. Qed.

(* ------------------------------------------------------------------ *)
(** ** Renamed *)

Lemma isOpenConn_putConn (ws' ws : Conn) (s : Server) (k : jsstring) :
  NoDup (map cid (conns s)) ->
  findConn (cid ws') s = Some ws -> readyState ws' = readyState ws ->
  isOpenConn k (putConn ws' s) <-> isOpenConn k s.
Proof.
  intros ND F Er. unfold isOpenConn, putConn; simpl. split.
  - intros (c & Hc & Ek & Eo). apply in_map_iff in Hc as (c0 & E & Hc0).
    destruct (jsstring_eqb (cid c0) (cid ws')) eqn:Eb.
    + apply jsstring_eqb_eq in Eb. subst c.
      pose proof (findConn_unique s c0 ND Hc0) as Fu.
      rewrite Eb, F in Fu. injection Fu as ->.
      exists c0. repeat split; congruence.
    + subst c0. eauto.
  - intros (c & Hc & Ek & Eo).
    destruct (jsstring_eqb (cid c) (cid ws')) eqn:Eb.
    + apply jsstring_eqb_eq in Eb.
      pose proof (findConn_unique s c ND Hc) as Fu.
      rewrite Eb, F in Fu. injection Fu as ->.
      exists ws'. repeat split; try congruence.
      apply in_map_iff. exists c. split; [|assumption].
      now rewrite Eb, jsstring_eqb_refl.
    + exists c. repeat split; try assumption.
      apply in_map_iff. exists c. split; [|assumption]. now rewrite Eb.
Qed.

Lemma isOpenConn_registrySet (i k : jsstring) (s : Server) :
  isOpenConn k (registrySet i s) <-> isOpenConn k s.
Proof. reflexivity. Qed.

(** C2, as stated, fails: the audiences are the other way round.  The
    [renamed] frame of a [rename] also goes to the sender, the one of a
    [join] does not. *)
Lemma renamed_audiences_are_swapped :
  recipients isRenamed (snd (onMessage stateAB idA (Rename (lit "Zed")) 50))
  = [idA; idB]
  /\ recipients isRenamed (snd (onMessage stateAB idA (Join (lit "Zed")) 50))
     = [idB].
Proof. vm_compute. split; reflexivity. Qed.

(** C2, amended.  For a [rename] whose trimmed name is not empty and
    whose clamped name differs from the current one, the [renamed] frame
    is delivered to every open connection, the sender included; for a
    [join] whose trimmed name is not empty, the [renamed] frame is
    delivered to every open connection except the sender. *)
Theorem renamed_audience
    (s : Server) (i : jsstring) (ws : Conn) (raw : jsstring) (t : Z) (k : jsstring) :
  reachable s -> findConn i s = Some ws -> trim raw <> [] ->
  (slice0 MAX_NAME_LENGTH (trim raw) <> pname (p ws) ->
     (In (Deliver k (FRenamed i (slice0 MAX_NAME_LENGTH (trim raw))) t)
         (snd (onMessage s i (Rename raw) t))
      <-> isOpenConn k s)
     /\ (In k (recipients isRenamed (snd (onMessage s i (Rename raw) t)))
         <-> isOpenConn k s))
  /\ (In (Deliver k (FRenamed i (slice0 MAX_NAME_LENGTH (trim raw))) t)
         (snd (onMessage s i (Join raw) t))
      <-> isOpenConn k s /\ k <> i)
  /\ (In k (recipients isRenamed (snd (onMessage s i (Join raw) t)))
      <-> isOpenConn k s /\ k <> i).
Proof.
  intros HR F Hn. pose proof (reachable_Inv s HR) as HI.
  pose proof (proj2 (findConn_Some _ _ _ F)) as Ei.
  destruct HI as (ND & _).
  set (newName := slice0 MAX_NAME_LENGTH (trim raw)).
  set (ws1 := withP (setName newName (p (touch t ws))) (touch t ws)).
  assert (forall j, isOpenConn j (registrySet i (putConn ws1 s)) <-> isOpenConn j s)
    as Hopen.
  { intro j. rewrite isOpenConn_registrySet.
    apply (isOpenConn_putConn ws1 ws); [assumption | | reflexivity].
    simpl. now rewrite Ei. }
  assert (forall j ex,
             In (Deliver j (FRenamed i newName) t)
                (broadcast (registrySet i (putConn ws1 s)) (FRenamed i newName) t ex)
             <-> exists c, In c (conns (registrySet i (putConn ws1 s)))
                           /\ cid c = j /\ readyState c = OPEN
                           /\ isExcept ex c = false) as Hb.
  { intros j ex. rewrite In_broadcast. tauto. }
  assert (forall j ex,
             In j (recipients isRenamed
                     (broadcast (registrySet i (putConn ws1 s)) (FRenamed i newName) t ex))
             <-> In (Deliver j (FRenamed i newName) t)
                    (broadcast (registrySet i (putConn ws1 s)) (FRenamed i newName) t ex))
    as Hrec.
  { intros j ex. rewrite In_recipients. split.
    - intros (f & ts & Hin & _). pose proof Hin as Hin'.
      apply In_broadcast in Hin' as (-> & -> & _). exact Hin.
    - intro Hin. exists (FRenamed i newName), t. now split. }
  split; [|split].
  - intro Hd. rewrite (rename_named s i ws raw t F Hn). fold newName ws1.
    apply jsstring_eqb_neq in Hd. fold newName in Hd. rewrite Hd. cbn [snd].
    rewrite Hrec, Hb, <- (Hopen k). unfold isOpenConn, isExcept.
    split; split; intros (c & H1 & H2 & H3 & _) || intros (c & H1 & H2 & H3);
      exists c; auto.
  - rewrite (join_named s i ws raw t F Hn). fold newName ws1. cbn [snd].
    rewrite in_app_iff, Hb, <- (Hopen k). unfold isOpenConn, isExcept. split.
    + intros [Hs|(c & H1 & H2 & H3 & H4)].
      * unfold send in Hs. destruct (isOpen _); [|destruct Hs].
        destruct Hs as [E|[]]. discriminate.
      * apply jsstring_eqb_neq in H4. split; [eauto | congruence].
    + intros [(c & H1 & H2 & H3) Hne]. right. exists c.
      repeat split; try assumption. apply jsstring_eqb_neq. congruence.
  - rewrite (join_named s i ws raw t F Hn). fold newName ws1. cbn [snd].
    rewrite recipients_app, in_app_iff, Hrec, Hb, <- (Hopen k).
    unfold isOpenConn, isExcept. split.
    + intros [Hs|(c & H1 & H2 & H3 & H4)].
      * unfold send in Hs. destruct (isOpen _); [|destruct Hs].
        destruct Hs.
      * apply jsstring_eqb_neq in H4. split; [eauto | congruence].
    + intros [(c & H1 & H2 & H3) Hne]. right. exists c.
      repeat split; try assumption. apply jsstring_eqb_neq. congruence.
Qed.

Lemma renamed_audience_witness :
  reachable stateAB
  /\ findConn idA stateAB = Some (connOf idA stateAB)
  /\ (In idA (recipients isRenamed (snd (onMessage stateAB idA (Rename (lit " Zed ")) 50)))
      <-> isOpenConn idA stateAB)
  /\ (In idB (recipients isRenamed (snd (onMessage stateAB idA (Join (lit " Zed ")) 50)))
      <-> isOpenConn idB stateAB /\ idB <> idA).
Proof.
  split; [exact stateAB_reachable | split; [exact stateAB_connA | split]].
  - refine (proj2 (proj1 (renamed_audience stateAB idA (connOf idA stateAB)
                            (lit " Zed ") 50 idA stateAB_reachable stateAB_connA _) _));
      vm_compute; discriminate.
  - refine (proj2 (proj2 (renamed_audience stateAB idA (connOf idA stateAB)
                            (lit " Zed ") 50 idB stateAB_reachable stateAB_connA _)));
      vm_compute; discriminate.
Defined.

(* ------------------------------------------------------------------ *)
(** ** Chat *)

Lemma calcNearby_refresh (s : Server) (i : jsstring) (ws ws' : Conn) :
  findConn i s = Some ws -> cid ws' = i -> pid (p ws) = i ->
  p ws' = setLastSeen (plastSeen (p ws')) (p ws) ->
  calcNearby (putConn ws' s) (p ws') = calcNearby s (p ws).
Proof.
  intros F E Ep Hp. unfold calcNearby, entries. rewrite putConn_participants.
  induction (participants s) as [|k r IH]; simpl; [reflexivity|].
  rewrite !flat_map_app, IH. f_equal.
  rewrite findConn_putConn, E.
  assert (pid (p ws') = i) as Ep' by (rewrite Hp; exact Ep).
  destruct (jsstring_eqb k i) eqn:Ek.
  - apply jsstring_eqb_eq in Ek. subst k. rewrite F. simpl.
    now rewrite Ep, Ep', jsstring_eqb_refl.
  - destruct (findConn k s) as [c|]; simpl; [|reflexivity].
    rewrite Ep, Ep'. destruct (jsstring_eqb i k); [reflexivity|].
    unfold within. now rewrite Hp.
Qed.

Lemma registryGet_Some (s : Server) (i : jsstring) (ws : Conn) :
  findConn i s = Some ws -> In i (participants s) -> registryGet i s = Some (p ws).
Proof.
  intros F Hin. unfold registryGet.
  apply existsb_eqb_In in Hin. now rewrite Hin, F.
Qed.

Lemma sanitizeMessage_not_blank (raw : jsstring) :
  sanitizeMessage raw <> [] -> isEmpty raw = false.
Proof. destruct raw; [intro H; now contradiction H | reflexivity]. Qed.

(** A [chat] that passes the gate and the sanitizer, from a connection
    whose participant is in the registry. *)
Lemma chat_accepted (s : Server) (i : jsstring) (ws : Conn) (raw : jsstring) (t : Z) :
  findConn i s = Some ws -> In i (participants s) ->
  CHAT_RATE_LIMIT_MS <= t - lastChatAt ws -> sanitizeMessage raw <> [] ->
  let ws1 := withLastChatAt t (touch t ws) in
  let s1 := putConn ws1 s in
  let nearbyParticipants := getProximityParticipants s1 (p ws1) in
  onMessage s i (Chat (Some raw)) t
  = (s1,
     if Nat.eqb (List.length nearbyParticipants) 0
     then send ws1 (FChatError (lit "No one nearby to chat with")) t
     else sendToParticipants s1
            (FChat (pid (p ws1)) (pname (p ws1)) (sanitizeMessage raw) t) t
            (p ws1 :: nearbyParticipants) None).
Proof.
  intros F Hin G Hs. cbv zeta.
  rewrite (onMessage_dispatch s i ws) by (assumption || discriminate).
  pose proof (proj2 (findConn_Some _ _ _ F)) as Ei.
  unfold dispatch. cbn [lastChatAt touch withIsAlive withP].
  rewrite (gate_open _ _ _ G), putConn_putConn by reflexivity.
  rewrite (sanitizeMessage_not_blank raw Hs).
  apply isEmpty_false in Hs. rewrite Hs.
  change (cid (touch t ws)) with (cid ws). rewrite Ei.
  set (ws1 := withLastChatAt t _).
  rewrite (registryGet_Some (putConn ws1 s) i ws1);
    [| now apply (findConn_put _ ws) | exact Hin].
  now destruct (Nat.eqb _ 0).
Qed.

Lemma In_sendToParticipants (s : Server) (f f' : Frame) (t ts : Z)
    (targets : list Participant) (k : jsstring) :
  In (Deliver k f ts) (sendToParticipants s f' t targets None) <->
  f = f' /\ ts = t
  /\ exists c cp,
       In c (conns s) /\ cid c = k /\ readyState c = OPEN
       /\ find (fun q => jsstring_eqb (cid c) (pid q)) (values s) = Some cp
       /\ existsb (fun q => jsstring_eqb (pid q) (pid cp)) targets = true.
Proof.
  unfold sendToParticipants. rewrite in_flat_map. split.
  - intros (c & Hc & Hin).
    destruct (isOpen (readyState c)) eqn:Eo; [|destruct Hin].
    cbn [isExcept negb andb] in Hin.
    destruct (find _ (values s)) as [cp|] eqn:Ef; [|destruct Hin].
    destruct (existsb _ targets) eqn:Ee; [|destruct Hin].
    destruct Hin as [E|[]]. injection E as <- <- <-.
    repeat split. exists c, cp. repeat split; try assumption.
    now destruct (readyState c).
  - intros (-> & -> & c & cp & Hc & <- & Eo & Ef & Ee). exists c.
    split; [assumption|]. rewrite Eo, Ef, Ee. now left.
Qed.

Lemma sendToParticipants_no_probe (s : Server) (f : Frame) (t : Z)
    (targets : list Participant) (ex : option jsstring) (k : jsstring) :
  ~ In (Probe k) (sendToParticipants s f t targets ex).
Proof.
  unfold sendToParticipants. rewrite in_flat_map. intros (c & _ & Hin).
  destruct (isOpen (readyState c) && negb (isExcept ex c)); [|destruct Hin].
  destruct (find _ _); [|destruct Hin].
  destruct (existsb _ _); [destruct Hin as [E|[]]; discriminate | destruct Hin].
Qed.

Lemma find_registry_participant (s : Server) (c : Conn) :
  Inv s -> In c (conns s) ->
  (exists cp, find (fun q => jsstring_eqb (cid c) (pid q)) (values s) = Some cp)
  <-> In (cid c) (participants s).
Proof.
  intros HI Hc. split.
  - intros (cp & Ef). apply find_some in Ef as [Hv E].
    apply jsstring_eqb_eq in E. apply In_values in Hv as (c' & Hc' & -> & Hk).
    destruct (Inv_connOk s c' HI Hc') as (Ep & _). congruence.
  - intro Hk. destruct (find _ (values s)) as [cp|] eqn:Ef; [eauto|]. exfalso.
    destruct HI as (ND & Hok & _).
    assert (In (p c) (values s)) as Hv.
    { unfold values. apply in_map_iff. exists (cid c, p c). split; [reflexivity|].
      apply In_entries. split; [assumption|]. exists c. split; [|reflexivity].
      now apply findConn_unique. }
    pose proof (find_none _ _ Ef _ Hv) as Hf. simpl in Hf.
    rewrite Forall_forall in Hok. destruct (Hok c Hc) as (Ep & _).
    rewrite Ep, jsstring_eqb_refl in Hf. discriminate.
Qed.

Lemma existsb_pid (k : jsstring) (l : list Participant) :
  existsb (fun q => jsstring_eqb (pid q) k) l = true <-> In k (map pid l).
Proof.
  rewrite existsb_exists, in_map_iff. split.
  - intros (q & Hq & E). apply jsstring_eqb_eq in E. eauto.
  - intros (q & E & Hq). exists q. split; [assumption|].
    now apply jsstring_eqb_eq.
Qed.

Lemma calcNearby_in_registry (s : Server) (a : Participant) (k : jsstring) :
  In k (calcNearby s a) -> In k (participants s).
Proof.
  intro H. apply In_calcNearby in H as (_ & q & He & _).
  now apply In_entries in He as (Hk & _).
Qed.



(** The scenario of the specification: A's chat reaches A and B, not C;
    C, who has nobody nearby, gets a [chat_error]. *)
Example chat_scoping_example :
  snd (onMessage stateABC idA (Chat (Some (lit " hi <b>there</b>  all "))) 2000)
  = [Deliver idA (FChat idA (lit "Guest-a3f1c") (lit "hi bthere/b all") 2000) 2000;
     Deliver idB (FChat idA (lit "Guest-a3f1c") (lit "hi bthere/b all") 2000) 2000]
  /\ snd (onMessage stateABC idC (Chat (Some (lit "anyone?"))) 2000)
     = [Deliver idC (FChatError (lit "No one nearby to chat with")) 2000].
Proof. vm_compute. split; reflexivity. Qed.

(* ------------------------------------------------------------------ *)
(** ** Removal *)

Lemma countLeft_app (i k : jsstring) (a b : list Out) :
  countLeft i k (a ++ b) = (countLeft i k a + countLeft i k b)%nat.
Proof. unfold countLeft. now rewrite filter_app, length_app. Qed.

Lemma isLeftTo_true (i k : jsstring) (o : Out) :
  isLeftTo i k o = true <-> exists ts, o = Deliver k (FLeft i) ts.
Proof.
  split.
  - destruct o as [k' f ts|k']; [|discriminate].
    destruct f; try discriminate. simpl. intro H.
    apply andb_true_iff in H as [H1 H2].
    apply jsstring_eqb_eq in H1, H2. subst. eauto.
  - intros (ts & ->). simpl. now rewrite !jsstring_eqb_refl.
Qed.

Lemma countLeft_zero (i k : jsstring) (o : list Out) :
  (forall ts, ~ In (Deliver k (FLeft i) ts) o) -> countLeft i k o = 0%nat.
Proof.
  unfold countLeft. induction o as [|x o IH]; intro H; simpl; [reflexivity|].
  destruct (isLeftTo i k x) eqn:E.
  - apply isLeftTo_true in E as (ts & ->). exfalso. apply (H ts). now left.
  - apply IH. intros ts Hin. apply (H ts). now right.
Qed.

Lemma existsb_absent (k : jsstring) (l : list Conn) :
  ~ In k (map cid l) ->
  existsb (fun c => jsstring_eqb (cid c) k && isOpen (readyState c)) l = false.
Proof.
  intro H. destruct (existsb _ l) eqn:E; [|reflexivity].
  apply existsb_exists in E as (c & Hc & Hb).
  apply andb_true_iff in Hb as [Hb _]. apply jsstring_eqb_eq in Hb.
  exfalso. apply H. rewrite <- Hb. now apply in_map.
Qed.

(** A global broadcast of [left {j}] hands exactly one frame to every
    open socket. *)
Lemma countLeft_broadcast (s : Server) (i j k : jsstring) (t : Z) :
  NoDup (map cid (conns s)) ->
  countLeft i k (broadcast s (FLeft j) t None)
  = if jsstring_eqb j i && openb k s then 1%nat else 0%nat.
Proof.
  unfold broadcast, openb, isExcept. cbn [negb].
  induction (conns s) as [|c l IH]; intro ND.
  - simpl. now rewrite andb_false_r.
  - inversion ND as [|? ? Hnot ND']; subst.
    cbn [flat_map existsb]. rewrite countLeft_app, (IH ND').
    destruct (jsstring_eqb (cid c) k) eqn:Ek.
    + apply jsstring_eqb_eq in Ek. rewrite Ek in Hnot.
      rewrite (existsb_absent k l Hnot), andb_false_r, Nat.add_0_r.
      destruct (isOpen (readyState c)); cbn [andb orb].
      * unfold countLeft. cbn [filter isLeftTo].
        rewrite Ek, jsstring_eqb_refl. cbn [andb].
        destruct (jsstring_eqb j i); reflexivity.
      * now rewrite andb_false_r.
    + cbn [andb orb].
      assert (countLeft i k
                (if isOpen (readyState c) && true then [Deliver (cid c) (FLeft j) t] else [])
              = 0%nat) as ->.
      { destruct (isOpen (readyState c)); [|reflexivity].
        unfold countLeft. cbn [andb filter isLeftTo]. now rewrite Ek. }
      reflexivity.
Qed.

Lemma In_send (ws : Conn) (f f' : Frame) (t ts : Z) (k : jsstring) :
  In (Deliver k f ts) (send ws f' t) -> f = f' /\ ts = t /\ k = cid ws.
Proof.
  unfold send. destruct (isOpen (readyState ws)); [|intros []].
  intros [E|[]]. injection E as <- <- <-. auto.
Qed.

Lemma In_sweep_left (cutoff t : Z) (ks : list jsstring) (s : Server)
    (k : jsstring) (f : Frame) (ts : Z) :
  In (Deliver k f ts) (snd (sweep cutoff t ks s)) ->
  exists j, f = FLeft j /\ In j ks.
Proof.
  revert s. induction ks as [|k0 r IH]; intros s; simpl; [intros []|].
  destruct (findConn k0 s) as [c|].
  - destruct (plastSeen (p c) <? cutoff).
    + specialize (IH (registryDelete k0 s)).
      destruct (sweep cutoff t r (registryDelete k0 s)) as [s2 o]. simpl in *.
      intro H. apply in_app_iff in H as [H|H].
      * apply In_broadcast in H as (-> & _). eauto.
      * destruct (IH H) as (j & -> & Hj). eauto.
    + intro H. destruct (IH s H) as (j & -> & Hj). eauto.
  - intro H. destruct (IH s H) as (j & -> & Hj). eauto.
Qed.

Lemma sweep_conns (cutoff t : Z) (ks : list jsstring) (s : Server) :
  conns (fst (sweep cutoff t ks s)) = conns s.
Proof.
  revert s. induction ks as [|k0 r IH]; intros s; simpl; [reflexivity|].
  destruct (findConn k0 s) as [c|]; [|apply IH].
  destruct (plastSeen (p c) <? cutoff); [|apply IH].
  specialize (IH (registryDelete k0 s)).
  destruct (sweep cutoff t r (registryDelete k0 s)). exact IH.
Qed.

Lemma sweep_participants (cutoff t : Z) (ks : list jsstring) (s : Server)
    (k : jsstring) :
  In k (participants (fst (sweep cutoff t ks s))) -> In k (participants s).
Proof.
  revert s. induction ks as [|k0 r IH]; intros s; simpl; [trivial|].
  destruct (findConn k0 s) as [c|]; [|apply IH].
  destruct (plastSeen (p c) <? cutoff); [|apply IH].
  specialize (IH (registryDelete k0 s)).
  destruct (sweep cutoff t r (registryDelete k0 s)). simpl in *.
  intro H. apply IH in H. now apply In_registryDelete in H.
Qed.

(** One sweep announces an id at most once to a socket. *)
Lemma countLeft_sweep (cutoff t : Z) (ks : list jsstring) (s : Server)
    (i k : jsstring) :
  NoDup (map cid (conns s)) -> NoDup ks ->
  (countLeft i k (snd (sweep cutoff t ks s)) <= 1)%nat
  /\ (~ In i ks -> countLeft i k (snd (sweep cutoff t ks s)) = 0%nat).
Proof.
  intros ND NK. split.
  - revert s ND NK. induction ks as [|k0 r IH]; intros s ND NK; simpl;
      [unfold countLeft; simpl; lia|].
    inversion NK as [|? ? Hnot NK']; subst.
    destruct (findConn k0 s) as [c|]; [|now apply IH].
    destruct (plastSeen (p c) <? cutoff); [|now apply IH].
    pose proof (IH (registryDelete k0 s) ND NK') as H1.
    pose proof (In_sweep_left cutoff t r (registryDelete k0 s)) as H2.
    destruct (sweep cutoff t r (registryDelete k0 s)) as [s2 o]. simpl in *.
    rewrite countLeft_app, (countLeft_broadcast (registryDelete k0 s) i k0 k t ND).
    destruct (jsstring_eqb k0 i) eqn:E.
    + apply jsstring_eqb_eq in E. subst k0.
      rewrite (countLeft_zero i k o).
      * destruct (_ && _); lia.
      * intros ts Hin. destruct (H2 _ _ _ Hin) as (j & [= <-] & Hj). contradiction.
    + simpl. exact H1.
  - intro Hn. apply countLeft_zero. intros ts Hin.
    destruct (In_sweep_left _ _ _ _ _ _ _ Hin) as (j & [= <-] & Hj). contradiction.
Qed.

Ltac frame_of H :=
  repeat (apply in_app_iff in H as [H|H]);
  first [ apply In_send in H as (-> & _)
        | apply In_broadcast in H as (-> & _)
        | apply In_sendToParticipants in H as (-> & _)
        | destruct H ].

(** What a frame handed out by the message handler can be: a [state]
    frame carries the snapshot of the state the handler leaves, and no
    [left] frame is ever sent. *)
Lemma dispatch_frames (s : Server) (ws : Conn) (data : Inbound) (t : Z)
    (k : jsstring) (f : Frame) (ts : Z) :
  In (Deliver k f ts) (snd (dispatch s ws data t)) ->
  match f with
  | FState ps => ps = snapshot (fst (dispatch s ws data t))
  | FLeft _ => False
  | _ => True
  end.
Proof.
  unfold dispatch. destruct data as [raw|nx ny|raw| |m| |]; cbn [fst snd].
  - destruct (isEmpty (trim raw)); cbn [fst snd]; intro H; frame_of H; trivial.
  - destruct (t - lastMoveAt ws <? MOVE_RATE_LIMIT_MS); cbn [fst snd];
      [intros []|].
    destruct nx as [| | |qx]; cbn [fst snd]; try (intros []).
    destruct ny as [| | |qy]; cbn [fst snd]; try (intros []).
    match goal with |- context [if ?b then _ else _] => destruct b end;
      cbn [fst snd]; intro H; [destruct H|].
    unfold sendProximity in H. frame_of H; trivial.
  - destruct (isEmpty (trim raw)); cbn [fst snd]; [intros []|].
    destruct (negb _); cbn [fst snd]; intro H; frame_of H; trivial.
  - intro H. frame_of H; trivial.
  - destruct (t - lastChatAt ws <? CHAT_RATE_LIMIT_MS); cbn [fst snd];
      [intros []|].
    destruct m as [raw|]; cbn [fst snd]; [|intros []].
    destruct (isEmpty raw); cbn [fst snd]; [intros []|].
    destruct (isEmpty (sanitizeMessage raw)); cbn [fst snd]; [intros []|].
    destruct (registryGet _ _); cbn [fst snd]; [|intros []].
    destruct (Nat.eqb _ 0); cbn [fst snd]; intro H; frame_of H; trivial.
  - intros [].
  - intros [].
Qed.

Lemma onMessage_frames (s : Server) (i : jsstring) (data : Inbound) (t : Z)
    (k : jsstring) (f : Frame) (ts : Z) :
  In (Deliver k f ts) (snd (onMessage s i data t)) ->
  match f with
  | FState ps => ps = snapshot (fst (onMessage s i data t))
  | FLeft _ => False
  | _ => True
  end.
Proof.
  unfold onMessage. destruct (findConn i s) as [ws0|]; [|intros []].
  destruct data; try apply dispatch_frames. intros [].
Qed.

Lemma heartbeat_frames (s : Server) (t : Z) (k : jsstring) (f : Frame) (ts : Z) :
  In (Deliver k f ts) (snd (heartbeat s t)) ->
  exists j, f = FLeft j /\ In j (participants s).
Proof.
  unfold heartbeat, heartbeatClients.
  pose proof (In_sweep_left (t - CONNECTION_TTL_MS) t (participants s)
                (mkServer (map (fun ws => fst (heartbeatClient ws)) (conns s))
                          (participants s)) k f ts) as H.
  cbn [participants] in *.
  destruct (sweep _ _ _ _) as [s2 o2]. cbn [snd] in *.
  intro Hin. apply in_app_iff in Hin as [Hin|Hin]; [|now apply H].
  exfalso. apply in_flat_map in Hin as (c & _ & Hin).
  unfold heartbeatClient in Hin. destruct (readyState c); cbn [snd] in Hin;
    try (destruct (negb (isAlive c)); cbn [snd isOpen] in Hin);
    repeat (destruct Hin as [Hin|Hin]; try discriminate); try destruct Hin.
Qed.

Lemma step_frames (s : Server) (e : Event) (k : jsstring) (f : Frame) (ts : Z) :
  In (Deliver k f ts) (snd (step s e)) ->
  match f with
  | FState ps => ps = snapshot (fst (step s e))
  | FLeft j => (exists t, e = Close j t)
               \/ (exists t, e = Heartbeat t /\ In j (participants s))
  | _ => True
  end.
Proof.
  destruct e as [i rx ry rc t|i data t|i t|i t|i|t]; cbn [step].
  - unfold onConnection. cbn [fst snd]. intro H. frame_of H; trivial.
  - intro H. apply onMessage_frames in H. destruct f; trivial. destruct H.
  - unfold onPong. destruct (findConn i s); intros [].
  - unfold onClose. destruct (findConn i s); [|intros []]. cbn [fst snd].
    intro H. frame_of H. left. eauto.
  - intros [].
  - intro H. apply heartbeat_frames in H as (j & -> & Hj). right. eauto.
Qed.

Lemma snapshot_ids (s : Server) (i : jsstring) :
  Inv s -> In i (map cp_id (snapshot s)) -> In i (participants s).
Proof.
  intros HI H. unfold snapshot in H. rewrite map_map in H.
  apply in_map_iff in H as (q & E & Hq). simpl in E.
  apply In_values in Hq as (c & Hc & -> & Hk).
  destruct (Inv_connOk s c HI Hc) as (Ep & _). congruence.
Qed.

Lemma dispatch_participants (s : Server) (ws : Conn) (data : Inbound) (t : Z)
    (k : jsstring) :
  In k (participants (fst (dispatch s ws data t))) ->
  k = cid ws \/ In k (participants s).
Proof.
  unfold dispatch. destruct data as [raw|nx ny|raw| |m| |]; cbn [fst]; auto.
  - destruct (isEmpty (trim raw)); cbn [fst]; auto.
    intro H. now apply In_registrySet in H.
  - destruct (t - lastMoveAt ws <? MOVE_RATE_LIMIT_MS); cbn [fst]; auto.
    destruct nx as [| | |qx]; cbn [fst]; auto.
    destruct ny as [| | |qy]; cbn [fst]; auto.
    match goal with |- context [if ?b then _ else _] => destruct b end;
      cbn [fst]; auto.
    intro H. now apply In_registrySet in H.
  - destruct (isEmpty (trim raw)); cbn [fst]; auto.
    destruct (negb _); cbn [fst]; auto.
    intro H. now apply In_registrySet in H.
  - destruct (t - lastChatAt ws <? CHAT_RATE_LIMIT_MS); cbn [fst]; auto.
    destruct m as [raw|]; cbn [fst]; auto.
    destruct (isEmpty raw); cbn [fst]; auto.
    destruct (isEmpty (sanitizeMessage raw)); cbn [fst]; auto.
    destruct (registryGet _ _); cbn [fst]; auto.
    destruct (Nat.eqb _ 0); cbn [fst]; auto.
Qed.

Lemma onMessage_participants (s : Server) (j : jsstring) (data : Inbound) (t : Z)
    (k : jsstring) :
  In k (participants (fst (onMessage s j data t))) ->
  k = j \/ In k (participants s).
Proof.
  unfold onMessage. destruct (findConn j s) as [ws0|] eqn:F; [|auto].
  pose proof (proj2 (findConn_Some _ _ _ F)) as Ej.
  assert (In k (participants (fst (dispatch (putConn (touch t ws0) s)
                                           (touch t ws0) data t))) ->
          k = j \/ In k (participants s)) as H.
  { intro H. apply dispatch_participants in H. simpl in H. now rewrite Ej in H. }
  destruct data; try exact H; auto.
Qed.

Lemma find_map_same (f : Conn -> Conn) (i : jsstring) (l : list Conn) :
  (forall c, cid (f c) = cid c) ->
  find (fun c => jsstring_eqb (cid c) i) (map f l)
  = option_map f (find (fun c => jsstring_eqb (cid c) i) l).
Proof.
  intro Hc. induction l as [|c l IH]; simpl; [reflexivity|].
  rewrite Hc. now destruct (jsstring_eqb (cid c) i).
Qed.

Lemma find_app_Some (f : Conn -> bool) (l l' : list Conn) (c : Conn) :
  find f l = Some c -> find f (l ++ l') = Some c.
Proof.
  induction l as [|d l IH]; simpl; [discriminate|].
  destruct (f d); [trivial | exact IH].
Qed.

Lemma live_not_closed (i : jsstring) (s : Server) : live i s -> closed i s -> False.
Proof.
  intros (ws & F & Hn) (ws' & F' & Hc). congruence.
Qed.

(** Once the socket [i] is closed and its id is out of the registry,
    both stay so. *)
Lemma gone_step (s : Server) (e : Event) (i : jsstring) :
  closed i s -> ~ In i (participants s) -> admissible s e ->
  closed i (fst (step s e)) /\ ~ In i (participants (fst (step s e))).
Proof.
  intros Hc Hn Ha. pose proof Hc as (ws & F & Hr).
  destruct e as [j rx ry rc t|j data t|j t|j t|j|t]; cbn [step].
  - destruct Ha as (Fj & _).
    assert (i <> j) as Hne by (intros ->; congruence).
    unfold onConnection. cbn [fst]. split.
    + exists ws. split; [|assumption]. unfold findConn in *. cbn [registrySet conns].
      now apply find_app_Some.
    + intro H. apply In_registrySet in H as [H|H]; auto.
  - assert (i <> j) as Hne by (intros ->; exact (live_not_closed _ _ Ha Hc)).
    split.
    + exists ws. now rewrite onMessage_findConn_other.
    + intro H. apply onMessage_participants in H as [H|H]; auto.
  - assert (i <> j) as Hne by (intros ->; exact (live_not_closed _ _ Ha Hc)).
    unfold onPong. destruct (findConn j s) as [wj|] eqn:Fj; [|auto].
    pose proof (proj2 (findConn_Some _ _ _ Fj)) as Ej. cbn [fst]. split; [|exact Hn].
    exists ws. rewrite findConn_putConn_other by (simpl; congruence). auto.
  - assert (i <> j) as Hne by (intros ->; exact (live_not_closed _ _ Ha Hc)).
    unfold onClose. destruct (findConn j s) as [wj|] eqn:Fj; [|auto].
    pose proof (proj2 (findConn_Some _ _ _ Fj)) as Ej. cbn [fst]. split.
    + exists ws. rewrite findConn_registryDelete.
      rewrite findConn_putConn_other by (simpl; congruence). auto.
    + intro H. apply In_registryDelete in H as [_ H]. auto.
  - auto.
  - unfold heartbeat, heartbeatClients.
    pose proof (sweep_conns (t - CONNECTION_TTL_MS) t (participants s)
                  (mkServer (map (fun c => fst (heartbeatClient c)) (conns s))
                            (participants s))) as H1.
    pose proof (sweep_participants (t - CONNECTION_TTL_MS) t (participants s)
                  (mkServer (map (fun c => fst (heartbeatClient c)) (conns s))
                            (participants s)) i) as H2.
    cbn [participants conns] in *.
    destruct (sweep _ _ _ _) as [s2 o2]. cbn [fst] in *. split; [|auto].
    exists ws. split; [|assumption]. unfold findConn. rewrite H1.
    rewrite find_map_same by apply heartbeatClient_cid.
    unfold findConn in F. rewrite F. cbn [option_map]. f_equal.
    unfold heartbeatClient. now rewrite Hr.
Qed.

Lemma after_removal (i : jsstring) (evs : list Event) (s : Server) :
  Inv s -> closed i s -> ~ In i (participants s) -> admissibleFrom s evs ->
  (forall k ts, ~ In (Deliver k (FLeft i) ts) (snd (run s evs)))
  /\ (forall k ps ts, In (Deliver k (FState ps) ts) (snd (run s evs)) ->
                      ~ In i (map cp_id ps))
  /\ ~ In i (participants (fst (run s evs))).
Proof.
  revert s. induction evs as [|e r IH]; intros s HI Hc Hn Ha.
  - simpl. repeat split; auto.
  - destruct Ha as [Ha Hr].
    pose proof (Inv_step s e HI Ha) as HI1.
    destruct (gone_step s e i Hc Hn Ha) as [Hc1 Hn1].
    pose proof (step_frames s e) as Hf.
    specialize (IH (fst (step s e)) HI1 Hc1 Hn1 Hr).
    cbn [run]. destruct (step s e) as [s1 o1]. cbn [fst snd] in *.
    destruct (run s1 r) as [s2 o2]. cbn [fst snd] in *.
    destruct IH as (IH1 & IH2 & IH3). repeat split.
    + intros k ts H. apply in_app_iff in H as [H|H]; [|exact (IH1 k ts H)].
      apply Hf in H as [(t & ->)|(t & -> & H)].
      * exact (live_not_closed i s Ha Hc).
      * exact (Hn H).
    + intros k ps ts H. apply in_app_iff in H as [H|H]; [|exact (IH2 k ps ts H)].
      apply Hf in H. subst ps. intro Hin. apply Hn1.
      now apply snapshot_ids.
    + exact IH3.
Qed.

Lemma countLeft_heartbeat (s : Server) (i k : jsstring) (t : Z) :
  Inv s -> (countLeft i k (snd (heartbeat s t)) <= 1)%nat.
Proof.
  intro HI. pose proof (Inv_heartbeatClients s HI) as (ND & _ & NK & _).
  unfold heartbeat. unfold heartbeatClients in *. cbn [fst conns participants] in *.
  pose proof (countLeft_sweep (t - CONNECTION_TTL_MS) t (participants s)
                (mkServer (map (fun ws => fst (heartbeatClient ws)) (conns s))
                          (participants s)) i k ND NK) as [H _].
  cbn [participants] in *.
  destruct (sweep _ _ _ _) as [s2 o2]. cbn [snd] in *.
  rewrite countLeft_app.
  rewrite (countLeft_zero i k (flat_map _ (conns s))); [exact H|].
  intros ts Hin. apply in_flat_map in Hin as (c & _ & Hin).
  unfold heartbeatClient in Hin. destruct (readyState c); cbn [snd] in Hin;
    try (destruct (negb (isAlive c)); cbn [snd isOpen] in Hin);
    repeat (destruct Hin as [Hin|Hin]; try discriminate); try destruct Hin.
Qed.

(** C1, as stated, fails.  The socket of A misses a ping; the next
    heartbeat terminates it and, in the same run, the sweep finds A stale
    and broadcasts [left]; the close event of the terminated socket
    broadcasts [left] again.  B receives two [left] frames for A. *)
Lemma stale_then_close_announces_twice :
  admissibleFrom initial sessionStaleThenClose
  /\ countLeft idA idB (snd (run initial sessionStaleThenClose)) = 2%nat.
Proof.
  split.
  - apply admissibleFromb_sound. vm_compute. reflexivity.
  - vm_compute. reflexivity.
Qed.

(** C1, amended.  The close event of a connection removes its id from
    the registry and broadcasts [left {id}] once: every connection that
    is still open receives exactly one such frame.  After that close
    event no further [left {id}] is sent, no [state] snapshot contains
    the id, and the id never returns to the registry.  One run of the
    heartbeat sends at most one [left {id}] to a connection. *)
Theorem close_removes_and_announces_once
    (s : Server) (i : jsstring) (t : Z) (evs : list Event) :
  reachable s -> live i s ->
  admissibleFrom (fst (onClose s i t)) evs ->
  ~ In i (participants (fst (onClose s i t)))
  /\ (forall k, countLeft i k (snd (onClose s i t))
                = if openb k (fst (onClose s i t)) then 1%nat else 0%nat)
  /\ (forall k, countLeft i k (snd (run (fst (onClose s i t)) evs)) = 0%nat)
  /\ (forall k ps ts,
         In (Deliver k (FState ps) ts) (snd (run (fst (onClose s i t)) evs)) ->
         ~ In i (map cp_id ps))
  /\ ~ In i (participants (fst (run (fst (onClose s i t)) evs)))
  /\ (forall k t', (countLeft i k (snd (heartbeat s t')) <= 1)%nat).
Proof.
  intros HR (ws & F & Hlive) Ha. pose proof (reachable_Inv s HR) as HI.
  pose proof (proj2 (findConn_Some _ _ _ F)) as Ei.
  pose proof (Inv_onClose s i t HI) as HI1.
  assert (closed i (fst (onClose s i t))) as Hc.
  { unfold onClose. rewrite F. cbn [fst]. exists (withReadyState CLOSED ws).
    split; [|reflexivity]. rewrite findConn_registryDelete.
    now apply (findConn_put _ ws). }
  assert (~ In i (participants (fst (onClose s i t)))) as Hn.
  { unfold onClose. rewrite F. cbn [fst]. intro H.
    apply In_registryDelete in H as [H _]. now apply H. }
  destruct (after_removal i evs _ HI1 Hc Hn Ha) as (A1 & A2 & A3).
  repeat apply conj; try assumption.
  - intro k. destruct HI1 as (ND & _). revert ND.
    unfold onClose. rewrite F. cbn [fst snd]. intro ND.
    rewrite (countLeft_broadcast _ i i k t ND), jsstring_eqb_refl. reflexivity.
  - intro k. apply countLeft_zero. intros ts. apply A1.
  - intros k t'. now apply countLeft_heartbeat.
Qed.

Lemma close_removes_and_announces_once_witness :
  reachable stateAB
  /\ live idA stateAB
  /\ countLeft idA idB (snd (onClose stateAB idA 100)) = 1%nat
  /\ countLeft idA idB
       (snd (run (fst (onClose stateAB idA 100))
                 [Message idB (Join (lit "Bea")) 200; Heartbeat 15000])) = 0%nat.
Proof.
  assert (live idA stateAB) as Hl by (apply liveb_sound; vm_compute; reflexivity).
  assert (admissibleFrom (fst (onClose stateAB idA 100))
            [Message idB (Join (lit "Bea")) 200; Heartbeat 15000]) as Ha
      by (apply admissibleFromb_sound; vm_compute; reflexivity).
  pose proof (close_removes_and_announces_once stateAB idA 100
                [Message idB (Join (lit "Bea")) 200; Heartbeat 15000]
                stateAB_reachable Hl Ha) as (_ & H1 & H2 & _).
  split; [exact stateAB_reachable | split; [exact Hl | split]].
  - exact (H1 idB).
  - exact (H2 idB).
Defined.

(* ================================================================== *)
(** * Further properties of the server *)

(** ** The chat sanitizer *)

Lemma collapseFrom_In (b : bool) (s : jsstring) (c : N) :
  In c (collapseFrom b s) -> c = 32%N \/ In c s.
Proof.
  revert b. induction s as [|d s IH]; intros b; simpl; [intros []|].
  destruct (isWhiteSpace d).
  - destruct b.
    + intro H. destruct (IH _ H); auto.
    + intros [<-|H]; auto. destruct (IH _ H); auto.
  - intros [<-|H]; auto. destruct (IH _ H); auto.
Qed.

Lemma collapseFrom_length (b : bool) (s : jsstring) :
  (List.length (collapseFrom b s) <= List.length s)%nat.
Proof.
  revert b. induction s as [|d s IH]; intros b; simpl; [lia|].
  pose proof (IH true) as Ht. pose proof (IH false) as Hf.
  destruct (isWhiteSpace d); [destruct b|]; simpl; lia.
Qed.

Lemma collapseFrom_white (b : bool) (s : jsstring) (c : N) :
  In c (collapseFrom b s) -> isWhiteSpace c = true -> c = 32%N.
Proof.
  revert b. induction s as [|d s IH]; intros b; simpl; [intros []|].
  destruct (isWhiteSpace d) eqn:E.
  - destruct b.
    + apply IH.
    + intros [<-|H]; [reflexivity | now apply (IH true)].
  - intros [<-|H] Hw; [congruence | now apply (IH false)].
Qed.

Lemma collapseFrom_run_head (s : jsstring) (c : N) (r : jsstring) :
  collapseFrom true s = c :: r -> isWhiteSpace c = false.
Proof.
  induction s as [|d s IH]; simpl; [discriminate|].
  destruct (isWhiteSpace d) eqn:E; [exact IH|].
  intros [= <- _]. exact E.
Qed.

Lemma collapseFrom_no_double_space (b : bool) (s l1 l2 : jsstring) :
  collapseFrom b s <> l1 ++ 32%N :: 32%N :: l2.
Proof.
  revert b l1. induction s as [|d s IH]; intros b l1; simpl.
  - destruct l1; discriminate.
  - destruct (isWhiteSpace d) eqn:E.
    + destruct b; [apply IH|].
      destruct l1 as [|x l1]; simpl.
      * intros [= H]. apply collapseFrom_run_head in H. discriminate.
      * intros [= _ H]. exact (IH _ _ H).
    + destruct l1 as [|x l1]; simpl.
      * intros [= -> _]. discriminate.
      * intros [= _ H]. exact (IH _ _ H).
Qed.

(** X1.  Whatever the text, the sanitized chat message holds neither [<]
    nor [>] and has at most [MAX_MESSAGE_LENGTH] code units. *)
Theorem sanitizeMessage_has_no_markup_and_is_short (text : jsstring) :
  (forall c, In c (sanitizeMessage text) -> c <> 60%N /\ c <> 62%N)
  /\ (List.length (sanitizeMessage text) <= MAX_MESSAGE_LENGTH)%nat.
Proof.
  unfold sanitizeMessage, collapseWhiteSpace. split.
  - intros c H. apply collapseFrom_In in H as [->|H]; [split; discriminate|].
    unfold removeAngles in H. apply filter_In in H as [_ H].
    apply negb_true_iff, orb_false_iff in H as [H1 H2].
    apply N.eqb_neq in H1, H2. auto.
  - eapply Nat.le_trans; [apply collapseFrom_length|].
    unfold removeAngles.
    eapply Nat.le_trans; [apply filter_length_le|].
    rewrite slice0_length. apply Nat.le_min_l.
Qed.

(** X2.  In the sanitized chat message every white-space code unit
    (tab, line break, no-break space, ...) is a plain space, and no two
    spaces are next to each other. *)
Theorem sanitizeMessage_normalises_white_space (text : jsstring) :
  (forall c, In c (sanitizeMessage text) -> isWhiteSpace c = true -> c = 32%N)
  /\ (forall l1 l2, sanitizeMessage text <> l1 ++ 32%N :: 32%N :: l2).
Proof.
  unfold sanitizeMessage, collapseWhiteSpace. split.
  - intros c. apply collapseFrom_white.
  - intros l1 l2. apply collapseFrom_no_double_space.
Qed.

(** Tabs and line breaks become one space, markup characters vanish. *)
Example sanitizeMessage_example :
  sanitizeMessage ([9%N] ++ lit "  <i>a" ++ [9%N; 10%N; 160%N] ++ lit "b</i> ")
  = lit "ia b/i".
Proof. vm_compute. reflexivity. Qed.

(* ------------------------------------------------------------------ *)
(** ** The snapshot and the registry *)

Lemma findConn_registered (s : Server) (k : jsstring) :
  Inv s -> In k (participants s) ->
  exists c, findConn k s = Some c /\ In c (conns s) /\ cid c = k /\ pid (p c) = k.
Proof.
  intros HI Hk. pose proof HI as (_ & _ & _ & Hincl).
  destruct (findConn k s) as [c|] eqn:F.
  - pose proof (findConn_connOk s k c HI F) as (Ep & _).
    apply findConn_Some in F as [Hc Ec]. exists c. repeat split; congruence.
  - exfalso. apply findConn_None in F. apply F. now apply Hincl.
Qed.

Lemma snapshot_keys (s : Server) : Inv s -> map cp_id (snapshot s) = participants s.
Proof.
  intro HI. unfold snapshot, values, entries.
  assert (forall k, In k (participants s) ->
                    exists c, findConn k s = Some c /\ pid (p c) = k) as H.
  { intros k Hk. destruct (findConn_registered s k HI Hk) as (c & F & _ & _ & E).
    eauto. }
  induction (participants s) as [|k l IH]; simpl; [reflexivity|].
  destruct (H k (or_introl eq_refl)) as (c & F & E). rewrite F. simpl.
  rewrite E. f_equal. apply IH. intros k' Hk'. apply H. now right.
Qed.

Lemma snapshot_registryDelete (s : Server) (i : jsstring) :
  Inv s ->
  snapshot (registryDelete i s)
  = filter (fun cp => negb (jsstring_eqb i (cp_id cp))) (snapshot s).
Proof.
  intro HI. unfold snapshot, values, entries, registryDelete.
  cbn [participants]. unfold findConn. cbn [conns]. fold (findConn).
  assert (forall k, In k (participants s) ->
                    exists c, findConn k s = Some c /\ pid (p c) = k) as H.
  { intros k Hk. destruct (findConn_registered s k HI Hk) as (c & F & _ & _ & E).
    eauto. }
  unfold findConn in H.
  induction (participants s) as [|k l IH]; simpl; [reflexivity|].
  destruct (H k (or_introl eq_refl)) as (c & F & E).
  assert (forall k', In k' l ->
                     exists c, find (fun c => jsstring_eqb (cid c) k') (conns s) = Some c
                               /\ pid (p c) = k') as H' by (intros; apply H; now right).
  destruct (jsstring_eqb i k) eqn:Ek; simpl; rewrite F; simpl; rewrite E, Ek; simpl.
  - now apply IH.
  - f_equal. now apply IH.
Qed.

(** X3.  In every reachable state the [state] snapshot lists the
    registry keys in insertion order, each once: the ids of the snapshot
    are exactly the keys, without repetition, and every entry is the
    client view of the object of the socket with that id. *)
Theorem snapshot_lists_each_participant_once (s : Server) :
  reachable s ->
  map cp_id (snapshot s) = participants s
  /\ NoDup (map cp_id (snapshot s))
  /\ (forall cp, In cp (snapshot s) ->
                 exists c, findConn (cp_id cp) s = Some c
                           /\ cp = toClientParticipant (p c)).
Proof.
  intro HR. pose proof (reachable_Inv s HR) as HI.
  pose proof (snapshot_keys s HI) as E. repeat split.
  - exact E.
  - rewrite E. now destruct HI as (_ & _ & H & _).
  - intros cp Hcp. unfold snapshot in Hcp.
    apply in_map_iff in Hcp as (q & <- & Hq).
    apply In_values in Hq as (c & Hc & -> & _).
    exists c. split; [|reflexivity].
    destruct (Inv_connOk s c HI Hc) as (Ep & _). simpl. rewrite Ep.
    destruct HI as (ND & _). now apply findConn_unique.
Qed.

Lemma snapshot_lists_each_participant_once_witness :
  reachable stateABC /\ map cp_id (snapshot stateABC) = [idA; idB; idC].
Proof.
  split; [exact stateABC_reachable|].
  exact (proj1 (snapshot_lists_each_participant_once stateABC stateABC_reachable)).
Defined.

(** X4.  The close event of a live connection takes exactly its own
    entry out of the snapshot: the other entries stay, unchanged and in
    the same order. *)
Theorem close_removes_only_its_own_entry (s : Server) (i : jsstring) (t : Z) :
  reachable s -> live i s ->
  snapshot (fst (onClose s i t))
  = filter (fun cp => negb (jsstring_eqb i (cp_id cp))) (snapshot s).
Proof.
  intros HR (ws & F & _). pose proof (reachable_Inv s HR) as HI.
  pose proof (proj2 (findConn_Some _ _ _ F)) as Ei.
  unfold onClose. rewrite F. cbn [fst].
  rewrite snapshot_registryDelete.
  - f_equal. apply (snapshot_putConn _ ws); [|reflexivity].
    simpl. now rewrite Ei.
  - apply Inv_putConn; [|assumption]. exact (findConn_connOk _ _ _ HI F).
Qed.

Lemma close_removes_only_its_own_entry_witness :
  reachable stateABC /\ live idB stateABC
  /\ map cp_id (snapshot (fst (onClose stateABC idB 700))) = [idA; idC].
Proof.
  assert (live idB stateABC) as Hl by (apply liveb_sound; vm_compute; reflexivity).
  split; [exact stateABC_reachable | split; [exact Hl|]].
  rewrite (close_removes_only_its_own_entry stateABC idB 700 stateABC_reachable Hl).
  vm_compute. reflexivity.
Defined.

(* ------------------------------------------------------------------ *)
(** ** A new connection *)

Lemma find_app_None (f : Conn -> bool) (l l' : list Conn) :
  find f l = None -> find f (l ++ l') = find f l'.
Proof.
  induction l as [|d l IH]; simpl; [reflexivity|].
  destruct (f d); [discriminate | exact IH].
Qed.

Lemma snapshot_onConnection (s : Server) (i : jsstring) (ws : Conn) :
  Inv s -> findConn i s = None -> cid ws = i ->
  participants (registrySet i (mkServer (conns s ++ [ws]) (participants s)))
  = participants s ++ [i]
  /\ snapshot (registrySet i (mkServer (conns s ++ [ws]) (participants s)))
     = snapshot s ++ [toClientParticipant (p ws)].
Proof.
  intros HI Fn Ei.
  assert (~ In i (participants s)) as Hn.
  { intro H. destruct (findConn_registered s i HI H) as (c & F & _). congruence. }
  assert (existsb (jsstring_eqb i) (participants s) = false) as Eb.
  { destruct (existsb _ _) eqn:E; [|reflexivity].
    apply existsb_eqb_In in E. contradiction. }
  unfold registrySet. cbn [participants conns]. rewrite Eb. split; [reflexivity|].
  unfold snapshot, values, entries. cbn [participants].
  rewrite flat_map_app, !map_app. f_equal.
  - assert (forall k, In k (participants s) -> exists c, findConn k s = Some c) as H.
    { intros k Hk. destruct (findConn_registered s k HI Hk) as (c & F & _). eauto. }
    unfold findConn in *. cbn [conns]. clear Hn Eb.
    induction (participants s) as [|k l IH]; simpl; [reflexivity|].
    destruct (H k (or_introl eq_refl)) as (c & F).
    rewrite (find_app_Some _ _ [ws] _ F), F. simpl. f_equal.
    apply IH. intros k' Hk'. apply H. now right.
  - simpl. unfold findConn in *. cbn [conns].
    rewrite (find_app_None _ _ _ Fn). simpl.
    now rewrite Ei, jsstring_eqb_refl.
Qed.

(** X5.  A new connection with a fresh id is appended to the registry;
    the new socket gets [welcome] with the room size and then [state]
    with the old snapshot followed by its own entry (named [Guest-] and
    the first five code units of the id); every other frame is the
    [joined] announcement, sent to exactly the sockets that were open
    before. *)
Theorem connection_is_greeted_and_announced
    (s : Server) (i : jsstring) (rx ry rc : Q) (t : Z) :
  reachable s -> admissible s (Connection i rx ry rc t) ->
  exists cp rest,
    cp_id cp = i
    /\ cp_name cp = lit "Guest-" ++ slice0 5 i
    /\ participants (fst (onConnection s i rx ry rc t)) = participants s ++ [i]
    /\ snapshot (fst (onConnection s i rx ry rc t)) = snapshot s ++ [cp]
    /\ snd (onConnection s i rx ry rc t)
       = Deliver i (FWelcome i ROOM_width ROOM_height) t
         :: Deliver i (FState (snapshot s ++ [cp])) t :: rest
    /\ (forall o, In o rest <->
                  exists k, o = Deliver k (FJoined cp) t /\ isOpenConn k s).
Proof.
  intros HR (Fn & _). pose proof (reachable_Inv s HR) as HI.
  unfold onConnection. cbn [fst snd].
  set (q := mkParticipant i _ _ _ _ _).
  set (ws := mkConn i OPEN true 0 0 q).
  destruct (snapshot_onConnection s i ws HI Fn eq_refl) as [Ep Es].
  exists (toClientParticipant q), (broadcast
    (registrySet i (mkServer (conns s ++ [ws]) (participants s)))
    (FJoined (toClientParticipant q)) t (Some i)).
  repeat apply conj; try reflexivity; try assumption.
  - unfold send. cbn [readyState ws isOpen cid app]. now rewrite Es.
  - intros [k f ts|k].
    + rewrite In_broadcast. cbn [registrySet conns isExcept]. split.
      * intros (-> & -> & c & Hc & Ek & Eo & Ee). exists k. split; [reflexivity|].
        apply jsstring_eqb_neq in Ee. apply in_app_iff in Hc as [Hc|[<-|[]]].
        -- exists c. auto.
        -- simpl in Ee. congruence.
      * intros (k' & [= -> -> ->] & c & Hc & Ek & Eo). repeat split.
        exists c. repeat split; try assumption.
        -- apply in_app_iff. now left.
        -- apply jsstring_eqb_neq. intro E. apply findConn_None in Fn.
           apply Fn. rewrite <- E. now apply in_map.
    + split; [intro H; now apply broadcast_no_probe in H|].
      intros (k' & E & _). discriminate.
Qed.

Lemma connection_is_greeted_and_announced_witness :
  reachable stateAB
  /\ admissible stateAB (Connection idC (5 # 8) (1 # 9) (3 # 4) 0)
  /\ participants (fst (onConnection stateAB idC (5 # 8) (1 # 9) (3 # 4) 0))
     = participants stateAB ++ [idC].
Proof.
  assert (admissible stateAB (Connection idC (5 # 8) (1 # 9) (3 # 4) 0)) as Ha
      by (apply admissibleb_sound; vm_compute; reflexivity).
  split; [exact stateAB_reachable | split; [exact Ha|]].
  destruct (connection_is_greeted_and_announced stateAB idC (5 # 8) (1 # 9) (3 # 4) 0
              stateAB_reachable Ha) as (cp & rest & _ & _ & H & _).
  exact H.
Defined.

(* ------------------------------------------------------------------ *)
(** ** Heartbeat *)

Lemma run_cons_fst (s : Server) (e : Event) (r : list Event) :
  fst (run s (e :: r)) = fst (run (fst (step s e)) r).
Proof.
  cbn [run]. destruct (step s e) as [s1 o1]. cbn [fst].
  now destruct (run s1 r).
Qed.

Lemma heartbeat_conns (s : Server) (t : Z) :
  conns (fst (heartbeat s t)) = map (fun ws => fst (heartbeatClient ws)) (conns s).
Proof.
  unfold heartbeat, heartbeatClients.
  pose proof (sweep_conns (t - CONNECTION_TTL_MS) t (participants s)
                (mkServer (map (fun c => fst (heartbeatClient c)) (conns s))
                          (participants s))) as H.
  cbn [participants conns] in *. now destruct (sweep _ _ _ _).
Qed.

Lemma heartbeat_findConn (s : Server) (t : Z) (i : jsstring) :
  findConn i (fst (heartbeat s t))
  = option_map (fun ws => fst (heartbeatClient ws)) (findConn i s).
Proof.
  unfold findConn. rewrite heartbeat_conns.
  apply find_map_same. apply heartbeatClient_cid.
Qed.

Lemma dispatch_own (s : Server) (ws : Conn) (data : Inbound) (t : Z) :
  findConn (cid ws) s = Some ws ->
  exists ws', findConn (cid ws) (fst (dispatch s ws data t)) = Some ws'
              /\ readyState ws' = readyState ws /\ isAlive ws' = isAlive ws.
Proof.
  intro F. unfold dispatch.
  assert (forall w, cid w = cid ws -> findConn (cid ws) (putConn w s) = Some w) as P1
      by (intros w E; now apply (findConn_put w ws)).
  assert (forall w0 w, cid w0 = cid ws -> cid w = cid ws ->
                       findConn (cid ws) (putConn w (putConn w0 s)) = Some w) as P2.
  { intros w0 w E0 E. apply (findConn_put w w0); [|assumption]. now apply P1. }
  destruct data as [raw|nx ny|raw| |m| |]; cbn [fst]; eauto.
  - destruct (isEmpty (trim raw)); cbn [fst]; eauto.
    eexists. rewrite findConn_registrySet, P1 by reflexivity. auto.
  - destruct (t - lastMoveAt ws <? MOVE_RATE_LIMIT_MS); cbn [fst]; eauto.
    destruct nx as [| | |qx]; cbn [fst];
      try (eexists; rewrite P1 by reflexivity; auto; fail).
    destruct ny as [| | |qy]; cbn [fst];
      try (eexists; rewrite P1 by reflexivity; auto; fail).
    match goal with |- context [if ?b then _ else _] => destruct b end; cbn [fst].
    + eexists; rewrite P1 by reflexivity; auto.
    + eexists. rewrite findConn_registrySet, P2 by reflexivity. auto.
  - destruct (isEmpty (trim raw)); cbn [fst]; eauto.
    destruct (negb _); cbn [fst]; eauto.
    eexists. rewrite findConn_registrySet, P1 by reflexivity. auto.
  - destruct (t - lastChatAt ws <? CHAT_RATE_LIMIT_MS); cbn [fst]; eauto.
    assert (exists ws', findConn (cid ws) (putConn (withLastChatAt t ws) s) = Some ws'
                        /\ readyState ws' = readyState ws /\ isAlive ws' = isAlive ws)
      as H by (eexists; rewrite P1 by reflexivity; auto).
    destruct m as [raw|]; cbn [fst]; [|exact H].
    destruct (isEmpty raw); cbn [fst]; [exact H|].
    destruct (isEmpty (sanitizeMessage raw)); cbn [fst]; [exact H|].
    destruct (registryGet _ _); cbn [fst]; [|exact H].
    destruct (Nat.eqb _ 0); cbn [fst]; exact H.
Qed.

(** After a frame that parses, the socket of the sender is as open as it
    was and is marked alive. *)
Lemma onMessage_own (s : Server) (i : jsstring) (ws : Conn) (data : Inbound) (t : Z) :
  findConn i s = Some ws -> data <> Malformed ->
  exists ws', findConn i (fst (onMessage s i data t)) = Some ws'
              /\ readyState ws' = readyState ws /\ isAlive ws' = true.
Proof.
  intros F Hd. pose proof (proj2 (findConn_Some _ _ _ F)) as Ei.
  rewrite (onMessage_dispatch s i ws data t F Hd).
  destruct (dispatch_own (putConn (touch t ws) s) (touch t ws) data t) as (ws' & F' & R & A).
  - apply (findConn_put _ ws); [|reflexivity].
    change (cid (touch t ws)) with (cid ws). now rewrite Ei.
  - exists ws'. change (cid (touch t ws)) with (cid ws) in F'. rewrite Ei in F'. auto.
Qed.





Lemma sweep_registry (cutoff t : Z) (ks : list jsstring) (s : Server) (k : jsstring) :
  In k (participants (fst (sweep cutoff t ks s)))
  <-> In k (participants s) /\ ~ (In k ks /\ stale cutoff k s).
Proof.
  revert s. induction ks as [|k0 r IH]; intros s; cbn [sweep].
  - cbn [fst]. split; [intro H; split; [assumption | intros [[] _]] | tauto].
  - destruct (findConn k0 s) as [c0|] eqn:F0.
    + destruct (Z.ltb_spec (plastSeen (p c0)) cutoff) as [Hs|Hs].
      * specialize (IH (registryDelete k0 s)).
        destruct (sweep cutoff t r (registryDelete k0 s)) as [s2 o]. cbn [fst] in *.
        rewrite IH, In_registryDelete.
        change (stale cutoff k (registryDelete k0 s)) with (stale cutoff k s).
        split.
        -- intros [[Hne Hk] Hn]. split; [assumption|].
           intros [[E|Hr] St]; [congruence | apply Hn; auto].
        -- intros [Hk Hn]. repeat split; try assumption.
           ++ intros ->. apply Hn. split; [now left|]. exists c0. auto.
           ++ intros [Hr St]. apply Hn. split; [now right | assumption].
      * rewrite IH. split; intros [Hk Hn]; (split; [assumption|]).
        -- intros [[E|Hr] St]; [|apply Hn; auto].
           subst k0. destruct St as (c & F & Hlt). rewrite F0 in F.
           injection F as <-. lia.
        -- intros [Hr St]. apply Hn. split; [now right | assumption].
    + rewrite IH. split; intros [Hk Hn]; (split; [assumption|]).
      * intros [[E|Hr] St]; [|apply Hn; auto].
        subst k0. destruct St as (c & F & _). congruence.
      * intros [Hr St]. apply Hn. split; [now right | assumption].
Qed.

Lemma sweep_out (cutoff t : Z) (ks : list jsstring) (s : Server)
    (k j : jsstring) (ts : Z) :
  In (Deliver k (FLeft j) ts) (snd (sweep cutoff t ks s))
  <-> ts = t /\ In j ks /\ stale cutoff j s /\ isOpenConn k s.
Proof.
  revert s. induction ks as [|k0 r IH]; intros s; cbn [sweep].
  - cbn [snd]. split; [intros [] | intros (_ & [] & _)].
  - destruct (findConn k0 s) as [c0|] eqn:F0.
    + destruct (Z.ltb_spec (plastSeen (p c0)) cutoff) as [Hs|Hs].
      * specialize (IH (registryDelete k0 s)).
        destruct (sweep cutoff t r (registryDelete k0 s)) as [s2 o]. cbn [snd] in *.
        rewrite in_app_iff, IH, In_broadcast.
        change (stale cutoff j (registryDelete k0 s)) with (stale cutoff j s).
        change (isOpenConn k (registryDelete k0 s)) with (isOpenConn k s).
        cbn [registryDelete conns isExcept]. split.
        -- intros [([= <-] & -> & c & Hc & Ek & Eo & _)|(-> & Hj & St & Op)].
           ++ repeat split; [now left | exists c0; auto | exists c; auto].
           ++ repeat split; auto. now right.
        -- intros (-> & [<-|Hj] & St & Op).
           ++ left. repeat split. destruct Op as (c & Hc & Ek & Eo).
              exists c. auto.
           ++ right. auto.
      * rewrite IH. split.
        -- intros (-> & Hj & St & Op). repeat split; auto. now right.
        -- intros (-> & [<-|Hj] & St & Op); [|auto].
           destruct St as (c & F & Hlt). rewrite F0 in F. injection F as <-. lia.
    + rewrite IH. split.
      * intros (-> & Hj & St & Op). repeat split; auto. now right.
      * intros (-> & [<-|Hj] & St & Op); [|auto].
        destruct St as (c & F & _). congruence.
Qed.

Lemma stale_heartbeatClients (cutoff : Z) (k : jsstring) (s : Server) :
  stale cutoff k (fst (heartbeatClients s)) <-> stale cutoff k s.
Proof.
  unfold stale, heartbeatClients, findConn. cbn [fst conns].
  rewrite find_map_same by apply heartbeatClient_cid.
  destruct (find _ (conns s)) as [c|]; cbn [option_map].
  - split; intros (c' & [= <-] & H); eexists; (split; [reflexivity|]);
      now rewrite ?heartbeatClient_p in *.
  - split; intros (c' & E & _); discriminate.
Qed.

(** X7.  One run of the heartbeat evicts exactly the stale entries: a
    key stays in the registry iff it was there and its [lastSeen] is not
    older than [t - CONNECTION_TTL_MS]; a [left {j}] frame reaches a
    socket iff [j] was such a stale key and the socket is open when the
    run ends; every participant left in the registry has been seen
    within the TTL. *)
Theorem heartbeat_evicts_exactly_the_stale (s : Server) (t : Z) :
  (forall k, In k (participants (fst (heartbeat s t)))
             <-> In k (participants s) /\ ~ stale (t - CONNECTION_TTL_MS) k s)
  /\ (forall k j ts,
         In (Deliver k (FLeft j) ts) (snd (heartbeat s t))
         <-> ts = t /\ In j (participants s)
             /\ stale (t - CONNECTION_TTL_MS) j s
             /\ isOpenConn k (fst (heartbeat s t)))
  /\ (forall q, In q (values (fst (heartbeat s t))) ->
                t - CONNECTION_TTL_MS <= plastSeen q).
Proof.
  assert (forall k, In k (participants (fst (heartbeat s t)))
             <-> In k (participants s) /\ ~ stale (t - CONNECTION_TTL_MS) k s) as H1.
  { intro k. unfold heartbeat.
    pose proof (sweep_registry (t - CONNECTION_TTL_MS) t
                  (participants (fst (heartbeatClients s)))
                  (fst (heartbeatClients s)) k) as H.
    rewrite stale_heartbeatClients in H.
    change (heartbeatClients s)
      with (fst (heartbeatClients s), snd (heartbeatClients s)). cbv iota.
    destruct (sweep _ _ _ _) as [s2 o2]. cbn [fst] in *.
    rewrite H. cbn [heartbeatClients fst participants]. tauto. }
  repeat apply conj.
  - exact H1.
  - intros k j ts.
    assert (isOpenConn k (fst (heartbeat s t))
            <-> isOpenConn k (fst (heartbeatClients s))) as Ho.
    { unfold isOpenConn. rewrite heartbeat_conns. reflexivity. }
    rewrite Ho. unfold heartbeat.
    pose proof (sweep_out (t - CONNECTION_TTL_MS) t
                  (participants (fst (heartbeatClients s)))
                  (fst (heartbeatClients s)) k j ts) as H.
    rewrite stale_heartbeatClients in H.
    change (heartbeatClients s)
      with (fst (heartbeatClients s), snd (heartbeatClients s)). cbv iota.
    destruct (sweep _ _ _ _) as [s2 o2]. cbn [fst snd] in *.
    rewrite in_app_iff, H. cbn [heartbeatClients fst snd participants]. split.
    + intros [Hin|Hin]; [|exact Hin]. exfalso.
      apply in_flat_map in Hin as (c & _ & Hin).
      unfold heartbeatClient in Hin. destruct (readyState c); cbn [snd] in Hin;
        try (destruct (negb (isAlive c)); cbn [snd isOpen] in Hin);
        repeat (destruct Hin as [Hin|Hin]; try discriminate); try destruct Hin.
    + intro Hin. right. exact Hin.
  - intros q Hq. unfold values in Hq. apply in_map_iff in Hq as ([k q'] & E & He).
    simpl in E. subst q'. apply In_entries in He as (Hk & c & F & ->).
    apply H1 in Hk as [_ Hn]. rewrite heartbeat_findConn in F.
    destruct (findConn k s) as [c0|] eqn:F0; [|discriminate].
    injection F as <-. rewrite heartbeatClient_p.
    destruct (Z.lt_ge_cases (plastSeen (p c0)) (t - CONNECTION_TTL_MS)) as [Hlt|Hge];
      [|exact Hge].
    exfalso. apply Hn. exists c0. auto.
Qed.

(** A heartbeat 40 s after A and B connected, with nothing heard since,
    empties the registry although both sockets are still open. *)
Example heartbeat_eviction_example :
  participants (fst (heartbeat stateAB 40000)) = []
  /\ map readyState (conns (fst (heartbeat stateAB 40000))) = [OPEN; OPEN].
Proof. vm_compute. split; reflexivity. Qed.

(* ------------------------------------------------------------------ *)
(** ** The registry under inbound frames *)

Lemma registrySet_keys (i : jsstring) (s : Server) :
  (In i (participants s) /\ participants (registrySet i s) = participants s)
  \/ (~ In i (participants s) /\ participants (registrySet i s) = participants s ++ [i]).
Proof.
  unfold registrySet. cbn [participants].
  destruct (existsb (jsstring_eqb i) (participants s)) eqn:E.
  - left. split; [now apply existsb_eqb_In | reflexivity].
  - right. split; [|reflexivity]. intro H. apply existsb_eqb_In in H. congruence.
Qed.

Lemma dispatch_keys (s : Server) (ws : Conn) (data : Inbound) (t : Z) :
  participants (fst (dispatch s ws data t)) = participants s
  \/ (~ In (cid ws) (participants s)
      /\ participants (fst (dispatch s ws data t)) = participants s ++ [cid ws]).
Proof.
  assert (forall w, participants (registrySet (cid ws) (putConn w s)) = participants s
                    \/ (~ In (cid ws) (participants s)
                        /\ participants (registrySet (cid ws) (putConn w s))
                           = participants s ++ [cid ws])) as R.
  { intro w. destruct (registrySet_keys (cid ws) (putConn w s)) as [[_ H]|H]; auto. }
  unfold dispatch. destruct data as [raw|nx ny|raw| |m| |]; cbn [fst]; auto.
  - destruct (isEmpty (trim raw)); cbn [fst]; auto.
  - destruct (t - lastMoveAt ws <? MOVE_RATE_LIMIT_MS); cbn [fst]; auto.
    destruct nx as [| | |qx]; cbn [fst]; auto.
    destruct ny as [| | |qy]; cbn [fst]; auto.
    match goal with |- context [if ?b then _ else _] => destruct b end;
      cbn [fst]; auto.
    destruct (registrySet_keys (cid ws)
                (putConn (withP (setPos (clamp (Math_round qx) 0 ROOM_width)
                                        (clamp (Math_round qy) 0 ROOM_height)
                                        (p (withLastMoveAt t ws)))
                                (withLastMoveAt t ws))
                         (putConn (withLastMoveAt t ws) s))) as [[_ H]|H]; auto.
  - destruct (isEmpty (trim raw)); cbn [fst]; auto.
    destruct (negb _); cbn [fst]; auto.
  - destruct (t - lastChatAt ws <? CHAT_RATE_LIMIT_MS); cbn [fst]; auto.
    destruct m as [raw|]; cbn [fst]; auto.
    destruct (isEmpty raw); cbn [fst]; auto.
    destruct (isEmpty (sanitizeMessage raw)); cbn [fst]; auto.
    destruct (registryGet _ _); cbn [fst]; auto.
    destruct (Nat.eqb _ 0); cbn [fst]; auto.
Qed.

(** X8.  An inbound frame never removes a registry key and never
    reorders the keys; the only key it can add is the id of the sending
    connection, at the end, when that id was missing. *)
Theorem frame_adds_at_most_the_sender
    (s : Server) (j : jsstring) (data : Inbound) (t : Z) :
  participants (fst (onMessage s j data t)) = participants s
  \/ (~ In j (participants s)
      /\ participants (fst (onMessage s j data t)) = participants s ++ [j]).
Proof.
  unfold onMessage. destruct (findConn j s) as [ws0|] eqn:F; [|now left].
  pose proof (proj2 (findConn_Some _ _ _ F)) as Ej.
  pose proof (dispatch_keys (putConn (touch t ws0) s) (touch t ws0) data t) as H.
  change (cid (touch t ws0)) with (cid ws0) in H. rewrite Ej in H.
  rewrite putConn_participants in H.
  destruct data; try exact H; now left.
Qed.

(** X9.  A connection whose id is not in the registry (it was evicted by
    the sweep while its socket stayed open) cannot chat: whatever the
    message, nothing is sent, not even [chat_error], and the registry is
    unchanged.  Its next [join] with a name puts it back, as the last
    key. *)
Theorem evicted_sender_cannot_chat_until_it_joins
    (s : Server) (i : jsstring) (ws : Conn) (t : Z) :
  findConn i s = Some ws -> ~ In i (participants s) ->
  (forall m, snd (onMessage s i (Chat m) t) = []
             /\ participants (fst (onMessage s i (Chat m) t)) = participants s)
  /\ (forall raw, trim raw <> [] ->
        participants (fst (onMessage s i (Join raw) t)) = participants s ++ [i]).
Proof.
  intros F Hn. pose proof (proj2 (findConn_Some _ _ _ F)) as Ei. split.
  - intro m. split.
    + rewrite (onMessage_dispatch s i ws) by (assumption || discriminate).
      unfold dispatch.
      destruct (t - lastChatAt (touch t ws) <? CHAT_RATE_LIMIT_MS); [reflexivity|].
      destruct m as [raw|]; [|reflexivity].
      destruct (isEmpty raw); [reflexivity|].
      destruct (isEmpty (sanitizeMessage raw)); [reflexivity|].
      assert (registryGet (cid (touch t ws))
                (putConn (withLastChatAt t (touch t ws)) (putConn (touch t ws) s))
              = None) as ->; [|reflexivity].
      unfold registryGet. rewrite !putConn_participants.
      change (cid (touch t ws)) with (cid ws). rewrite Ei.
      destruct (existsb _ _) eqn:E; [|reflexivity].
      apply existsb_eqb_In in E. contradiction.
    + destruct (Z.ltb_spec (t - lastChatAt ws) CHAT_RATE_LIMIT_MS) as [G|G].
      * now rewrite (chat_rate_limited s i ws m t F G).
      * now rewrite (chat_state s i ws m t F G).
  - intros raw Hr. rewrite (join_named s i ws raw t F Hr). cbn [fst].
    destruct (registrySet_keys i
                (putConn (withP (setName (slice0 MAX_NAME_LENGTH (trim raw))
                                         (p (touch t ws))) (touch t ws)) s))
      as [[H _]|[_ H]]; [contradiction | exact H].
Qed.

Lemma evicted_sender_cannot_chat_until_it_joins_witness :
  findConn idA (fst (heartbeat stateAB 40000))
  = Some (connOf idA (fst (heartbeat stateAB 40000)))
  /\ ~ In idA (participants (fst (heartbeat stateAB 40000)))
  /\ snd (onMessage (fst (heartbeat stateAB 40000)) idA
            (Chat (Some (lit "anyone there?"))) 41000) = []
  /\ participants (fst (onMessage (fst (heartbeat stateAB 40000)) idA
                          (Join (lit "Ada")) 41000))
     = participants (fst (heartbeat stateAB 40000)) ++ [idA].
Proof.
  assert (findConn idA (fst (heartbeat stateAB 40000))
          = Some (connOf idA (fst (heartbeat stateAB 40000)))) as F
      by (vm_compute; reflexivity).
  assert (~ In idA (participants (fst (heartbeat stateAB 40000)))) as Hn
      by (vm_compute; intros []).
  destruct (evicted_sender_cannot_chat_until_it_joins
              (fst (heartbeat stateAB 40000)) idA
              (connOf idA (fst (heartbeat stateAB 40000))) 41000 F Hn) as [Hc Hj].
  split; [exact F | split; [exact Hn | split]].
  - exact (proj1 (Hc (Some (lit "anyone there?")))).
  - apply Hj. vm_compute. discriminate.
Defined.

(* ------------------------------------------------------------------ *)
(** ** Moves *)

Lemma participantOf_found (s : Server) (i : jsstring) (ws : Conn) :
  findConn i s = Some ws -> participantOf i s = p ws.
Proof. intro F. unfold participantOf. now rewrite F. Qed.

(** X10.  A [move] that passes the gate and changes the stored position
    is announced with [moved {id, x, y}] to every open connection except
    the mover; the only other frame is one [proximity] frame for the
    mover, carrying the nearby ids computed on the new position, and the
    mover is in the registry afterwards. *)
Theorem moved_goes_to_the_others_and_proximity_to_the_mover
    (s : Server) (i : jsstring) (ws : Conn) (qx qy : Q) (t : Z) :
  reachable s -> findConn i s = Some ws ->
  MOVE_RATE_LIMIT_MS <= t - lastMoveAt ws ->
  clamp (Math_round qx) 0 ROOM_width <> px (p ws)
  \/ clamp (Math_round qy) 0 ROOM_height <> py (p ws) ->
  (forall k, In (Deliver k (FMoved i (clamp (Math_round qx) 0 ROOM_width)
                                     (clamp (Math_round qy) 0 ROOM_height)) t)
                (snd (onMessage s i (Move (Finite qx) (Finite qy)) t))
             <-> isOpenConn k s /\ k <> i)
  /\ (forall k f ts,
         In (Deliver k f ts) (snd (onMessage s i (Move (Finite qx) (Finite qy)) t)) ->
         f = FMoved i (clamp (Math_round qx) 0 ROOM_width)
                      (clamp (Math_round qy) 0 ROOM_height)
         \/ (k = i
             /\ f = FProximity i
                      (calcNearby (fst (onMessage s i (Move (Finite qx) (Finite qy)) t))
                         (participantOf i
                            (fst (onMessage s i (Move (Finite qx) (Finite qy)) t))))))
  /\ (readyState ws = OPEN ->
      In (Deliver i
            (FProximity i
               (calcNearby (fst (onMessage s i (Move (Finite qx) (Finite qy)) t))
                  (participantOf i
                     (fst (onMessage s i (Move (Finite qx) (Finite qy)) t)))))
            t)
         (snd (onMessage s i (Move (Finite qx) (Finite qy)) t)))
  /\ In i (participants (fst (onMessage s i (Move (Finite qx) (Finite qy)) t))).
Proof.
  intros HR F G Hd. pose proof (reachable_Inv s HR) as HI.
  pose proof (proj2 (findConn_Some _ _ _ F)) as Ei.
  pose proof (findConn_connOk s i ws HI F) as (Ep & _).
  rewrite (move_finite s i ws qx qy t F G).
  set (x := clamp (Math_round qx) 0 ROOM_width) in *.
  set (y := clamp (Math_round qy) 0 ROOM_height) in *.
  assert ((x =? px (p ws)) && (y =? py (p ws)) = false) as ->.
  { apply andb_false_iff. destruct Hd as [H|H]; [left | right];
      now apply Z.eqb_neq. }
  set (ws2 := withP (setPos x y (p (withLastMoveAt t (touch t ws))))
                    (withLastMoveAt t (touch t ws))).
  set (s2 := registrySet i (putConn ws2 s)).
  cbn [fst snd].
  assert (findConn i s2 = Some ws2) as F2.
  { unfold s2. rewrite findConn_registrySet. now apply (findConn_put _ ws). }
  rewrite (participantOf_found s2 i ws2 F2).
  assert (pid (p ws2) = i) as Ep2 by (simpl; congruence).
  assert (forall k, isOpenConn k s2 <-> isOpenConn k s) as Hopen.
  { intro k. unfold s2. rewrite isOpenConn_registrySet.
    destruct HI as (ND & _).
    apply (isOpenConn_putConn ws2 ws); [assumption | | reflexivity].
    simpl. now rewrite Ei. }
  unfold sendProximity. rewrite Ep2. repeat apply conj.
  - intro k. rewrite in_app_iff, In_broadcast, <- (Hopen k).
    unfold isOpenConn, isExcept. split.
    + intros [(_ & _ & c & H1 & H2 & H3 & H4)|H].
      * apply jsstring_eqb_neq in H4. split; [eauto | congruence].
      * apply In_send in H as (E & _). discriminate.
    + intros [(c & H1 & H2 & H3) Hne]. left. repeat split. exists c.
      repeat split; try assumption. apply jsstring_eqb_neq. congruence.
  - intros k f ts H. apply in_app_iff in H as [H|H].
    + apply In_broadcast in H as (-> & _). now left.
    + apply In_send in H as (-> & _ & ->). right. split; [exact Ei | reflexivity].
  - intro Ho. apply in_app_iff. right. unfold send.
    change (readyState ws2) with (readyState ws). rewrite Ho.
    change (cid ws2) with (cid ws). rewrite Ei. now left.
  - unfold s2. apply In_registrySet. now left.
Qed.

Lemma moved_goes_to_the_others_and_proximity_to_the_mover_witness :
  reachable stateABC
  /\ findConn idA stateABC = Some (connOf idA stateABC)
  /\ (In (Deliver idB (FMoved idA 900 100) 50)
         (snd (onMessage stateABC idA (Move (Finite 900) (Finite 100)) 50))
      <-> isOpenConn idB stateABC /\ idB <> idA).
Proof.
  assert (findConn idA stateABC = Some (connOf idA stateABC)) as F
      by (vm_compute; reflexivity).
  split; [exact stateABC_reachable | split; [exact F|]].
  refine (proj1 (moved_goes_to_the_others_and_proximity_to_the_mover
                   stateABC idA (connOf idA stateABC) 900 100 50
                   stateABC_reachable F _ _) idB).
  - vm_compute. discriminate.
  - left. vm_compute. discriminate.
Defined.

(** After A moved next to C, its proximity frame names C and no longer B. *)
Example proximity_after_move_example :
  snd (onMessage stateABC idA (Move (Finite 900) (Finite 100)) 50)
  = [Deliver idB (FMoved idA 900 100) 50;
     Deliver idC (FMoved idA 900 100) 50;
     Deliver idA (FProximity idA [idC]) 50].
Proof. vm_compute. reflexivity. Qed.

Lemma Qfloor_unique (q : Q) (n : Z) :
  (inject_Z n <= q)%Q -> (q < inject_Z (n + 1))%Q -> Qfloor q = n.
Proof.
  intros H1 H2.
  assert (n <= Qfloor q) as L.
  { rewrite <- (Qfloor_Z n). now apply Qfloor_resp_le. }
  assert (Qfloor q < n + 1) as U.
  { rewrite Zlt_Qlt. eapply Qle_lt_trans; [apply Qfloor_le | exact H2]. }
  lia.
Qed.

Lemma Math_round_nearest (q : Q) (n : Z) :
  (inject_Z n - (1 # 2) <= q)%Q -> (q < inject_Z n + (1 # 2))%Q -> Math_round q = n.
Proof.
  intros H1 H2. unfold Math_round. apply Qfloor_unique.
  - apply (Qplus_le_l _ _ (- (1 # 2))). ring_simplify.
    ring_simplify in H1. exact H1.
  - rewrite inject_Z_plus.
    apply (Qplus_lt_l _ _ (- (1 # 2))). ring_simplify.
    ring_simplify in H2. exact H2.
Qed.

Lemma Math_round_below (q : Q) : (q < 0)%Q -> Math_round q <= 0.
Proof.
  intro H. unfold Math_round.
  assert (Qfloor (q + (1 # 2)) < 1); [|lia].
  rewrite Zlt_Qlt. eapply Qle_lt_trans; [apply Qfloor_le|].
  apply (Qplus_lt_l _ _ (- (1 # 2))). ring_simplify.
  eapply Qlt_trans; [exact H | reflexivity].
Qed.

Lemma Math_round_above (q : Q) (n : Z) : (inject_Z n < q)%Q -> n <= Math_round q.
Proof.
  intro H. unfold Math_round. rewrite <- (Qfloor_Z n) at 1.
  apply Qfloor_resp_le. apply Qlt_le_weak.
  eapply Qlt_trans; [exact H|].
  apply (Qplus_lt_l _ _ (- q)). ring_simplify. reflexivity.
Qed.

(** What [clamp(Math.round(v), 0, max)] stores for a finite [v]: the
    nearest integer (ties upwards) when that lies in the room, [0] for a
    negative [v], [max] for a [v] above [max]. *)
Lemma clamp_round (q : Q) (hi : Z) :
  0 <= hi ->
  (forall z, 0 <= z <= hi -> (inject_Z z - (1 # 2) <= q)%Q ->
             (q < inject_Z z + (1 # 2))%Q -> clamp (Math_round q) 0 hi = z)
  /\ ((q < 0)%Q -> clamp (Math_round q) 0 hi = 0)
  /\ ((inject_Z hi < q)%Q -> clamp (Math_round q) 0 hi = hi).
Proof.
  intro Hh. repeat split.
  - intros z Hz H1 H2. rewrite (Math_round_nearest q z H1 H2). unfold clamp. lia.
  - intro H. pose proof (Math_round_below q H). unfold clamp. lia.
  - intro H. pose proof (Math_round_above q hi H). unfold clamp. lia.
Qed.

(** X11.  An accepted [move] stores, on each axis, the integer nearest
    to the requested coordinate (a tie goes up) when that integer lies in
    the room, [0] for a negative request and the room size for a request
    beyond it. *)
Theorem move_stores_the_nearest_point_of_the_room
    (s : Server) (i : jsstring) (ws : Conn) (qx qy : Q) (t : Z) :
  findConn i s = Some ws -> MOVE_RATE_LIMIT_MS <= t - lastMoveAt ws ->
  exists ws1,
    findConn i (fst (onMessage s i (Move (Finite qx) (Finite qy)) t)) = Some ws1
    /\ (forall z, 0 <= z <= ROOM_width -> (inject_Z z - (1 # 2) <= qx)%Q ->
                  (qx < inject_Z z + (1 # 2))%Q -> px (p ws1) = z)
    /\ ((qx < 0)%Q -> px (p ws1) = 0)
    /\ ((inject_Z ROOM_width < qx)%Q -> px (p ws1) = ROOM_width)
    /\ (forall z, 0 <= z <= ROOM_height -> (inject_Z z - (1 # 2) <= qy)%Q ->
                  (qy < inject_Z z + (1 # 2))%Q -> py (p ws1) = z)
    /\ ((qy < 0)%Q -> py (p ws1) = 0)
    /\ ((inject_Z ROOM_height < qy)%Q -> py (p ws1) = ROOM_height).
Proof.
  intros F G.
  destruct (move_state s i ws (Finite qx) (Finite qy) t F G)
    as (ws1 & F1 & _ & _ & P1).
  destruct (P1 qx qy eq_refl eq_refl) as [Ex Ey].
  destruct (clamp_round qx ROOM_width) as (X1 & X2 & X3); [unfold ROOM_width; lia|].
  destruct (clamp_round qy ROOM_height) as (Y1 & Y2 & Y3); [unfold ROOM_height; lia|].
  exists ws1. rewrite Ex, Ey. repeat apply conj; assumption.
Qed.

Lemma move_stores_the_nearest_point_of_the_room_witness :
  findConn idA stateAB = Some (connOf idA stateAB)
  /\ exists ws1,
       findConn idA (fst (onMessage stateAB idA
                            (Move (Finite (25 # 2)) (Finite (-3))) 100)) = Some ws1
       /\ px (p ws1) = 13 /\ py (p ws1) = 0.
Proof.
  split; [exact stateAB_connA|].
  destruct (move_stores_the_nearest_point_of_the_room
              stateAB idA (connOf idA stateAB) (25 # 2) (-3) 100 stateAB_connA)
    as (ws1 & F1 & Hx & _ & _ & _ & Hy & _).
  - vm_compute. discriminate.
  - exists ws1. split; [exact F1 | split].
    + apply Hx; vm_compute; try split; discriminate.
    + apply Hy. vm_compute. reflexivity.
Defined.

(* ------------------------------------------------------------------ *)
(** ** Outputs only reach open sockets *)

Lemma send_target (ws : Conn) (f : Frame) (t : Z) (o : Out) :
  In o (send ws f t) -> target o = cid ws /\ readyState ws = OPEN.
Proof.
  unfold send. destruct (readyState ws) eqn:E; cbn [isOpen].
  - intros [<-|[]]. auto.
  - intros [].
  - intros [].
Qed.

Lemma broadcast_target (s : Server) (f : Frame) (t : Z)
    (ex : option jsstring) (o : Out) :
  In o (broadcast s f t ex) -> isOpenConn (target o) s.
Proof.
  destruct o as [k f' ts|k].
  - intro H. apply In_broadcast in H as (_ & _ & c & Hc & Ek & Eo & _).
    exists c. auto.
  - intro H. now apply broadcast_no_probe in H.
Qed.

Lemma sendToParticipants_target (s : Server) (f : Frame) (t : Z)
    (targets : list Participant) (o : Out) :
  In o (sendToParticipants s f t targets None) -> isOpenConn (target o) s.
Proof.
  destruct o as [k f' ts|k].
  - intro H. apply In_sendToParticipants in H as (_ & _ & c & cp & Hc & Ek & Eo & _).
    exists c. auto.
  - intro H. now apply sendToParticipants_no_probe in H.
Qed.

Lemma isOpenConn_found (s : Server) (i : jsstring) (ws : Conn) :
  findConn i s = Some ws -> readyState ws = OPEN -> isOpenConn i s.
Proof.
  intros F Eo. apply findConn_Some in F as [Hc Ei]. exists ws. auto.
Qed.

Ltac own_open P1 P2 Eo :=
  eapply isOpenConn_found;
  [ first [ apply P1; reflexivity
          | apply P2; reflexivity
          | rewrite findConn_registrySet;
            first [apply P1; reflexivity | apply P2; reflexivity] ]
  | exact Eo ].

Lemma dispatch_targets (s : Server) (ws : Conn) (data : Inbound) (t : Z) (o : Out) :
  findConn (cid ws) s = Some ws ->
  In o (snd (dispatch s ws data t)) ->
  isOpenConn (target o) (fst (dispatch s ws data t)).
Proof.
  intro F.
  assert (forall w, cid w = cid ws -> findConn (cid ws) (putConn w s) = Some w) as P1
      by (intros w E; now apply (findConn_put w ws)).
  assert (forall w0 w, cid w0 = cid ws -> cid w = cid ws ->
                       findConn (cid ws) (putConn w (putConn w0 s)) = Some w) as P2.
  { intros w0 w E0 E. apply (findConn_put w w0); [|assumption]. now apply P1. }
  unfold dispatch. destruct data as [raw|nx ny|raw| |m| |]; cbn [fst snd];
    try (intros []).
  - destruct (isEmpty (trim raw)); cbn [fst snd]; [intros []|].
    intro H. apply in_app_iff in H as [H|H].
    + apply send_target in H as [-> Eo].
      own_open P1 P2 Eo.
    + now apply broadcast_target in H.
  - destruct (t - lastMoveAt ws <? MOVE_RATE_LIMIT_MS); cbn [fst snd]; [intros []|].
    destruct nx as [| | |qx]; cbn [fst snd]; try (intros []).
    destruct ny as [| | |qy]; cbn [fst snd]; try (intros []).
    match goal with |- context [if ?b then _ else _] => destruct b end;
      cbn [fst snd]; [intros []|].
    intro H. apply in_app_iff in H as [H|H].
    + now apply broadcast_target in H.
    + unfold sendProximity in H. apply send_target in H as [-> Eo].
      own_open P1 P2 Eo.
  - destruct (isEmpty (trim raw)); cbn [fst snd]; [intros []|].
    destruct (negb _); cbn [fst snd]; [|intros []].
    intro H. now apply broadcast_target in H.
  - intro H. apply send_target in H as [-> Eo].
    exact (isOpenConn_found _ _ _ F Eo).
  - destruct (t - lastChatAt ws <? CHAT_RATE_LIMIT_MS); cbn [fst snd]; [intros []|].
    destruct m as [raw|]; cbn [fst snd]; [|intros []].
    destruct (isEmpty raw); cbn [fst snd]; [intros []|].
    destruct (isEmpty (sanitizeMessage raw)); cbn [fst snd]; [intros []|].
    destruct (registryGet _ _); cbn [fst snd]; [|intros []].
    destruct (Nat.eqb _ 0); cbn [fst snd]; intro H.
    + apply send_target in H as [-> Eo].
      own_open P1 P2 Eo.
    + now apply sendToParticipants_target in H.
Qed.

Lemma sweep_targets (cutoff t : Z) (ks : list jsstring) (s : Server) (o : Out) :
  In o (snd (sweep cutoff t ks s)) -> isOpenConn (target o) s.
Proof.
  revert s. induction ks as [|k0 r IH]; intros s; cbn [sweep]; [intros []|].
  destruct (findConn k0 s) as [c|]; [|apply IH].
  destruct (plastSeen (p c) <? cutoff); [|apply IH].
  specialize (IH (registryDelete k0 s)).
  destruct (sweep cutoff t r (registryDelete k0 s)) as [s2 o2]. cbn [snd] in *.
  intro H. apply in_app_iff in H as [H|H].
  - now apply broadcast_target in H.
  - exact (IH H).
Qed.

Lemma send_no_probe (ws : Conn) (f : Frame) (t : Z) (k : jsstring) :
  ~ In (Probe k) (send ws f t).
Proof.
  unfold send. destruct (isOpen (readyState ws)); [|intros []].
  intros [E|[]]. discriminate.
Qed.

Ltac probe_free H :=
  repeat (apply in_app_iff in H as [H|H]);
  first [ now apply send_no_probe in H
        | now apply broadcast_no_probe in H
        | now apply sendToParticipants_no_probe in H
        | destruct H ].

Lemma dispatch_no_probe (s : Server) (ws : Conn) (data : Inbound) (t : Z)
    (k : jsstring) :
  ~ In (Probe k) (snd (dispatch s ws data t)).
Proof.
  unfold dispatch. destruct data as [raw|nx ny|raw| |m| |]; cbn [fst snd].
  - destruct (isEmpty (trim raw)); cbn [snd]; intro H; probe_free H.
  - destruct (t - lastMoveAt ws <? MOVE_RATE_LIMIT_MS); cbn [snd]; [intros []|].
    destruct nx as [| | |qx]; cbn [snd]; try (intros []).
    destruct ny as [| | |qy]; cbn [snd]; try (intros []).
    match goal with |- context [if ?b then _ else _] => destruct b end;
      cbn [snd]; intro H; [destruct H|].
    unfold sendProximity in H. probe_free H.
  - destruct (isEmpty (trim raw)); cbn [snd]; [intros []|].
    destruct (negb _); cbn [snd]; intro H; probe_free H.
  - intro H. probe_free H.
  - destruct (t - lastChatAt ws <? CHAT_RATE_LIMIT_MS); cbn [snd]; [intros []|].
    destruct m as [raw|]; cbn [snd]; [|intros []].
    destruct (isEmpty raw); cbn [snd]; [intros []|].
    destruct (isEmpty (sanitizeMessage raw)); cbn [snd]; [intros []|].
    destruct (registryGet _ _); cbn [snd]; [|intros []].
    destruct (Nat.eqb _ 0); cbn [snd]; intro H; probe_free H.
  - intros [].
  - intros [].
Qed.

Lemma sweep_no_probe (cutoff t : Z) (ks : list jsstring) (s : Server) (k : jsstring) :
  ~ In (Probe k) (snd (sweep cutoff t ks s)).
Proof.
  revert s. induction ks as [|k0 r IH]; intros s; cbn [sweep]; [intros []|].
  destruct (findConn k0 s) as [c0|]; [|apply IH].
  destruct (plastSeen (p c0) <? cutoff); [|apply IH].
  specialize (IH (registryDelete k0 s)).
  destruct (sweep cutoff t r (registryDelete k0 s)) as [s2 o2]. cbn [snd] in *.
  intro H. apply in_app_iff in H as [H|H].
  - now apply broadcast_no_probe in H.
  - exact (IH H).
Qed.

Lemma heartbeatClient_probe (c : Conn) (o : Out) :
  In o (snd (heartbeatClient c)) <->
  o = Probe (cid c) /\ readyState c <> CLOSED /\ isAlive c = true.
Proof.
  unfold heartbeatClient. split.
  - destruct (readyState c) eqn:Er; destruct (isAlive c) eqn:Ea;
      cbn [negb snd]; intro H;
      first [destruct H as [<-|[]] | destruct H];
      repeat split; discriminate.
  - intros (-> & Hr & Ha). rewrite Ha.
    destruct (readyState c); cbn [negb snd]; try (now left). congruence.
Qed.

(** X12.  Whatever the event, every frame the server emits goes to a
    socket that is open in the state the handler leaves: no frame is ever
    handed to a closing or closed socket.  Pings are not frames: they are
    made by the heartbeat only, on exactly the sockets that are still in
    [wss.clients] and marked alive, with no test of their [readyState]. *)
Theorem frames_only_reach_open_sockets (s : Server) (e : Event) :
  (forall k f ts, In (Deliver k f ts) (snd (step s e)) ->
                  isOpenConn k (fst (step s e)))
  /\ (forall k, In (Probe k) (snd (step s e)) <->
                exists t c, e = Heartbeat t /\ In c (conns s) /\ cid c = k
                            /\ readyState c <> CLOSED /\ isAlive c = true).
Proof.
  split.
  - intros k f ts.
    destruct e as [i rx ry rc t|i data t|i t|i t|i|t]; cbn [step].
    + unfold onConnection. cbn [fst snd].
      set (ws := mkConn i OPEN true 0 0 _). intro H.
      assert (isOpenConn i (registrySet i
                (mkServer (conns s ++ [ws]) (participants s)))) as Hi.
      { exists ws. split; [|split; reflexivity]. cbn [registrySet conns].
        apply in_app_iff. right. now left. }
      apply in_app_iff in H as [H|H]; [|apply in_app_iff in H as [H|H]].
      * apply send_target in H as [E _]. cbn [target] in E. now rewrite E.
      * apply send_target in H as [E _]. cbn [target] in E. now rewrite E.
      * exact (broadcast_target _ _ _ _ _ H).
    + unfold onMessage. destruct (findConn i s) as [ws0|] eqn:F; [|intros []].
      pose proof (proj2 (findConn_Some _ _ _ F)) as Ei.
      assert (findConn (cid (touch t ws0)) (putConn (touch t ws0) s)
              = Some (touch t ws0)) as F'.
      { apply (findConn_put _ ws0); [|reflexivity].
        change (cid (touch t ws0)) with (cid ws0). now rewrite Ei. }
      destruct data;
        try exact (dispatch_targets _ _ _ _ (Deliver k f ts) F'). intros [].
    + unfold onPong. destruct (findConn i s); intros [].
    + unfold onClose. destruct (findConn i s); [|intros []]. cbn [fst snd].
      exact (broadcast_target _ _ _ _ (Deliver k f ts)).
    + intros [].
    + unfold isOpenConn. rewrite heartbeat_conns.
      unfold heartbeat, heartbeatClients.
      pose proof (sweep_targets (t - CONNECTION_TTL_MS) t (participants s)
                    (mkServer (map (fun c => fst (heartbeatClient c)) (conns s))
                              (participants s)) (Deliver k f ts)) as H.
      cbn [participants] in *.
      destruct (sweep _ _ _ _) as [s2 o2]. cbn [snd] in *.
      intro Hin. apply in_app_iff in Hin as [Hin|Hin]; [|exact (H Hin)].
      apply in_flat_map in Hin as (c & _ & Hin).
      apply heartbeatClient_probe in Hin as (E & _). discriminate.
  - intro k. destruct e as [i rx ry rc t|i data t|i t|i t|i|t]; cbn [step].
    + split; [|intros (t' & c & E & _); discriminate].
      unfold onConnection. cbn [snd]. intro H. probe_free H.
    + split; [|intros (t' & c & E & _); discriminate].
      unfold onMessage. destruct (findConn i s); [|intros []].
      destruct data; try (intro H; now apply dispatch_no_probe in H). intros [].
    + split; [|intros (t' & c & E & _); discriminate].
      unfold onPong. destruct (findConn i s); intros [].
    + split; [|intros (t' & c & E & _); discriminate].
      unfold onClose. destruct (findConn i s); [|intros []]. cbn [snd].
      intro H. now apply broadcast_no_probe in H.
    + split; [intros [] | intros (t' & c & E & _); discriminate].
    + unfold heartbeat, heartbeatClients.
      pose proof (sweep_no_probe (t - CONNECTION_TTL_MS) t (participants s)
                    (mkServer (map (fun c => fst (heartbeatClient c)) (conns s))
                              (participants s)) k) as H.
      cbn [participants] in *.
      destruct (sweep _ _ _ _) as [s2 o2]. cbn [snd] in *.
      rewrite in_app_iff, in_flat_map. split.
      * intros [(c & Hc & Hin)|Hin]; [|contradiction].
        apply heartbeatClient_probe in Hin as ([= ->] & Hr & Ha).
        exists t, c. auto.
      * intros (t' & c & _ & Hc & <- & Hr & Ha). left. exists c.
        split; [assumption|]. now apply heartbeatClient_probe.
Qed.

(* ------------------------------------------------------------------ *)
(** ** No entry outlives its socket *)

Lemma heartbeatClient_closed (w : Conn) :
  readyState (fst (heartbeatClient w)) = CLOSED -> readyState w = CLOSED.
Proof.
  unfold heartbeatClient. destruct (readyState w) eqn:E; cbn [fst]; trivial;
    destruct (negb (isAlive w)); cbn [fst readyState withReadyState withIsAlive];
    congruence.
Qed.

(** A socket found closed after an event was closed before it, unless
    the event is its own close. *)
Lemma closed_origin (s : Server) (e : Event) (k : jsstring) :
  closed k (fst (step s e)) -> closed k s \/ exists t, e = Close k t.
Proof.
  intros (ws & F & Hc).
  destruct e as [j rx ry rc t|j data t|j t|j t|j|t]; cbn [step] in F.
  - left. unfold onConnection in F. cbn [fst] in F.
    unfold findConn in F. cbn [registrySet conns] in F.
    destruct (findConn k s) as [c|] eqn:Fk.
    + unfold findConn in Fk. rewrite (find_app_Some _ _ _ _ Fk) in F.
      injection F as ->. exists ws. auto.
    + unfold findConn in Fk. rewrite (find_app_None _ _ _ Fk) in F.
      simpl in F. destruct (jsstring_eqb j k); [|discriminate].
      injection F as <-. discriminate.
  - left. destruct (jsstring_eqb k j) eqn:E.
    + apply jsstring_eqb_eq in E. subst k.
      destruct (findConn j s) as [ws0|] eqn:F0.
      * assert (data = Malformed \/ data <> Malformed) as [->|Hd]
            by (destruct data; (now left) || (right; discriminate)).
        -- unfold onMessage in F. rewrite F0 in F. cbn [fst] in F.
           exists ws. split; congruence.
        -- destruct (onMessage_own s j ws0 data t F0 Hd) as (ws' & F' & R & _).
           rewrite F' in F. injection F as ->. exists ws0. split; congruence.
      * unfold onMessage in F. rewrite F0 in F. cbn [fst] in F. congruence.
    + apply jsstring_eqb_neq in E. rewrite onMessage_findConn_other in F by assumption.
      exists ws. auto.
  - left. unfold onPong in F. destruct (findConn j s) as [ws0|] eqn:F0;
      cbn [fst] in F; [|exists ws; auto].
    pose proof (proj2 (findConn_Some _ _ _ F0)) as Ej.
    destruct (jsstring_eqb k j) eqn:E.
    + apply jsstring_eqb_eq in E. subst k.
      rewrite (findConn_put (touch t ws0) ws0 j s F0 Ej) in F.
      injection F as <-. exists ws0. auto.
    + apply jsstring_eqb_neq in E.
      rewrite findConn_putConn_other in F by (simpl; congruence).
      exists ws. auto.
  - destruct (jsstring_eqb k j) eqn:E.
    + apply jsstring_eqb_eq in E. subst k. right. eauto.
    + left. apply jsstring_eqb_neq in E. unfold onClose in F.
      destruct (findConn j s) as [ws0|] eqn:F0; cbn [fst] in F; [|exists ws; auto].
      pose proof (proj2 (findConn_Some _ _ _ F0)) as Ej.
      rewrite findConn_registryDelete, findConn_putConn_other in F
        by (simpl; congruence).
      exists ws. auto.
  - left. exists ws. auto.
  - left. rewrite heartbeat_findConn in F.
    destruct (findConn k s) as [c|] eqn:Fk; [|discriminate].
    injection F as <-. exists c. split; [exact Fk|].
    now apply heartbeatClient_closed.
Qed.

Lemma reachable_no_ghost (s : Server) :
  reachable s -> forall k, closed k s -> ~ In k (participants s).
Proof.
  induction 1 as [|s e HR IH Ha]; intros k Hc.
  - destruct Hc as (ws & F & _). discriminate.
  - destruct (closed_origin s e k Hc) as [Hs|(t & ->)].
    + exact (proj2 (gone_step s e k Hs (IH k Hs) Ha)).
    + cbn [step]. destruct Ha as (ws & F & _). unfold onClose. rewrite F.
      cbn [fst]. intro H. apply In_registryDelete in H as [H _]. now apply H.
Qed.

(** X13.  In every reachable state each registry key is the id of a
    socket that was accepted and has not emitted its close event: no
    entry outlives its socket. *)
Theorem registry_keys_belong_to_live_sockets (s : Server) (k : jsstring) :
  reachable s -> In k (participants s) -> live k s.
Proof.
  intros HR Hk. pose proof (reachable_Inv s HR) as HI.
  destruct (findConn_registered s k HI Hk) as (c & F & _).
  exists c. split; [assumption|]. intro Hc.
  apply (reachable_no_ghost s HR k); [|assumption]. exists c. auto.
Qed.

Lemma registry_keys_belong_to_live_sockets_witness :
  reachable stateABC /\ In idB (participants stateABC) /\ live idB stateABC.
Proof.
  assert (In idB (participants stateABC)) as Hk
      by (vm_compute; right; left; reflexivity).
  split; [exact stateABC_reachable | split; [exact Hk|]].
  exact (registry_keys_belong_to_live_sockets stateABC idB stateABC_reachable Hk).
Defined.

(* ------------------------------------------------------------------ *)
(** ** Updates touch one entry *)

Lemma snapshot_putConn_update (upd : ClientParticipant -> ClientParticipant)
    (ws' ws : Conn) (s : Server) :
  Inv s -> findConn (cid ws') s = Some ws ->
  upd (toClientParticipant (p ws)) = toClientParticipant (p ws') ->
  snapshot (putConn ws' s)
  = map (fun cp => if jsstring_eqb (cp_id cp) (cid ws') then upd cp else cp)
        (snapshot s).
Proof.
  intros HI F Hu. unfold snapshot, values, entries. rewrite putConn_participants.
  assert (forall k, In k (participants s) ->
                    exists c, findConn k s = Some c /\ pid (p c) = k) as H.
  { intros k Hk. destruct (findConn_registered s k HI Hk) as (c & Fc & _ & _ & E).
    eauto. }
  induction (participants s) as [|k l IH]; [reflexivity|].
  destruct (H k (or_introl eq_refl)) as (c & Fc & E).
  cbn [flat_map]. rewrite findConn_putConn, Fc.
  rewrite !map_app, IH by (intros k' Hk'; apply H; now right).
  f_equal. destruct (jsstring_eqb k (cid ws')) eqn:Ek;
    cbn [option_map map snd];
    change (cp_id (toClientParticipant (p c))) with (pid (p c)); rewrite E, Ek.
  - apply jsstring_eqb_eq in Ek. rewrite Ek, F in Fc. injection Fc as <-.
    now rewrite Hu.
  - reflexivity.
Qed.

Lemma snapshot_update_at (upd : ClientParticipant -> ClientParticipant)
    (i : jsstring) (ws' ws : Conn) (s : Server) :
  Inv s -> findConn i s = Some ws -> cid ws' = i ->
  upd (toClientParticipant (p ws)) = toClientParticipant (p ws') ->
  snapshot (putConn ws' s)
  = map (fun cp => if jsstring_eqb (cp_id cp) i then upd cp else cp) (snapshot s).
Proof.
  intros HI F <- Hu. now apply (snapshot_putConn_update upd ws' ws).
Qed.

Lemma snapshot_registrySet_present (s : Server) (i : jsstring) :
  In i (participants s) -> snapshot (registrySet i s) = snapshot s.
Proof.
  intro H. apply existsb_eqb_In in H. unfold snapshot, values, entries, registrySet.
  cbn [participants]. rewrite H. reflexivity.
Qed.

(** X14.  For a sender that is in the registry, an accepted [rename] or
    [join] changes exactly the name of the sender's snapshot entry, and a
    [move] that passes the gate with finite coordinates changes exactly
    its position; every other entry, and the order, stay as they were. *)
Theorem update_changes_only_the_senders_entry
    (s : Server) (i : jsstring) (ws : Conn) (t : Z) :
  reachable s -> findConn i s = Some ws -> In i (participants s) ->
  (forall raw, trim raw <> [] ->
      snapshot (fst (onMessage s i (Rename raw) t))
      = map (fun cp => if jsstring_eqb (cp_id cp) i
                       then mkClientParticipant (cp_id cp)
                              (slice0 MAX_NAME_LENGTH (trim raw))
                              (cp_x cp) (cp_y cp) (cp_color cp)
                       else cp) (snapshot s)
      /\ snapshot (fst (onMessage s i (Join raw) t))
         = snapshot (fst (onMessage s i (Rename raw) t)))
  /\ (forall qx qy, MOVE_RATE_LIMIT_MS <= t - lastMoveAt ws ->
      snapshot (fst (onMessage s i (Move (Finite qx) (Finite qy)) t))
      = map (fun cp => if jsstring_eqb (cp_id cp) i
                       then mkClientParticipant (cp_id cp) (cp_name cp)
                              (clamp (Math_round qx) 0 ROOM_width)
                              (clamp (Math_round qy) 0 ROOM_height) (cp_color cp)
                       else cp) (snapshot s)).
Proof.
  intros HR F Hreg. pose proof (reachable_Inv s HR) as HI.
  pose proof (proj2 (findConn_Some _ _ _ F)) as Ei.
  split.
  - intros raw Hr.
    set (newName := slice0 MAX_NAME_LENGTH (trim raw)).
    set (ws1 := withP (setName newName (p (touch t ws))) (touch t ws)).
    assert (snapshot (registrySet i (putConn ws1 s))
            = map (fun cp => if jsstring_eqb (cp_id cp) i
                             then mkClientParticipant (cp_id cp) newName
                                    (cp_x cp) (cp_y cp) (cp_color cp)
                             else cp) (snapshot s)) as E1.
    { rewrite snapshot_registrySet_present by exact Hreg.
      now apply (snapshot_update_at _ i ws1 ws). }
    assert (snapshot (fst (onMessage s i (Rename raw) t))
            = map (fun cp => if jsstring_eqb (cp_id cp) i
                             then mkClientParticipant (cp_id cp) newName
                                    (cp_x cp) (cp_y cp) (cp_color cp)
                             else cp) (snapshot s)) as E2.
    { rewrite (rename_named s i ws raw t F Hr). fold newName ws1.
      destruct (jsstring_eqb newName (pname (p ws))) eqn:En; cbn [fst];
        [|exact E1].
      apply jsstring_eqb_eq in En.
      apply (snapshot_update_at _ i (touch t ws) ws); try assumption.
      rewrite En. reflexivity. }
    split; [exact E2|]. rewrite E2.
    rewrite (join_named s i ws raw t F Hr). fold newName ws1. cbn [fst]. exact E1.
  - intros qx qy G. rewrite (move_finite s i ws qx qy t F G).
    set (x := clamp (Math_round qx) 0 ROOM_width).
    set (y := clamp (Math_round qy) 0 ROOM_height).
    destruct ((x =? px (p ws)) && (y =? py (p ws))) eqn:Eb; cbn [fst].
    + apply andb_true_iff in Eb as [Ex Ey]. apply Z.eqb_eq in Ex, Ey.
      apply (snapshot_update_at _ i (withLastMoveAt t (touch t ws)) ws);
        try assumption.
      fold x y. rewrite Ex, Ey. reflexivity.
    + rewrite snapshot_registrySet_present by exact Hreg.
      match goal with |- snapshot (putConn ?w _) = _ =>
        now apply (snapshot_update_at _ i w ws)
      end.
Qed.

Lemma update_changes_only_the_senders_entry_witness :
  reachable stateAB
  /\ findConn idA stateAB = Some (connOf idA stateAB)
  /\ In idA (participants stateAB)
  /\ map cp_name (snapshot (fst (onMessage stateAB idA (Rename (lit " Ada ")) 60)))
     = [lit "Ada"; lit "Guest-b7e2d"].
Proof.
  assert (In idA (participants stateAB)) as Hk by (vm_compute; left; reflexivity).
  split; [exact stateAB_reachable | split; [exact stateAB_connA | split; [exact Hk|]]].
  destruct (update_changes_only_the_senders_entry
              stateAB idA (connOf idA stateAB) 60
              stateAB_reachable stateAB_connA Hk) as [Hr _].
  destruct (Hr (lit " Ada ")) as [E _].
  - vm_compute. discriminate.
  - rewrite E. vm_compute. reflexivity.
Defined.


(* ------------------------------------------------------------------ *)
(** ** The gates between two frames *)

(** What a frame does to the record of its own connection: only a
    [move] touches [lastMoveAt] and the position, only a [chat] touches
    [lastChatAt]. *)
Lemma onMessage_own_fields (s : Server) (i : jsstring) (ws : Conn)
    (data : Inbound) (t : Z) :
  findConn i s = Some ws ->
  exists ws',
    findConn i (fst (onMessage s i data t)) = Some ws'
    /\ ((forall nx ny, data <> Move nx ny) ->
        lastMoveAt ws' = lastMoveAt ws
        /\ px (p ws') = px (p ws) /\ py (p ws') = py (p ws))
    /\ ((forall m, data <> Chat m) -> lastChatAt ws' = lastChatAt ws).
Proof.
  intro F. pose proof (proj2 (findConn_Some _ _ _ F)) as Ei.
  assert (forall w, cid w = i -> findConn i (putConn w s) = Some w) as P1
      by (intros w E; now apply (findConn_put w ws)).
  destruct data as [raw|nx ny|raw| |m| |].
  - destruct (trim raw) as [|c r] eqn:Et.
    + rewrite (join_blank s i ws raw t F Et). cbn [fst].
      exists (touch t ws). rewrite P1 by exact Ei. repeat split.
    + rewrite (join_named s i ws raw t F) by (rewrite Et; discriminate).
      cbn [fst]. eexists. rewrite findConn_registrySet, P1 by exact Ei.
      repeat split.
  - destruct (Z.ltb_spec (t - lastMoveAt ws) MOVE_RATE_LIMIT_MS) as [G|G].
    + rewrite (move_rate_limited s i ws nx ny t F G). cbn [fst].
      exists (touch t ws). rewrite P1 by exact Ei. repeat split.
    + destruct (move_state s i ws nx ny t F G) as (ws1 & F1 & _ & L & _).
      exists ws1. split; [exact F1 | split].
      * intro H. exfalso. exact (H nx ny eq_refl).
      * intros _. exact L.
  - destruct (trim raw) as [|c r] eqn:Et.
    + rewrite (rename_blank s i ws raw t F Et). cbn [fst].
      exists (touch t ws). rewrite P1 by exact Ei. repeat split.
    + rewrite (rename_named s i ws raw t F) by (rewrite Et; discriminate).
      destruct (jsstring_eqb _ _); cbn [fst].
      * exists (touch t ws). rewrite P1 by exact Ei. repeat split.
      * eexists. rewrite findConn_registrySet, P1 by exact Ei. repeat split.
  - rewrite (onMessage_dispatch s i ws Ping t F) by discriminate.
    unfold dispatch. cbn [fst].
    exists (touch t ws). rewrite P1 by exact Ei. repeat split.
  - destruct (Z.ltb_spec (t - lastChatAt ws) CHAT_RATE_LIMIT_MS) as [G|G].
    + rewrite (chat_rate_limited s i ws m t F G). cbn [fst].
      exists (touch t ws). rewrite P1 by exact Ei. repeat split.
    + rewrite (chat_state s i ws m t F G).
      exists (withLastChatAt t (touch t ws)). rewrite P1 by exact Ei.
      split; [reflexivity | split; [repeat split|]].
      intro H. exfalso. exact (H m eq_refl).
  - rewrite (onMessage_dispatch s i ws Unknown t F) by discriminate.
    unfold dispatch. cbn [fst].
    exists (touch t ws). rewrite P1 by exact Ei. repeat split.
  - unfold onMessage. rewrite F. cbn [fst]. exists ws. repeat split. exact F.
Qed.

(** Events that are not frames of the connection [i] leave its gates and
    its position alone. *)
Lemma step_foreign_fields (s : Server) (e : Event) (i : jsstring) (ws : Conn) :
  findConn i s = Some ws ->
  (forall data t, e <> Message i data t) ->
  exists ws',
    findConn i (fst (step s e)) = Some ws'
    /\ lastMoveAt ws' = lastMoveAt ws /\ lastChatAt ws' = lastChatAt ws
    /\ px (p ws') = px (p ws) /\ py (p ws') = py (p ws).
Proof.
  intros F Hne. pose proof (proj2 (findConn_Some _ _ _ F)) as Ei.
  destruct e as [j rx ry rc t|j data t|j t|j t|j|t]; cbn [step].
  - exists ws. split; [|repeat split]. unfold onConnection. cbn [fst].
    unfold findConn in *. cbn [registrySet conns]. now apply find_app_Some.
  - exists ws. split; [|repeat split].
    rewrite onMessage_findConn_other; [exact F|].
    intros ->. exact (Hne data t eq_refl).
  - unfold onPong. destruct (findConn j s) as [wj|] eqn:Fj; cbn [fst];
      [|exists ws; repeat split; exact F].
    pose proof (proj2 (findConn_Some _ _ _ Fj)) as Ej.
    destruct (jsstring_eqb i j) eqn:E.
    + apply jsstring_eqb_eq in E. rewrite <- E, F in Fj. injection Fj as <-.
      exists (touch t ws). split; [now apply (findConn_put _ ws) | repeat split].
    + apply jsstring_eqb_neq in E. exists ws. split; [|repeat split].
      rewrite findConn_putConn_other by (simpl; congruence). exact F.
  - unfold onClose. destruct (findConn j s) as [wj|] eqn:Fj; cbn [fst];
      [|exists ws; repeat split; exact F].
    pose proof (proj2 (findConn_Some _ _ _ Fj)) as Ej.
    rewrite findConn_registryDelete.
    destruct (jsstring_eqb i j) eqn:E.
    + apply jsstring_eqb_eq in E. rewrite <- E, F in Fj. injection Fj as <-.
      exists (withReadyState CLOSED ws).
      split; [now apply (findConn_put _ ws) | repeat split].
    + apply jsstring_eqb_neq in E. exists ws. split; [|repeat split].
      rewrite findConn_putConn_other by (simpl; congruence). exact F.
  - exists ws. repeat split. exact F.
  - exists (fst (heartbeatClient ws)). rewrite heartbeat_findConn, F.
    split; [reflexivity|]. rewrite heartbeatClient_p.
    unfold heartbeatClient. destruct (readyState ws); cbn [fst];
      try destruct (negb (isAlive ws)); repeat split.
Qed.

Lemma step_keeps_move_gate (s : Server) (e : Event) (i : jsstring) (ws : Conn) :
  findConn i s = Some ws -> moveWithin i (lastMoveAt ws) e ->
  exists ws',
    findConn i (fst (step s e)) = Some ws'
    /\ lastMoveAt ws' = lastMoveAt ws
    /\ px (p ws') = px (p ws) /\ py (p ws') = py (p ws).
Proof.
  intros F Hq.
  assert ((exists data t, e = Message i data t)
          \/ (forall data t, e <> Message i data t)) as [(data & t & ->)|Hne].
  { destruct e as [j rx ry rc t|j data t|j t|j t|j|t];
      try (right; discriminate).
    destruct (jsstring_eqb j i) eqn:E.
    - apply jsstring_eqb_eq in E. subst j. left. eauto.
    - apply jsstring_eqb_neq in E. right. intros d t' [= -> _]. congruence. }
  - cbn [step].
    assert ((exists nx ny, data = Move nx ny) \/ (forall nx ny, data <> Move nx ny))
      as [(nx & ny & ->)|Hd]
        by (destruct data; (left; eauto; fail) || (right; discriminate)).
    + cbn [moveWithin] in Hq. specialize (Hq eq_refl).
      rewrite (move_rate_limited s i ws nx ny t F Hq). cbn [fst].
      pose proof (proj2 (findConn_Some _ _ _ F)) as Ei.
      exists (touch t ws). split; [now apply (findConn_put _ ws) | repeat split].
    + destruct (onMessage_own_fields s i ws data t F) as (ws' & F' & H & _).
      exists ws'. split; [exact F' | exact (H Hd)].
  - destruct (step_foreign_fields s e i ws F Hne) as (ws' & F' & L & _ & P).
    exists ws'. auto.
Qed.

Lemma step_keeps_chat_gate (s : Server) (e : Event) (i : jsstring) (ws : Conn) :
  findConn i s = Some ws -> chatWithin i (lastChatAt ws) e ->
  exists ws',
    findConn i (fst (step s e)) = Some ws' /\ lastChatAt ws' = lastChatAt ws.
Proof.
  intros F Hq.
  assert ((exists data t, e = Message i data t)
          \/ (forall data t, e <> Message i data t)) as [(data & t & ->)|Hne].
  { destruct e as [j rx ry rc t|j data t|j t|j t|j|t];
      try (right; discriminate).
    destruct (jsstring_eqb j i) eqn:E.
    - apply jsstring_eqb_eq in E. subst j. left. eauto.
    - apply jsstring_eqb_neq in E. right. intros d t' [= -> _]. congruence. }
  - cbn [step].
    assert ((exists m, data = Chat m) \/ (forall m, data <> Chat m))
      as [(m & ->)|Hd]
        by (destruct data; (left; eauto; fail) || (right; discriminate)).
    + cbn [chatWithin] in Hq. specialize (Hq eq_refl).
      rewrite (chat_rate_limited s i ws m t F Hq). cbn [fst].
      pose proof (proj2 (findConn_Some _ _ _ F)) as Ei.
      exists (touch t ws). split; [now apply (findConn_put _ ws) | reflexivity].
    + destruct (onMessage_own_fields s i ws data t F) as (ws' & F' & _ & H).
      exists ws'. split; [exact F' | exact (H Hd)].
  - destruct (step_foreign_fields s e i ws F Hne) as (ws' & F' & _ & L & _).
    exists ws'. auto.
Qed.

Lemma run_keeps_move_gate (evs : list Event) (s : Server) (i : jsstring) (ws : Conn) :
  findConn i s = Some ws -> Forall (moveWithin i (lastMoveAt ws)) evs ->
  exists ws',
    findConn i (fst (run s evs)) = Some ws'
    /\ lastMoveAt ws' = lastMoveAt ws
    /\ px (p ws') = px (p ws) /\ py (p ws') = py (p ws).
Proof.
  revert s ws. induction evs as [|e r IH]; intros s ws F Hq.
  - exists ws. repeat split. exact F.
  - inversion Hq as [|? ? He Hr]; subst.
    destruct (step_keeps_move_gate s e i ws F He) as (w1 & F1 & L1 & X1 & Y1).
    rewrite <- L1 in Hr.
    destruct (IH (fst (step s e)) w1 F1 Hr) as (w2 & F2 & L2 & X2 & Y2).
    exists w2. rewrite run_cons_fst. repeat split; congruence.
Qed.

Lemma run_keeps_chat_gate (evs : list Event) (s : Server) (i : jsstring) (ws : Conn) :
  findConn i s = Some ws -> Forall (chatWithin i (lastChatAt ws)) evs ->
  exists ws',
    findConn i (fst (run s evs)) = Some ws' /\ lastChatAt ws' = lastChatAt ws.
Proof.
  revert s ws. induction evs as [|e r IH]; intros s ws F Hq.
  - exists ws. repeat split. exact F.
  - inversion Hq as [|? ? He Hr]; subst.
    destruct (step_keeps_chat_gate s e i ws F He) as (w1 & F1 & L1).
    rewrite <- L1 in Hr.
    destruct (IH (fst (step s e)) w1 F1 Hr) as (w2 & F2 & L2).
    exists w2. rewrite run_cons_fst. split; congruence.
Qed.

(** Who receives a [chat] that passed the gate and the sanitizer, from a
    registered sender with somebody nearby. *)
Lemma chat_delivery (s : Server) (i : jsstring) (ws : Conn) (raw : jsstring)
    (t : Z) (k : jsstring) :
  Inv s -> findConn i s = Some ws -> In i (participants s) ->
  CHAT_RATE_LIMIT_MS <= t - lastChatAt ws -> sanitizeMessage raw <> [] ->
  calcNearby s (p ws) <> [] ->
  In (Deliver k (FChat i (pname (p ws)) (sanitizeMessage raw) t) t)
     (snd (onMessage s i (Chat (Some raw)) t))
  <-> isOpenConn k s /\ (k = i \/ In k (calcNearby s (p ws))).
Proof.
  intros HI F Hreg G Hs Hne.
  pose proof (proj2 (findConn_Some _ _ _ F)) as Ei.
  pose proof (findConn_connOk s i ws HI F) as Hok.
  assert (pid (p ws) = i) as Ep by (destruct Hok as (E & _); congruence).
  rewrite (chat_accepted s i ws raw t F Hreg G Hs). cbn [snd].
  set (ws1 := withLastChatAt t (touch t ws)).
  set (s1 := putConn ws1 s).
  assert (Inv s1) as HI1 by (apply Inv_putConn; assumption).
  assert (map pid (getProximityParticipants s1 (p ws1)) = calcNearby s (p ws)) as Hnear.
  { rewrite (getProximityParticipants_ids s1 (p ws1) HI1).
    now apply (calcNearby_refresh s i ws ws1). }
  change (pid (p ws1)) with (pid (p ws)). change (pname (p ws1)) with (pname (p ws)).
  rewrite Ep.
  assert (Nat.eqb (List.length (getProximityParticipants s1 (p ws1))) 0 = false) as ->.
  { apply Nat.eqb_neq. intro Hl. apply length_zero_iff_nil in Hl.
    rewrite Hl in Hnear. simpl in Hnear. congruence. }
  rewrite In_sendToParticipants.
  assert (isOpenConn k s1 <-> isOpenConn k s) as Hopen.
  { destruct HI as (ND & _).
    apply (isOpenConn_putConn ws1 ws); [assumption | | reflexivity].
    change (cid ws1) with (cid ws). now rewrite Ei. }
  rewrite <- Hopen. split.
  - intros (_ & _ & c & cp & Hc & Ek & Eo & Ef & Ee).
    split; [exists c; auto|].
    pose proof (find_some _ _ Ef) as [_ E]. apply jsstring_eqb_eq in E.
    apply existsb_pid in Ee. cbn [map] in Ee. rewrite Hnear in Ee.
    change (pid (p ws1)) with (pid (p ws)) in Ee. rewrite Ep in Ee.
    rewrite <- E, Ek in Ee. destruct Ee as [Ee|Ee]; auto.
  - intros [(c & Hc & Ek & Eo) Hk].
    assert (In (cid c) (participants s1)) as Hin.
    { rewrite Ek. destruct Hk as [->|Hk]; [exact Hreg|].
      exact (calcNearby_in_registry s (p ws) k Hk). }
    apply (find_registry_participant s1 c HI1 Hc) in Hin as [cp Ef].
    repeat split. exists c, cp. repeat split; try assumption.
    pose proof (find_some _ _ Ef) as [_ E]. apply jsstring_eqb_eq in E.
    apply existsb_pid. cbn [map]. rewrite Hnear.
    change (pid (p ws1)) with (pid (p ws)). rewrite Ep, <- E, Ek.
    destruct Hk as [->|Hk]; [now left | now right].
Qed.

(** C7, as stated, fails: the frame that passes the gate need not be an
    accepted one.  A [move] with a coordinate that is not a number takes
    the gate, and the valid [move] 5 ms later is dropped: of the two, none
    updates the position.  A blank [chat] takes the gate, and the [chat]
    half a second later, which alone would have been delivered, is
    dropped: of the two, none is delivered. *)
Lemma invalid_first_frame_leaves_none_accepted :
  (px (participantOf idA stateAB), py (participantOf idA stateAB)) = (100, 100)
  /\ (let s1 := fst (onMessage stateAB idA (Move NaN (Finite 3)) 100) in
      let s2 := fst (onMessage s1 idA (Move (Finite 300) (Finite 40)) 105) in
      (px (participantOf idA s2), py (participantOf idA s2)) = (100, 100))
  /\ snd (onMessage stateAB idA (Chat (Some (lit "   "))) 5000) = []
  /\ snd (onMessage (fst (onMessage stateAB idA (Chat (Some (lit "   "))) 5000))
                    idA (Chat (Some (lit "hello"))) 5500) = []
  /\ recipients (fun f => match f with FChat _ _ _ _ => true | _ => false end)
       (snd (onMessage stateAB idA (Chat (Some (lit "hello"))) 5500))
     = [idA; idB].
Proof. vm_compute. repeat split. Qed.

(** C7, amended.  On one connection, a [move] that passes the gate at
    [t1] takes the gate whether or not it is valid: with finite
    coordinates it stores the rounded, clamped position, with a
    coordinate that is not finite it stores nothing.  From then on,
    whatever else happens (frames of other connections, other frames of
    this connection, pongs, heartbeats, connections, closes), every
    [move] of this connection that arrives less than
    [MOVE_RATE_LIMIT_MS] after [t1] is dropped without any frame and
    changes nothing but liveness, so that the position stays the one the
    first frame left.  The same holds for [chat] with
    [CHAT_RATE_LIMIT_MS]: the frame that passed the gate is delivered to
    the sender and the nearby participants when its text survives the
    sanitizer, the sender is registered and somebody is nearby, it sends
    nothing when its text is blank, and every later [chat] of the
    connection within the interval sends nothing.  The gates are per
    connection and separate for [move] and [chat]. *)
Theorem frames_within_the_interval_are_dropped
    (s : Server) (i : jsstring) (ws : Conn) (t1 : Z) (evs : list Event) :
  findConn i s = Some ws ->
  (forall nx ny,
      MOVE_RATE_LIMIT_MS <= t1 - lastMoveAt ws ->
      Forall (moveWithin i t1) evs ->
      exists ws2,
        findConn i (fst (run (fst (onMessage s i (Move nx ny) t1)) evs)) = Some ws2
        /\ lastMoveAt ws2 = t1
        /\ (forall qx qy, nx = Finite qx -> ny = Finite qy ->
              px (p ws2) = clamp (Math_round qx) 0 ROOM_width
              /\ py (p ws2) = clamp (Math_round qy) 0 ROOM_height)
        /\ (Number_isFinite nx = false \/ Number_isFinite ny = false ->
              px (p ws2) = px (p ws) /\ py (p ws2) = py (p ws))
        /\ (forall nx' ny' t2,
              t2 - t1 < MOVE_RATE_LIMIT_MS ->
              onMessage (fst (run (fst (onMessage s i (Move nx ny) t1)) evs))
                        i (Move nx' ny') t2
              = (putConn (touch t2 ws2)
                   (fst (run (fst (onMessage s i (Move nx ny) t1)) evs)), [])))
  /\ (forall m,
      CHAT_RATE_LIMIT_MS <= t1 - lastChatAt ws ->
      Forall (chatWithin i t1) evs ->
      exists ws2,
        findConn i (fst (run (fst (onMessage s i (Chat m) t1)) evs)) = Some ws2
        /\ lastChatAt ws2 = t1
        /\ (forall m' t2,
              t2 - t1 < CHAT_RATE_LIMIT_MS ->
              onMessage (fst (run (fst (onMessage s i (Chat m) t1)) evs))
                        i (Chat m') t2
              = (putConn (touch t2 ws2)
                   (fst (run (fst (onMessage s i (Chat m) t1)) evs)), [])))
  /\ (forall raw k,
      reachable s -> In i (participants s) ->
      CHAT_RATE_LIMIT_MS <= t1 - lastChatAt ws ->
      sanitizeMessage raw <> [] -> calcNearby s (p ws) <> [] ->
      (In (Deliver k (FChat i (pname (p ws)) (sanitizeMessage raw) t1) t1)
          (snd (onMessage s i (Chat (Some raw)) t1))
       <-> isOpenConn k s /\ (k = i \/ In k (calcNearby s (p ws)))))
  /\ (forall m,
      match m with Some raw => sanitizeMessage raw = [] | None => True end ->
      snd (onMessage s i (Chat m) t1) = [])
  /\ (forall data t,
      exists ws',
        findConn i (fst (onMessage s i data t)) = Some ws'
        /\ ((forall nx ny, data <> Move nx ny) -> lastMoveAt ws' = lastMoveAt ws)
        /\ ((forall m, data <> Chat m) -> lastChatAt ws' = lastChatAt ws))
  /\ (forall j data t,
      j <> i -> findConn i (fst (onMessage s j data t)) = Some ws).
Proof.
  intro F. repeat apply conj.
  - intros nx ny G Hq.
    destruct (move_state s i ws nx ny t1 F G) as (ws1 & F1 & L1 & _ & P1).
    rewrite <- L1 in Hq.
    destruct (run_keeps_move_gate evs _ i ws1 F1 Hq) as (ws2 & F2 & L2 & X2 & Y2).
    exists ws2. repeat apply conj.
    + exact F2.
    + congruence.
    + intros qx qy Ex Ey. destruct (P1 qx qy Ex Ey). split; congruence.
    + intro Hn.
      assert (Number_isFinite nx && Number_isFinite ny = false) as Hf
          by (apply andb_false_iff; exact Hn).
      pose proof (proj2 (findConn_Some _ _ _ F)) as Ei.
      rewrite (move_not_finite s i ws nx ny t1 F G Hf) in F1. cbn [fst] in F1.
      rewrite (findConn_put (withLastMoveAt t1 (touch t1 ws)) ws i s F Ei) in F1.
      injection F1 as E1. rewrite X2, Y2, <- E1. split; reflexivity.
    + intros nx' ny' t2 G2. apply move_rate_limited; [exact F2 | lia].
  - intros m G Hq.
    assert (findConn i (fst (onMessage s i (Chat m) t1))
            = Some (withLastChatAt t1 (touch t1 ws))) as F1.
    { rewrite (chat_state s i ws m t1 F G).
      apply (findConn_put _ ws); [exact F|].
      exact (proj2 (findConn_Some _ _ _ F)). }
    destruct (run_keeps_chat_gate evs _ i _ F1 Hq) as (ws2 & F2 & L2).
    exists ws2. repeat apply conj.
    + exact F2.
    + exact L2.
    + intros m' t2 G2. apply chat_rate_limited; [exact F2|].
      rewrite L2. cbn [lastChatAt withLastChatAt]. lia.
  - intros raw k HR Hreg G Hs Hne.
    now apply chat_delivery; [apply reachable_Inv | | | | |].
  - intros m Hm.
    destruct (Z.ltb_spec (t1 - lastChatAt ws) CHAT_RATE_LIMIT_MS) as [G|G].
    + now rewrite (chat_rate_limited s i ws m t1 F G).
    + now rewrite (chat_without_text s i ws m t1 F G Hm).
  - intros data t.
    destruct (onMessage_own_fields s i ws data t F) as (ws' & F' & Hm & Hc).
    exists ws'. split; [exact F' | split; [|exact Hc]].
    intro Hd. exact (proj1 (Hm Hd)).
  - intros j data t Hne. rewrite onMessage_findConn_other by congruence.
    exact F.
Qed.

Lemma frames_within_the_interval_are_dropped_witness :
  findConn idA stateAB = Some (connOf idA stateAB)
  /\ exists ws2,
       findConn idA
         (fst (run (fst (onMessage stateAB idA (Move (Finite 300) (Finite 40)) 100))
                   [Message idB (Move (Finite 5) (Finite 5)) 101;
                    Message idA (Chat (Some (lit "hi"))) 102;
                    Heartbeat 103;
                    Message idA (Move (Finite 9) (Finite 9)) 104]))
       = Some ws2
       /\ lastMoveAt ws2 = 100
       /\ px (p ws2) = 300 /\ py (p ws2) = 40.
Proof.
  split; [exact stateAB_connA|].
  destruct (proj1 (frames_within_the_interval_are_dropped
                     stateAB idA (connOf idA stateAB) 100
                     [Message idB (Move (Finite 5) (Finite 5)) 101;
                      Message idA (Chat (Some (lit "hi"))) 102;
                      Heartbeat 103;
                      Message idA (Move (Finite 9) (Finite 9)) 104]
                     stateAB_connA) (Finite 300) (Finite 40))
    as (ws2 & F2 & L2 & P2 & _).
  - vm_compute. discriminate.
  - repeat constructor; intros _; vm_compute; reflexivity.
  - exists ws2. split; [exact F2 | split; [exact L2|]].
    exact (P2 300%Q 40%Q eq_refl eq_refl).
Defined.
